(** * node-ytsr: the JSON extractor, the response decoder, the schema-drift
      adapter, the filter catalog extractor and the pagination engine.

    A shallow embedding of [lib/utils.js] and [lib/main.js].

    - JavaScript strings are [string]s (sequences of 8-bit characters).
    - JavaScript values are the inductive type [value]; a property read on
      [undefined] or [null] is a [TypeError].
    - A [throw] is the [Err] branch of [result]; [try]/[catch] is a match on it.
    - The options object that the pagination engine decrements in place is
      threaded explicitly: every engine function returns the final contents of
      that object next to its outcome. *)

From Stdlib Require Import String Ascii List ZArith NArith Lia Bool.
From Stdlib Require Import DecimalString.
Import ListNotations.
Open Scope string_scope.

(** ** Errors and results *)

(** The errors the code raises itself carry the message of the source; the
    others are the ones the runtime raises. *)
Inductive error : Type :=
| UnsupportedRoot (got : option ascii)      (* Can't cut unsupported JSON (need to begin with [ or { ) *)
| UnterminatedStructure                     (* ... (no matching closing bracket found) *)
| NoDocumentFound                           (* Unable to find JSON! *)
| UpstreamError (message : string)          (* API-Error: ... *)
| InvalidDescriptor (message : string)      (* Invalid continuation array / apiKey / token / context / options *)
| BudgetMismatch                            (* continueRequest only allowed for paged requests *)
| MissingQuery                              (* search string is mandatory *)
| InvalidQueryType                          (* search string must be of type string *)
| MissingSearchTermInFilterLink
| TypeError
| SyntaxError
| TransportError.

Inductive result (A : Type) : Type :=
| Ok (a : A)
| Err (e : error).
Arguments Ok {A} a.
Arguments Err {A} e.

Definition bind {A B : Type} (r : result A) (f : A -> result B) : result B :=
  match r with
  | Ok a => f a
  | Err e => Err e
  end.

Declare Scope result_scope.
Delimit Scope result_scope with result.
Notation "x <- r ;; k" := (bind r (fun x => k))
  (at level 61, r at next level, right associativity) : result_scope.
Notation "' p <- r ;; k" := (bind r (fun x => let p := x in k))
  (at level 61, p pattern, r at next level, right associativity) : result_scope.
Open Scope result_scope.

(** ** Characters and strings *)

Definition dquote : ascii := "034"%char.
Definition backslash : ascii := "\"%char.
Definition lbracket : ascii := "["%char.
Definition rbracket : ascii := "]"%char.
Definition lbrace : ascii := "{"%char.
Definition rbrace : ascii := "}"%char.

(** [s.slice(n)] for [0 <= n]. *)
Fixpoint slice_from (n : nat) (s : string) : string :=
  match n, s with
  | O, _ => s
  | S n', String _ rest => slice_from n' rest
  | S _, EmptyString => EmptyString
  end.

(** [s.indexOf(needle)]; [None] is the source's [-1]. *)
Definition indexOf (s needle : string) : option nat := String.index 0 needle s.

(** ** The JSON extractor: [cutAfterJSON] *)

Module Extractor.

(** How the [for] loop ends: a [return] at index [i], or the string is
    exhausted with the counter at [counter]. *)
Inductive scan : Type :=
| Found (i : nat)
| Exhausted (counter : Z).

Fixpoint scanLoop (open close : ascii) (s : string) (i : nat)
    (isString isEscaped : bool) (counter : Z) : scan :=
  match s with
  | EmptyString => Exhausted counter
  | String c rest =>
      if Ascii.eqb c dquote && negb isEscaped then
        scanLoop open close rest (S i) (negb isString) isEscaped counter
      else
        let isEscaped' := Ascii.eqb c backslash && negb isEscaped in
        if isString then
          scanLoop open close rest (S i) isString isEscaped' counter
        else
          let counter' :=
            if Ascii.eqb c open then (counter + 1)%Z
            else if Ascii.eqb c close then (counter - 1)%Z
            else counter in
          if (counter' =? 0)%Z then Found i
          else scanLoop open close rest (S i) isString isEscaped' counter'
  end.

(** [mixedJson[0]]. *)
Definition first_char (s : string) : option ascii :=
  match s with
  | EmptyString => None
  | String c _ => Some c
  end.

(** The pair [open], [close] chosen from the first character. *)
Definition root_pair (mixedJson : string) : option (ascii * ascii) :=
  match first_char mixedJson with
  | Some c =>
      if Ascii.eqb c lbracket then Some (lbracket, rbracket)
      else if Ascii.eqb c lbrace then Some (lbrace, rbrace)
      else None
  | None => None
  end.

Definition cutAfterJSON (mixedJson : string) : result string :=
  match root_pair mixedJson with
  | None => Err (UnsupportedRoot (first_char mixedJson))
  | Some (open, close) =>
      match scanLoop open close mixedJson 0 false false 0 with
      | Found i => Ok (substring 0 (S i) mixedJson)
      | Exhausted _ => Err UnterminatedStructure
      end
  end.

End Extractor.

(** ** JavaScript numbers and values *)

(** Budgets are item and page counts: the finite numbers of the model are
    the integers, next to [NaN] and the two infinities. *)
Inductive num : Type :=
| NaN
| PInf
| NInf
| Fin (z : Z).

Set Warnings "-register-all".

(** Arrays carry their elements and, as in the language, named properties
    that code may attach to them. Objects list their properties in the order
    [Object.keys] reports them. *)
Inductive value : Type :=
| VUndef
| VNull
| VBool (b : bool)
| VNum (n : num)
| VStr (s : string)
| VArr (elems : list value) (props : list (string * value))
| VObj (props : list (string * value)).

Definition arr (elems : list value) : value := VArr elems [].

Module Num.

(** [a < b]. *)
Definition lt (a b : num) : bool :=
  match a, b with
  | Fin x, Fin y => (x <? y)%Z
  | Fin _, PInf => true
  | NInf, Fin _ => true
  | NInf, PInf => true
  | _, _ => false
  end.

(** [a <= b]. *)
Definition le (a b : num) : bool :=
  match a, b with
  | Fin x, Fin y => (x <=? y)%Z
  | Fin _, PInf => true
  | NInf, Fin _ => true
  | NInf, PInf => true
  | PInf, PInf => true
  | NInf, NInf => true
  | _, _ => false
  end.

(** [a - n] for a finite [n]. *)
Definition sub (a : num) (n : Z) : num :=
  match a with
  | Fin z => Fin (z - n)
  | other => other
  end.

Definition is_nan (a : num) : bool :=
  match a with NaN => true | _ => false end.

Definition is_finite (a : num) : bool :=
  match a with Fin _ => true | _ => false end.

Definition is_pinf (a : num) : bool :=
  match a with PInf => true | _ => false end.

End Num.

Module Js.

Fixpoint lookup (k : string) (ps : list (string * value)) : option value :=
  match ps with
  | [] => None
  | (k', v) :: rest => if String.eqb k k' then Some v else lookup k rest
  end.

Definition lookup_or_undef (k : string) (ps : list (string * value)) : value :=
  match lookup k ps with
  | Some v => v
  | None => VUndef
  end.

(** Assignment to a property: an existing key keeps its place, a new key
    goes last. *)
Fixpoint update (k : string) (v : value) (ps : list (string * value))
    : list (string * value) :=
  match ps with
  | [] => [(k, v)]
  | (k', v') :: rest =>
      if String.eqb k k' then (k, v) :: rest else (k', v') :: update k v rest
  end.

(** [x.k] for a named (non-index) key [k] that the prototypes do not
    define, apart from [length]. *)
Definition get (x : value) (k : string) : result value :=
  match x with
  | VUndef | VNull => Err TypeError
  | VObj ps => Ok (lookup_or_undef k ps)
  | VArr l ps =>
      if String.eqb k "length" then Ok (VNum (Fin (Z.of_nat (List.length l))))
      else Ok (lookup_or_undef k ps)
  | VStr s =>
      if String.eqb k "length" then Ok (VNum (Fin (Z.of_nat (String.length s))))
      else Ok VUndef
  | VBool _ | VNum _ => Ok VUndef
  end.

(** [x.k = v] for a named key other than [length], returning the object
    after the assignment. The modules are not in strict mode: an assignment
    to a property of a primitive is dropped. *)
Definition set (x : value) (k : string) (v : value) : result value :=
  match x with
  | VUndef | VNull => Err TypeError
  | VObj ps => Ok (VObj (update k v ps))
  | VArr l ps => Ok (VArr l (update k v ps))
  | other => Ok other
  end.

(** [a[i]] on an array; on other values the read of a missing property. *)
Definition at_index (x : value) (i : nat) : result value :=
  match x with
  | VUndef | VNull => Err TypeError
  | VArr l _ => Ok (nth i l VUndef)
  | VStr s =>
      match String.get i s with
      | Some c => Ok (VStr (String c EmptyString))
      | None => Ok VUndef
      end
  | VObj ps => Ok (lookup_or_undef (NilEmpty.string_of_uint (Nat.to_uint i)) ps)
  | VBool _ | VNum _ => Ok VUndef
  end.

Definition truthy (x : value) : bool :=
  match x with
  | VUndef | VNull => false
  | VBool b => b
  | VNum NaN => false
  | VNum (Fin z) => negb (z =? 0)%Z
  | VNum _ => true
  | VStr s => negb (String.eqb s "")
  | VArr _ _ | VObj _ => true
  end.

(** [a || b], with [b] already evaluated (it is effect free where used). *)
Definition or_else (a b : value) : value := if truthy a then a else b.

Inductive type_tag : Type :=
| TUndefined | TObject | TBoolean | TNumber | TString.

Definition typeof (x : value) : type_tag :=
  match x with
  | VUndef => TUndefined
  | VNull | VArr _ _ | VObj _ => TObject
  | VBool _ => TBoolean
  | VNum _ => TNumber
  | VStr _ => TString
  end.

Definition is_object_type (x : value) : bool :=
  match typeof x with TObject => true | _ => false end.

Definition is_string_type (x : value) : bool :=
  match typeof x with TString => true | _ => false end.

Definition isArray (x : value) : bool :=
  match x with VArr _ _ => true | _ => false end.

(** The receiver of an array method ([find], [filter], [map], [forEach]):
    on anything else the call is a [TypeError]. *)
Definition as_array (x : value) : result (list value) :=
  match x with
  | VArr l _ => Ok l
  | _ => Err TypeError
  end.

(** [Object.prototype.hasOwnProperty.call(x, k)] for a named key. *)
Definition hasOwn (x : value) (k : string) : result bool :=
  match x with
  | VUndef | VNull => Err TypeError
  | VObj ps => Ok (match lookup k ps with Some _ => true | None => false end)
  | VArr _ ps =>
      Ok (String.eqb k "length" || match lookup k ps with Some _ => true | None => false end)
  | VStr _ => Ok (String.eqb k "length")
  | VBool _ | VNum _ => Ok false
  end.

Fixpoint index_props (i : nat) (l : list value) : list (string * value) :=
  match l with
  | [] => []
  | v :: rest => (NilEmpty.string_of_uint (Nat.to_uint i), v) :: index_props (S i) rest
  end.

Fixpoint char_values (s : string) : list value :=
  match s with
  | EmptyString => []
  | String c rest => VStr (String c EmptyString) :: char_values rest
  end.

(** The own enumerable properties, in [Object.keys] order. *)
Definition own_props (x : value) : list (string * value) :=
  match x with
  | VObj ps => ps
  | VArr l ps => index_props 0 l ++ ps
  | VStr s => index_props 0 (char_values s)
  | _ => []
  end.

(** [Object.keys(x)[0]]. *)
Definition first_key (x : value) : result (option string) :=
  match x with
  | VUndef | VNull => Err TypeError
  | other =>
      match own_props other with
      | [] => Ok None
      | (k, _) :: _ => Ok (Some k)
      end
  end.

(** [Object.assign(target, source)] on property lists. *)
Definition assign (target : list (string * value)) (source : value)
    : list (string * value) :=
  fold_left (fun acc kv => update (fst kv) (snd kv) acc) (own_props source) target.

(** [l.find(p)] for a predicate that may raise. *)
Fixpoint find (p : value -> result bool) (l : list value) : result value :=
  match l with
  | [] => Ok VUndef
  | x :: rest =>
      b <- p x ;;
      if b then Ok x else find p rest
  end.

(** [l.filter(p)] for a predicate that may raise. *)
Fixpoint filter (p : value -> result bool) (l : list value) : result (list value) :=
  match l with
  | [] => Ok []
  | x :: rest =>
      b <- p x ;;
      tl <- filter p rest ;;
      Ok (if b then x :: tl else tl)
  end.

(** [l.map(f)] for a function that may raise. *)
Fixpoint map (f : value -> result value) (l : list value) : result (list value) :=
  match l with
  | [] => Ok []
  | x :: rest =>
      y <- f x ;;
      tl <- map f rest ;;
      Ok (y :: tl)
  end.

(** [l.filter((_, index) => p(index))], counting from [i]. *)
Fixpoint filter_index (p : nat -> bool) (i : nat) (l : list value) : list value :=
  match l with
  | [] => []
  | x :: rest =>
      if p i then x :: filter_index p (S i) rest else filter_index p (S i) rest
  end.

End Js.

(** ** What the runtime and the collaborators provide *)

(** A parsed [URL]: its path and its query parameters in order. *)
Record url : Type := {
  pathname : string;
  searchParams : list (string * string)
}.

(** The built-ins of the language and the item mapper of [parseItem.js],
    which the engine calls but does not define. *)
Class Builtins : Type := {
  (** [JSON.parse(text)] *)
  JSON_parse : string -> result value;
  (** [Number(s)] on a string *)
  StringToNumber : string -> num;
  (** [Number(x)] on an array or an object *)
  ObjectToNumber : value -> num;
  (** the string a value becomes in a template or in [join] *)
  ToString : value -> string;
  (** [new URL(x, base).toString()] *)
  URL_resolve : value -> string -> result string;
  (** [new URL(s, base)] *)
  URL_parse : string -> string -> result url;
  (** [parseItem(item, resp)]: the normalized item, or a falsy value for an
      item that cannot be represented; [resp] is the result under
      construction on the first page and [undefined] on the later ones. *)
  parseItem : value -> value -> result value
}.

Section Coercions.
Context {B : Builtins}.

(** [Number(x)], which is also what [isNaN], [isFinite], [<] and [-=]
    apply to their operands. *)
Definition ToNumber (x : value) : num :=
  match x with
  | VUndef => NaN
  | VNull => Fin 0
  | VBool b => Fin (if b then 1 else 0)
  | VNum n => n
  | VStr s => StringToNumber s
  | VArr _ _ | VObj _ => ObjectToNumber x
  end.

Definition isNaN (x : value) : bool := Num.is_nan (ToNumber x).
Definition isFinite (x : value) : bool := Num.is_finite (ToNumber x).

(** [l.join('')]: [undefined] and [null] give the empty string. *)
Fixpoint join (l : list value) : string :=
  match l with
  | [] => ""
  | VUndef :: rest | VNull :: rest => join rest
  | VStr s :: rest => s ++ join rest
  | x :: rest => ToString x ++ join rest
  end.

End Coercions.

(** ** [lib/utils.js] *)

Module Utils.

Definition BASE_URL : string := "https://www.youtube.com/".

Definition DEFAULT_OPTIONS : value :=
  VObj [("limit", VNum (Fin 100)); ("safeSearch", VBool false)].

Definition DEFAULT_QUERY : value :=
  VObj [("gl", VStr "US"); ("hl", VStr "en")].

Definition DEFAULT_CONTEXT : value :=
  VObj [("client", VObj [("utcOffsetMinutes", VNum (Fin 0));
                         ("gl", VStr "US");
                         ("hl", VStr "en");
                         ("clientName", VStr "WEB");
                         ("clientVersion", VStr "<important information>")]);
        ("user", VObj []);
        ("request", VObj [])].

(** [JSON.parse(JSON.stringify(x))] on the values of the model: a property
    holding [undefined] is dropped, [undefined] in an array and the numbers
    that are not finite become [null], an array loses its named properties. *)
Fixpoint json_copy (x : value) : value :=
  match x with
  | VNum (Fin z) => VNum (Fin z)
  | VNum _ => VNull
  | VArr l _ =>
      VArr (List.map (fun e => match e with VUndef => VNull | _ => json_copy e end) l) []
  | VObj ps =>
      VObj ((fix props (ps : list (string * value)) : list (string * value) :=
               match ps with
               | [] => []
               | (_, VUndef) :: rest => props rest
               | (k, v) :: rest => (k, json_copy v) :: props rest
               end) ps)
  | other => other
  end.

Definition json_roundtrip (x : value) : result value :=
  match x with
  | VUndef => Err SyntaxError
  | other => Ok (json_copy other)
  end.

(** [x.k1.k2 = v], returning [x] after the assignment. *)
Definition set_in (x : value) (k1 k2 : string) (v : value) : result value :=
  inner <- Js.get x k1 ;;
  inner' <- Js.set inner k2 v ;;
  Js.set x k1 inner'.

(** A parameter declared with the default [{}]. *)
Definition or_empty (x : value) : value :=
  match x with
  | VUndef => VObj []
  | other => other
  end.

(** The filter catalog: a [Map] from category name to a [Map] from filter
    name to filter, the inner one carrying its [active] entry. *)
Record Filter : Type := {
  name : value;
  active : bool;
  url : value;
  description : value
}.

Record FilterGroup : Type := {
  group_active : option Filter;          (* [singleFilterGroup.active], [None] for [null] *)
  group_entries : list (value * Filter)
}.

Definition Catalog : Type := list (value * FilterGroup).

Definition num_same (a b : num) : bool :=
  match a, b with
  | NaN, NaN | PInf, PInf | NInf, NInf => true
  | Fin x, Fin y => (x =? y)%Z
  | _, _ => false
  end.

(** Equality of [Map] keys. Two objects of a decoded document are never the
    same object. *)
Definition same_key (a b : value) : bool :=
  match a, b with
  | VUndef, VUndef | VNull, VNull => true
  | VBool x, VBool y => Bool.eqb x y
  | VNum x, VNum y => num_same x y
  | VStr x, VStr y => String.eqb x y
  | _, _ => false
  end.

(** [m.set(k, v)]. *)
Fixpoint map_set {V : Type} (k : value) (v : V) (m : list (value * V))
    : list (value * V) :=
  match m with
  | [] => [(k, v)]
  | (k', v') :: rest =>
      if same_key k k' then (k, v) :: rest else (k', v') :: map_set k v rest
  end.

(** A [forEach] whose body updates an accumulator and may raise. *)
Fixpoint for_each {A : Type} (body : A -> value -> result A) (l : list value) (acc : A)
    : result A :=
  match l with
  | [] => Ok acc
  | x :: rest =>
      acc' <- body acc x ;;
      for_each body rest acc'
  end.

Section WithBuiltins.
Context {B : Builtins}.

Definition parseText (txt def : value) : result value :=
  if negb (Js.is_object_type txt) then Ok def
  else
    simpleText <- Js.get txt "simpleText" ;;
    if Js.truthy simpleText then Ok simpleText
    else
      runs <- Js.get txt "runs" ;;
      match runs with
      | VArr l _ =>
          texts <- Js.map (fun a => Js.get a "text") l ;;
          Ok (VStr (join texts))
      | _ => Ok def
      end.

(** The body of the inner [forEach] of [parseFilters]. *)
Definition parseFilter (group : FilterGroup) (filter : value) : result FilterGroup :=
  renderer <- Js.get filter "searchFilterRenderer" ;;
  navigationEndpoint <- Js.get renderer "navigationEndpoint" ;;
  let isSet := negb (Js.truthy navigationEndpoint) in
  label <- Js.get renderer "label" ;;
  parsedName <- parseText label (VStr "") ;;
  parsedUrl <-
    (if isSet then Ok VNull
     else
       commandMetadata <- Js.get navigationEndpoint "commandMetadata" ;;
       webCommandMetadata <- Js.get commandMetadata "webCommandMetadata" ;;
       target <- Js.get webCommandMetadata "url" ;;
       resolved <- URL_resolve target BASE_URL ;;
       Ok (VStr resolved)) ;;
  tooltip <- Js.get renderer "tooltip" ;;
  let parsedFilter :=
    {| name := parsedName; active := isSet; url := parsedUrl; description := tooltip |} in
  Ok {| group_active := if isSet then Some parsedFilter else group_active group;
        group_entries := map_set parsedName parsedFilter (group_entries group) |}.

(** The body of the outer [forEach] of [parseFilters]. *)
Definition parseFilterGroup (parsedGroups : Catalog) (filterGroup : value) : result Catalog :=
  renderer <- Js.get filterGroup "searchFilterGroupRenderer" ;;
  filters <- Js.get renderer "filters" ;;
  filterList <- Js.as_array filters ;;
  singleFilterGroup <-
    for_each parseFilter filterList {| group_active := None; group_entries := [] |} ;;
  renderer' <- Js.get filterGroup "searchFilterGroupRenderer" ;;
  title <- Js.get renderer' "title" ;;
  category <- parseText title (VStr "Unknown Category") ;;
  Ok (map_set category singleFilterGroup parsedGroups).

Definition parseFilters (json : value) : result Catalog :=
  contents <- Js.get json "contents" ;;
  twoColumn <- Js.get contents "twoColumnSearchResultsRenderer" ;;
  primaryContents <- Js.get twoColumn "primaryContents" ;;
  sectionList <- Js.get primaryContents "sectionListRenderer" ;;
  wrapper <-
    (if Js.truthy sectionList then Ok sectionList
     else Js.get primaryContents "richGridRenderer") ;;
  subMenu <- Js.get wrapper "subMenu" ;;
  menu <- (if Js.truthy subMenu then Ok subMenu else Js.get wrapper "submenu") ;;
  menuRenderer <- Js.get menu "searchSubMenuRenderer" ;;
  groups <- Js.get menuRenderer "groups" ;;
  filterWrapper <-
    match groups with
    | VUndef =>
        header <- Js.get json "header" ;;
        searchHeader <- Js.get header "searchHeaderRenderer" ;;
        button <- Js.get searchHeader "searchFilterButton" ;;
        buttonRenderer <- Js.get button "buttonRenderer" ;;
        command <- Js.get buttonRenderer "command" ;;
        openPopup <- Js.get command "openPopupAction" ;;
        popup <- Js.get openPopup "popup" ;;
        dialog <- Js.get popup "searchFilterOptionsDialogRenderer" ;;
        popupGroups <- Js.get dialog "groups" ;;
        Ok (Js.or_else popupGroups (arr []))
    | found => Ok found
    end ;;
  groupList <- Js.as_array filterWrapper ;;
  for_each parseFilterGroup groupList [].

(** [between(haystack, left, right)] *)
Definition between (haystack left right : string) : string :=
  match indexOf haystack left with
  | None => ""
  | Some start =>
      let haystack' := slice_from (start + String.length left) haystack in
      match indexOf haystack' right with
      | None => ""
      | Some stop => substring 0 stop haystack'
      end
  end.

(** [jsonAfter(haystack, left)]: the [try] around the cut and the parse
    turns every failure into [null]. *)
Definition jsonAfter (haystack left : string) : result value :=
  match indexOf haystack left with
  | None => Ok VNull
  | Some pos =>
      let haystack' := slice_from (pos + String.length left) haystack in
      match (cut <- Extractor.cutAfterJSON haystack' ;; JSON_parse cut) with
      | Ok parsed => Ok parsed
      | Err _ => Ok VNull
      end
  end.

Record ParsedBody : Type := {
  json : value;
  apiKey : string;
  context : value
}.

(** [a || b] on two strings. *)
Definition str_or (a b : string) : string :=
  if String.eqb a "" then b else a.

(** The body of the [forEach] over the three locale keys of [parseBody]. *)
Definition overlay (options : value) (context : value) (key : string) : result value :=
  chosen <- Js.get options key ;;
  if Js.truthy chosen then set_in context "client" key chosen else Ok context.

Definition parseBody (body : string) (options : value) : result ParsedBody :=
  let options := or_empty options in
  let json :=
    match jsonAfter body "var ytInitialData = " with
    | Ok found => found
    | Err _ => VNull
    end in
  let apiKey :=
    str_or (between body ("INNERTUBE_API_KEY" ++ String dquote (":" ++ String dquote "")) (String dquote ""))
           (between body ("innertubeApiKey" ++ String dquote (":" ++ String dquote "")) (String dquote "")) in
  let clientVersion :=
    str_or (between body ("INNERTUBE_CONTEXT_CLIENT_VERSION" ++ String dquote (":" ++ String dquote ""))
                    (String dquote ""))
           (between body ("innertube_context_client_version" ++ String dquote (":" ++ String dquote ""))
                    (String dquote "")) in
  context <- json_roundtrip DEFAULT_CONTEXT ;;
  context <- set_in context "client" "clientVersion" (VStr clientVersion) ;;
  context <- overlay options context "gl" ;;
  context <- overlay options context "hl" ;;
  context <- overlay options context "utcOffsetMinutes" ;;
  safeSearch <- Js.get options "safeSearch" ;;
  context <-
    (if Js.truthy safeSearch then set_in context "user" "enableSafetyMode" (VBool true)
     else Ok context) ;;
  Ok {| json := json; apiKey := apiKey; context := context |}.

(** [array.push(x)] on the value held in a property. *)
Definition push (array x : value) : result value :=
  match array with
  | VArr l ps => Ok (VArr (l ++ [x])%list ps)
  | VUndef | VNull => Err TypeError
  | _ => Err TypeError
  end.

(** The request options of [checkArgs]: a copy of the caller's, its headers
    unlinked, with the safe-search cookie when asked for. *)
Definition requestOptionsOf (options : value) (safeSearch : bool) : result value :=
  given <- Js.get options "requestOptions" ;;
  let requestOptions := VObj (Js.assign [] given) in
  headers <- Js.get requestOptions "headers" ;;
  requestOptions <-
    (if Js.truthy headers then
       copy <- json_roundtrip headers ;;
       Js.set requestOptions "headers" copy
     else Ok requestOptions) ;;
  if safeSearch then
    headers <- Js.get requestOptions "headers" ;;
    requestOptions <-
      (if Js.truthy headers then Ok requestOptions
       else Js.set requestOptions "headers" (VObj [])) ;;
    headers <- Js.get requestOptions "headers" ;;
    cookie <- Js.get headers "Cookie" ;;
    requestOptions <-
      (if Js.truthy cookie then Ok requestOptions
       else set_in requestOptions "headers" "Cookie" (arr [])) ;;
    headers <- Js.get requestOptions "headers" ;;
    cookie <- Js.get headers "Cookie" ;;
    cookie' <- push cookie (VStr "PREF=f2=8000000") ;;
    set_in requestOptions "headers" "Cookie" cookie'
  else Ok requestOptions.

(** [inputURL.searchParams.get(key)]: the first value under [key]. *)
Fixpoint param_get (key : string) (params : list (string * string)) : option string :=
  match params with
  | [] => None
  | (k, v) :: rest => if String.eqb key k then Some v else param_get key rest
  end.

(** The [query] of [checkArgs]: the parameters of a filter link, or the
    search string itself. *)
Definition queryOf (searchString : string) : result value :=
  inputURL <- URL_parse searchString BASE_URL ;;
  if String.prefix BASE_URL searchString
     && String.eqb (pathname inputURL) "/results"
     && match param_get "sp" (searchParams inputURL) with Some _ => true | None => false end
  then
    match param_get "search_query" (searchParams inputURL) with
    | None | Some EmptyString => Err MissingSearchTermInFilterLink
    | Some _ =>
        Ok (VObj (fold_left
                    (fun query kv =>
                       match param_get (fst kv) (searchParams inputURL) with
                       | Some v => Js.update (fst kv) (VStr v) query
                       | None => query
                       end)
                    (searchParams inputURL) []))
    end
  else Ok (VObj [("search_query", VStr searchString)]).

(** The two budgets of [checkArgs]: a page count disables the item limit;
    an item limit that is not a positive number falls back to the default
    with an unbounded page count. *)
Definition normalizeBudgets (obj : value) : result value :=
  pages <- Js.get obj "pages" ;;
  if negb (isNaN pages) && Num.lt (Fin 0) (ToNumber pages) then
    Js.set obj "limit" (VNum PInf)
  else
    limit <- Js.get obj "limit" ;;
    if isNaN limit || Num.le (ToNumber limit) (Fin 0) then
      obj <- Js.set obj "pages" (VNum PInf) ;;
      defaultLimit <- Js.get DEFAULT_OPTIONS "limit" ;;
      Js.set obj "limit" defaultLimit
    else Ok obj.

Definition checkArgs (searchString options : value) : result value :=
  let options := or_empty options in
  if negb (Js.truthy searchString) then Err MissingQuery
  else
    match searchString with
    | VStr search =>
        let obj := VObj (Js.assign (Js.assign [] DEFAULT_OPTIONS) options) in
        obj <- normalizeBudgets obj ;;
        safeSearch <- Js.get obj "safeSearch" ;;
        obj <-
          (match safeSearch with
           | VBool _ => Ok obj
           | _ => Js.set obj "safeSearch" (VBool false)
           end) ;;
        safeSearch <- Js.get obj "safeSearch" ;;
        requestOptions <- requestOptionsOf options (Js.truthy safeSearch) ;;
        obj <- Js.set obj "requestOptions" requestOptions ;;
        query <- queryOf search ;;
        obj <- Js.set obj "query" query ;;
        searchTerm <- Js.get query "search_query" ;;
        obj <- Js.set obj "search" searchTerm ;;
        let query := VObj (Js.assign (Js.assign [] DEFAULT_QUERY) query) in
        gl <- Js.get options "gl" ;;
        query <- (if Js.truthy gl then Js.set query "gl" gl else Ok query) ;;
        hl <- Js.get options "hl" ;;
        query <- (if Js.truthy hl then Js.set query "hl" hl else Ok query) ;;
        Js.set obj "query" query
    | _ => Err InvalidQueryType
    end.

Record Wrapper : Type := {
  rawItems : value;
  continuation : value
}.

(** [Object.keys(x)[0] === key] *)
Definition first_key_is (key : string) (x : value) : result bool :=
  k <- Js.first_key x ;;
  Ok (match k with Some k' => String.eqb k' key | None => false end).

(** [!Object.prototype.hasOwnProperty.call(x, key)] *)
Definition lacks (key : string) (x : value) : result bool :=
  b <- Js.hasOwn x key ;;
  Ok (negb b).

(** [(x.richItemRenderer || x.richSectionRenderer).content] *)
Definition gridContent (x : value) : result value :=
  richItem <- Js.get x "richItemRenderer" ;;
  renderer <- (if Js.truthy richItem then Ok richItem else Js.get x "richSectionRenderer") ;;
  Js.get renderer "content".

Definition parseWrapper (primaryContents : value) : result Wrapper :=
  sectionList <- Js.get primaryContents "sectionListRenderer" ;;
  if Js.truthy sectionList then
    (* Older Format *)
    contents <- Js.get sectionList "contents" ;;
    sections <- Js.as_array contents ;;
    section <- Js.find (first_key_is "itemSectionRenderer") sections ;;
    itemSection <- Js.get section "itemSectionRenderer" ;;
    items <- Js.get itemSection "contents" ;;
    contents' <- Js.get sectionList "contents" ;;
    sections' <- Js.as_array contents' ;;
    marker <- Js.find (first_key_is "continuationItemRenderer") sections' ;;
    Ok {| rawItems := items; continuation := marker |}
  else
    richGrid <- Js.get primaryContents "richGridRenderer" ;;
    if Js.truthy richGrid then
      (* Newer Format *)
      contents <- Js.get richGrid "contents" ;;
      entries <- Js.as_array contents ;;
      kept <- Js.filter (lacks "continuationItemRenderer") entries ;;
      items <- Js.map gridContent kept ;;
      contents' <- Js.get richGrid "contents" ;;
      entries' <- Js.as_array contents' ;;
      marker <- Js.find (fun x => Js.hasOwn x "continuationItemRenderer") entries' ;;
      Ok {| rawItems := arr items; continuation := marker |}
    else Ok {| rawItems := arr []; continuation := VNull |}.

(** The iterable of a [for ... of] or of a spread: an array, or a string
    taken character by character. *)
Definition iterate (x : value) : result (list value) :=
  match x with
  | VArr l _ => Ok l
  | VStr s => Ok (Js.char_values s)
  | _ => Err TypeError
  end.

(** The body of the [for] loop of [parsePage2Wrapper]; the accumulator is
    the pair of [rawItems] and [continuation]. *)
Definition page2Entry (acc : list value * value) (ci : value)
    : result (list value * value) :=
  let (items, marker) := acc in
  isSection <- Js.hasOwn ci "itemSectionRenderer" ;;
  if isSection then
    (* Older Format *)
    itemSection <- Js.get ci "itemSectionRenderer" ;;
    contents <- Js.get itemSection "contents" ;;
    spread <- iterate contents ;;
    Ok ((items ++ spread)%list, marker)
  else
    isRichItem <- Js.hasOwn ci "richItemRenderer" ;;
    if isRichItem then
      richItem <- Js.get ci "richItemRenderer" ;;
      content <- Js.get richItem "content" ;;
      Ok ((items ++ [content])%list, marker)
    else
      isRichSection <- Js.hasOwn ci "richSectionRenderer" ;;
      if isRichSection then
        richSection <- Js.get ci "richSectionRenderer" ;;
        content <- Js.get richSection "content" ;;
        Ok ((items ++ [content])%list, marker)
      else
        isMarker <- Js.hasOwn ci "continuationItemRenderer" ;;
        if isMarker then Ok (items, ci) else Ok (items, marker).

Definition parsePage2Wrapper (continuationItems : value) : result Wrapper :=
  entries <- iterate continuationItems ;;
  '(items, marker) <- for_each page2Entry entries ([], VNull) ;;
  Ok {| rawItems := arr items; continuation := marker |}.

(** [doPost]: the request options get their [method], the transport hands
    back the text of the response, and the text is parsed. The second
    component is the request options object after the call. *)
Definition doPost (reqOpts : value) (responseText : result string)
    : result value * value :=
  let reqOpts := or_empty reqOpts in
  match Js.set reqOpts "method" (VStr "POST") with
  | Err e => (Err e, reqOpts)
  | Ok reqOpts' => (text <- responseText ;; JSON_parse text, reqOpts')
  end.

End WithBuiltins.
End Utils.

(** ** [lib/main.js] *)

(** The state of the options object that an engine call decrements in
    place, next to the outcome of the call. *)
Definition M (A : Type) : Type := value -> result A * value.

Definition ret {A : Type} (a : A) : M A := fun options => (Ok a, options).

Definition mbind {A B : Type} (m : M A) (f : A -> M B) : M B :=
  fun options =>
    match m options with
    | (Ok a, options') => f a options'
    | (Err e, options') => (Err e, options')
    end.

Definition lift {A : Type} (r : result A) : M A := fun options => (r, options).

(** [options.k] *)
Definition options_get (k : string) : M value :=
  fun options => (Js.get options k, options).

(** [options.k = v] *)
Definition options_set (k : string) (v : value) : M unit :=
  fun options =>
    match Js.set options k v with
    | Ok options' => (Ok tt, options')
    | Err e => (Err e, options)
    end.

(** The object itself, as stored into a continuation array. *)
Definition options_now : M value := fun options => (Ok options, options).

Declare Scope engine_scope.
Delimit Scope engine_scope with engine.
Notation "x <~ m ;; k" := (mbind m (fun x => k))
  (at level 61, m at next level, right associativity) : engine_scope.

Module Page.
(** What [fetchNextPage] returns. *)
Record t : Type := {
  continuation : value;
  items : list value
}.
End Page.

Module Main.

Definition BASE_SEARCH_URL : string := "https://www.youtube.com/results?".
Definition BASE_API_URL : string := "https://www.youtube.com/youtubei/v1/search?key=".

(** The result of a search. *)
Record SearchResult : Type := {
  originalQuery : value;
  correctedQuery : value;
  results : num;
  activeFilters : list Utils.Filter;
  refinements : list value;
  items : list value;
  continuation : value
}.

Section WithBuiltins.
Context {B : Builtins}.

(** [rawItems.map(mapper).filter(item => item).filter((_, index) => index < limit)] *)
Definition keepItems (mapper : value -> result value) (rawItems limit : value)
    : result (list value) :=
  raw <- Js.as_array rawItems ;;
  mapped <- Js.map mapper raw ;;
  let present := List.filter Js.truthy mapped in
  Ok (Js.filter_index (fun index => Num.lt (Fin (Z.of_nat index)) (ToNumber limit)) 0 present).

(** [continuation ?
     continuation.continuationItemRenderer.continuationEndpoint.continuationCommand.token : null] *)
Definition tokenOf (continuation : value) : result value :=
  if Js.truthy continuation then
    renderer <- Js.get continuation "continuationItemRenderer" ;;
    endpoint <- Js.get renderer "continuationEndpoint" ;;
    command <- Js.get endpoint "continuationCommand" ;;
    Js.get command "token"
  else Ok VNull.

(** [options.limit -= kept; options.pages -= 1] *)
Definition spend (kept : nat) : M unit :=
  (limit <~ options_get "limit" ;;
   _ <~ options_set "limit" (VNum (Num.sub (ToNumber limit) (Z.of_nat kept))) ;;
   pages <~ options_get "pages" ;;
   options_set "pages" (VNum (Num.sub (ToNumber pages) 1)))%engine.

(** [!token || options.limit < 1 || options.pages < 1] *)
Definition finished (token : value) : M bool :=
  (limit <~ options_get "limit" ;;
   pages <~ options_get "pages" ;;
   ret (negb (Js.truthy token)
        || Num.lt (ToNumber limit) (Fin 1)
        || Num.lt (ToNumber pages) (Fin 1)))%engine.

(** [x === Infinity] *)
Definition is_infinity (x : value) : bool :=
  match x with
  | VNum PInf => true
  | _ => false
  end.

(** [token && options.limit === Infinity] *)
Definition resumable (token : value) : M bool :=
  (limit <~ options_get "limit" ;;
   ret (Js.truthy token && is_infinity limit))%engine.

(** The call of [doPost] in [fetchNextPage]: the request options are the
    object held in [options.requestOptions], so the [method] that [doPost]
    stores is visible there. *)
Definition post (responseText : result string) : M value :=
  fun options =>
    match Js.get options "requestOptions" with
    | Err e => (Err e, options)
    | Ok given =>
        let (outcome, reqOpts) := Utils.doPost given responseText in
        (outcome,
         match given with
         | VUndef => options
         | _ =>
             match Js.set options "requestOptions" reqOpts with
             | Ok stored => stored
             | Err _ => options
             end
         end)
    end.

(** The body of [fetchNextPage]; [again] is the recursive call on the next
    token and [responseText] what the transport answers to this request. *)
Definition nextPage (again : value -> M Page.t) (responseText : result string)
    (apiKey token context : value) : M Page.t :=
  (response <~ post responseText ;;
   commands <~ lift (Js.get response "onResponseReceivedCommands") ;;
   if negb (Js.isArray commands) then
     ret {| Page.continuation := VNull; Page.items := [] |}
   else
     wrapper <~ lift (first <- Js.at_index commands 0 ;;
                      action <- Js.get first "appendContinuationItemsAction" ;;
                      continuationItems <- Js.get action "continuationItems" ;;
                      Utils.parsePage2Wrapper continuationItems) ;;
     limit <~ options_get "limit" ;;
     parsedItems <~ lift (keepItems (fun item => parseItem item VUndef)
                                    (Utils.rawItems wrapper) limit) ;;
     _ <~ spend (List.length parsedItems) ;;
     nextToken <~ lift (tokenOf (Utils.continuation wrapper)) ;;
     stop <~ finished nextToken ;;
     if stop then
       emit <~ resumable nextToken ;;
       options <~ options_now ;;
       ret {| Page.continuation :=
                if emit then arr [apiKey; nextToken; context; options] else VNull;
              Page.items := parsedItems |}
     else
       nextPageResults <~ again nextToken ;;
       ret {| Page.continuation := Page.continuation nextPageResults;
              Page.items := (parsedItems ++ Page.items nextPageResults)%list |})%engine.

(** [fetchNextPage], over the responses the transport will give, in order;
    the transport fails when there is none left. *)
Fixpoint fetchNextPage (world : list string) (apiKey token context : value) : M Page.t :=
  match world with
  | [] =>
      nextPage (fun _ => lift (Err TransportError)) (Err TransportError) apiKey token context
  | text :: rest =>
      nextPage (fun nextToken => fetchNextPage rest apiKey nextToken context)
               (Ok text) apiKey token context
  end.

(** The checks of [continueRequest], giving the four elements. *)
Definition checkContinuation (args : value) : result (value * value * value * value) :=
  match args with
  | VArr [a0; a1; a2; a3] _ =>
      if negb (Js.truthy a0) || negb (Js.is_string_type a0) then
        Err (InvalidDescriptor "Invalid apiKey")
      else if negb (Js.truthy a1) || negb (Js.is_string_type a1) then
        Err (InvalidDescriptor "Invalid token")
      else if negb (Js.truthy a2) || negb (Js.is_object_type a2) then
        Err (InvalidDescriptor "Invalid context")
      else if negb (Js.truthy a3) || negb (Js.is_object_type a3) then
        Err (InvalidDescriptor "Invalid options")
      else
        limit <- Js.get a3 "limit" ;;
        if negb (match limit with VNull => true | _ => false end)
           && negb (isNaN limit) && isFinite limit
        then Err BudgetMismatch
        else Ok (a0, a1, a2, a3)
  | _ => Err (InvalidDescriptor "Invalid continuation array")
  end.

(** [args[3].pages = 1; args[3].limit = Infinity] *)
Definition resetBudgets : M unit :=
  (_ <~ options_set "pages" (VNum (Fin 1)) ;;
   options_set "limit" (VNum PInf))%engine.

(** [continueRequest]: the outcome and the caller's array after the call,
    whose fourth element is the options object the call has written to. *)
Definition continueRequest (world : list string) (args : value) : result Page.t * value :=
  match checkContinuation args with
  | Err e => (Err e, args)
  | Ok (a0, a1, a2, a3) =>
      let (outcome, options') :=
        (_ <~ resetBudgets ;; fetchNextPage world a0 a1 a2)%engine a3 in
      (outcome,
       match args with
       | VArr _ props => VArr [a0; a1; a2; options'] props
       | other => other
       end)
  end.

(** A value inside a template string. *)
Definition interpolate (x : value) : string :=
  match x with
  | VStr s => s
  | other => ToString other
  end.

(** [alert => alert.alertRenderer && alert.alertRenderer.type === 'ERROR'] *)
Definition isErrorAlert (alert : value) : result bool :=
  renderer <- Js.get alert "alertRenderer" ;;
  if Js.truthy renderer then
    type <- Js.get renderer "type" ;;
    Ok (match type with VStr s => String.eqb s "ERROR" | _ => false end)
  else Ok false.

(** The alert check of [fetchSearchResults]. *)
Definition checkAlerts (json : value) : result unit :=
  alerts <- Js.get json "alerts" ;;
  contents <- Js.get json "contents" ;;
  if Js.truthy alerts && negb (Js.truthy contents) then
    alertList <- Js.as_array alerts ;;
    error <- Js.find isErrorAlert alertList ;;
    if Js.truthy error then
      renderer <- Js.get error "alertRenderer" ;;
      text <- Js.get renderer "text" ;;
      message <- Utils.parseText text (VStr "* no message *") ;;
      Err (UpstreamError ("API-Error: " ++ interpolate message))
    else Ok tt
  else Ok tt.

(** [Number(x) || 0] *)
Definition number_or_zero (x : value) : num :=
  if Js.truthy (VNum (ToNumber x)) then ToNumber x else Fin 0.

(** The result under construction, as the item mapper sees it. *)
Definition resultObject (search : value) (estimated : num) : value :=
  VObj [("originalQuery", search); ("correctedQuery", search);
        ("results", VNum estimated); ("activeFilters", arr []);
        ("refinements", arr []); ("items", arr []); ("continuation", VNull)].

(** [Array.from(filters).map(filter => filter[1].active).filter(active => active)] *)
Fixpoint activeOf (filters : Utils.Catalog) : list Utils.Filter :=
  match filters with
  | [] => []
  | (_, group) :: rest =>
      match Utils.group_active group with
      | Some f => f :: activeOf rest
      | None => activeOf rest
      end
  end.

(** [fetchSearchResults] from the decoded first response on; the state is
    the object [opts] that [checkArgs] built. The item mapper is given the
    result under construction; what it may store there is not modelled, and
    the items and the continuation of the result are assigned after it has
    run. *)
Definition firstPage (again : value -> value -> value -> M Page.t)
    (parsedResponse : Utils.ParsedBody) : M SearchResult :=
  let json := Utils.json parsedResponse in
  let apiKey := VStr (Utils.apiKey parsedResponse) in
  let context := Utils.context parsedResponse in
  (_ <~ lift (checkAlerts json) ;;
   search <~ options_get "search" ;;
   estimated <~ lift (e <- Js.get json "estimatedResults" ;; Ok (number_or_zero e)) ;;
   _ <~ lift (refinements <- Js.get json "refinements" ;;
              match refinements with
              | VArr l _ => Js.map (fun r => u <- URL_resolve r BASE_SEARCH_URL ;; Ok (VStr u)) l
              | _ => Ok []
              end) ;;
   wrapper <~ lift (contents <- Js.get json "contents" ;;
                    twoColumn <- Js.get contents "twoColumnSearchResultsRenderer" ;;
                    primaryContents <- Js.get twoColumn "primaryContents" ;;
                    Utils.parseWrapper primaryContents) ;;
   limit <~ options_get "limit" ;;
   kept <~ lift (keepItems (fun item => parseItem item (resultObject search estimated))
                           (Utils.rawItems wrapper) limit) ;;
   _ <~ spend (List.length kept) ;;
   filters <~ lift (Utils.parseFilters json) ;;
   token <~ lift (tokenOf (Utils.continuation wrapper)) ;;
   emit <~ resumable token ;;
   opts <~ options_now ;;
   let result :=
     {| originalQuery := search; correctedQuery := search; results := estimated;
        activeFilters := activeOf filters; refinements := [];
        items := kept;
        continuation := if emit then arr [apiKey; token; context; opts] else VNull |} in
   stop <~ finished token ;;
   if stop then ret result
   else
     nextPageResults <~ again apiKey token context ;;
     ret {| originalQuery := originalQuery result;
            correctedQuery := correctedQuery result;
            results := results result;
            activeFilters := activeFilters result;
            refinements := refinements result;
            items := (items result ++ Page.items nextPageResults)%list;
            continuation := Page.continuation nextPageResults |})%engine.

(** [fetchSearchResults(searchString, options, retries)]; every attempt
    takes one response from the transport. *)
Fixpoint fetchSearchResults (retries : nat) (world : list string)
    (searchString options : value) : result SearchResult :=
  match retries with
  | O => Err NoDocumentFound
  | S retries' =>
      opts <- Utils.checkArgs searchString options ;;
      match world with
      | [] => Err TransportError
      | responseBody :: rest =>
          parsedResponse <- Utils.parseBody responseBody opts ;;
          if negb (Js.truthy (Utils.json parsedResponse)) then
            fetchSearchResults retries' rest searchString options
          else
            fst (firstPage (fetchNextPage rest) parsedResponse opts)
      end
  end.

(** [getFilters]: the retry is not capped; it ends when the transport has
    no response left. *)
Fixpoint getFilters (world : list string) (searchString options : value)
    : result Utils.Catalog :=
  match world with
  | [] => _ <- Utils.checkArgs searchString options ;; Err TransportError
  | responseBody :: rest =>
      _ <- Utils.checkArgs searchString options ;;
      parsedResponse <- Utils.parseBody responseBody VUndef ;;
      if negb (Js.truthy (Utils.json parsedResponse)) then
        getFilters rest searchString options
      else Utils.parseFilters (Utils.json parsedResponse)
  end.

End WithBuiltins.
End Main.

(** ** The JSON grammar (RFC 8259), on texts *)

Module Grammar.

Definition is_ws (c : ascii) : bool :=
  Ascii.eqb c " " || Ascii.eqb c "009" || Ascii.eqb c "010" || Ascii.eqb c "013".

Definition in_range (lo hi : N) (c : ascii) : bool :=
  (lo <=? N_of_ascii c)%N && (N_of_ascii c <=? hi)%N.

Definition is_digit (c : ascii) : bool := in_range 48 57 c.
Definition is_digit19 (c : ascii) : bool := in_range 49 57 c.
Definition is_hex (c : ascii) : bool :=
  is_digit c || in_range 65 70 c || in_range 97 102 c.

(** The characters that may follow a backslash, [u] apart. *)
Definition is_escape (c : ascii) : bool :=
  Ascii.eqb c dquote || Ascii.eqb c backslash || Ascii.eqb c "/"
  || Ascii.eqb c "b" || Ascii.eqb c "f" || Ascii.eqb c "n"
  || Ascii.eqb c "r" || Ascii.eqb c "t".

(** An unescaped character of a string literal. *)
Definition is_plain (c : ascii) : bool :=
  negb (Ascii.eqb c dquote) && negb (Ascii.eqb c backslash) && (32 <=? N_of_ascii c)%N.

Inductive ws : string -> Prop :=
| ws_nil : ws ""
| ws_cons c s : is_ws c = true -> ws s -> ws (String c s).

Inductive digits : string -> Prop :=
| digits_one c : is_digit c = true -> digits (String c "")
| digits_cons c s : is_digit c = true -> digits s -> digits (String c s).

Inductive int_part : string -> Prop :=
| int_zero : int_part "0"
| int_one c : is_digit19 c = true -> int_part (String c "")
| int_more c s : is_digit19 c = true -> digits s -> int_part (String c s).

Inductive frac_part : string -> Prop :=
| frac_none : frac_part ""
| frac_some s : digits s -> frac_part ("." ++ s).

Inductive exp_part : string -> Prop :=
| exp_none : exp_part ""
| exp_some e sign s :
    e = "e" \/ e = "E" ->
    sign = "" \/ sign = "+" \/ sign = "-" ->
    digits s ->
    exp_part (e ++ sign ++ s).

Inductive number : string -> Prop :=
| number_intro minus i f e :
    minus = "" \/ minus = "-" ->
    int_part i -> frac_part f -> exp_part e ->
    number (minus ++ i ++ f ++ e).

(** The characters between the quotes of a string literal. *)
Inductive chars : string -> Prop :=
| chars_nil : chars ""
| chars_plain c s : is_plain c = true -> chars s -> chars (String c s)
| chars_escape c s :
    is_escape c = true -> chars s -> chars (String backslash (String c s))
| chars_unicode h1 h2 h3 h4 s :
    is_hex h1 = true -> is_hex h2 = true -> is_hex h3 = true -> is_hex h4 = true ->
    chars s ->
    chars (String backslash (String "u" (String h1 (String h2 (String h3 (String h4 s)))))).

Definition quoted (s : string) : string := String dquote (s ++ String dquote "").

Inductive sort : Type := Value | Elements | Members.

Inductive text : sort -> string -> Prop :=
| t_null : text Value "null"
| t_true : text Value "true"
| t_false : text Value "false"
| t_number s : number s -> text Value s
| t_string s : chars s -> text Value (quoted s)
| t_array_empty w : ws w -> text Value ("[" ++ w ++ "]")
| t_array s : text Elements s -> text Value ("[" ++ s ++ "]")
| t_object_empty w : ws w -> text Value ("{" ++ w ++ "}")
| t_object s : text Members s -> text Value ("{" ++ s ++ "}")
| t_element w1 v w2 :
    ws w1 -> text Value v -> ws w2 -> text Elements (w1 ++ v ++ w2)
| t_elements w1 v w2 rest :
    ws w1 -> text Value v -> ws w2 -> text Elements rest ->
    text Elements (w1 ++ v ++ w2 ++ "," ++ rest)
| t_member w1 k w2 w3 v w4 :
    ws w1 -> chars k -> ws w2 -> ws w3 -> text Value v -> ws w4 ->
    text Members (w1 ++ quoted k ++ w2 ++ ":" ++ w3 ++ v ++ w4)
| t_members w1 k w2 w3 v w4 rest :
    ws w1 -> chars k -> ws w2 -> ws w3 -> text Value v -> ws w4 ->
    text Members rest ->
    text Members (w1 ++ quoted k ++ w2 ++ ":" ++ w3 ++ v ++ w4 ++ "," ++ rest).

(** The text of a well-formed JSON array or object. *)
Definition root (V : string) : Prop :=
  text Value V /\
  (Extractor.first_char V = Some lbracket \/ Extractor.first_char V = Some lbrace).

(** The first character that is not white space. *)
Fixpoint first_non_ws (s : string) : option ascii :=
  match s with
  | EmptyString => None
  | String c rest => if is_ws c then first_non_ws rest else Some c
  end.

End Grammar.

(** ** The outcome of the checks of [continueRequest], in the words of the
       specification *)

Module Descriptor.

Inductive verdict : Type :=
| Accepted
| RejectedInvalid      (* InvalidDescriptor *)
| RejectedBudget.      (* BudgetMismatch *)

(** The verdict an outcome of the code stands for; [None] for an error
    that is not one of the two validation errors. *)
Definition verdict_of {A : Type} (r : result A) : option verdict :=
  match r with
  | Ok _ => Some Accepted
  | Err (InvalidDescriptor _) => Some RejectedInvalid
  | Err BudgetMismatch => Some RejectedBudget
  | Err _ => None
  end.

(** Absent: [undefined], [null], or empty. *)
Definition absent (x : value) : bool :=
  match x with
  | VUndef | VNull => true
  | VStr EmptyString => true
  | _ => false
  end.

Definition a_string (x : value) : bool :=
  match x with VStr _ => true | _ => false end.

(** An object in the sense of the language: a plain object or an array. *)
Definition an_object (x : value) : bool :=
  match x with VObj _ | VArr _ _ => true | _ => false end.

(** The four parts of a 4-element array. *)
Definition four_parts (args : value) : option (value * value * value * value) :=
  match args with
  | VArr [credential; token; context; options] _ => Some (credential, token, context, options)
  | _ => None
  end.

Section WithBuiltins.
Context {B : Builtins}.

(** The item budget of an options object is finite: its [limit] is a
    finite number, or a value other than [null] that converts to one. *)
Definition finite_budget (options : value) : bool :=
  match Js.get options "limit" with
  | Ok (VNum (Fin _)) => true
  | Ok (VNum _) | Ok VUndef | Ok VNull => false
  | Ok other => Num.is_finite (ToNumber other)
  | Err _ => false
  end.

Definition expected (args : value) : verdict :=
  match four_parts args with
  | None => RejectedInvalid
  | Some (credential, token, context, options) =>
      if absent credential || negb (a_string credential)
         || absent token || negb (a_string token)
         || absent context || negb (an_object context)
         || absent options || negb (an_object options)
      then RejectedInvalid
      else if finite_budget options then RejectedBudget
      else Accepted
  end.

End WithBuiltins.
End Descriptor.

(** ** Vocabulary of the statements about decoded documents *)

Module Doc.

(** A path of property reads that gives [undefined] where the document
    has nothing. *)
Fixpoint at_path (x : value) (keys : list string) : value :=
  match keys with
  | [] => x
  | k :: rest =>
      match Js.get x k with
      | Ok v => at_path v rest
      | Err _ => VUndef
      end
  end.

(** The same path as the code reads it, one property after the other. *)
Fixpoint read_path (x : value) (keys : list string) : result value :=
  match keys with
  | [] => Ok x
  | k :: rest => v <- Js.get x k ;; read_path v rest
  end.

Definition nullish (x : value) : bool :=
  match x with VUndef | VNull => true | _ => false end.

(** The results container of a document, sectioned or grid. *)
Definition container (doc : value) : value :=
  let primaryContents :=
    at_path doc ["contents"; "twoColumnSearchResultsRenderer"; "primaryContents"] in
  Js.or_else (at_path primaryContents ["sectionListRenderer"])
             (at_path primaryContents ["richGridRenderer"]).

(** The filter groups of the inline submenu, under either spelling. *)
Definition submenu_groups (doc : value) : value :=
  Js.or_else (at_path (container doc) ["subMenu"; "searchSubMenuRenderer"; "groups"])
             (at_path (container doc) ["submenu"; "searchSubMenuRenderer"; "groups"]).

Definition popup_path : list string :=
  ["header"; "searchHeaderRenderer"; "searchFilterButton"; "buttonRenderer";
   "command"; "openPopupAction"; "popup"; "searchFilterOptionsDialogRenderer"].

(** The filter groups of the search-header popup. *)
Definition popup_groups (doc : value) : value :=
  at_path doc (popup_path ++ ["groups"])%list.

(** Neither position yields filter groups. *)
Definition no_groups (doc : value) : Prop :=
  Js.truthy (submenu_groups doc) = false /\ Js.truthy (popup_groups doc) = false.

(** The command envelope of a continuation response is well-formed: its
    first command appends an array of continuation items. *)
Definition envelope_ok (response : value) : bool :=
  Js.isArray (at_path response ["onResponseReceivedCommands"])
  && match at_path response ["onResponseReceivedCommands"] with
     | VArr (first :: _) _ =>
         Js.isArray (at_path first ["appendContinuationItemsAction"; "continuationItems"])
     | _ => false
     end.

(** An entry of a grid is a continuation marker. *)
Definition is_marker (entry : value) : bool :=
  match entry with
  | VObj props =>
      match Js.lookup "continuationItemRenderer" props with
      | Some _ => true
      | None => false
      end
  | _ => false
  end.

(** An entry of a grid is directly an item: an object that is not a marker
    and holds a rich item or a rich section. *)
Definition is_item (entry : value) : bool :=
  match entry with
  | VObj props =>
      negb (is_marker entry)
      && (Js.truthy (Js.lookup_or_undef "richItemRenderer" props)
          || Js.truthy (Js.lookup_or_undef "richSectionRenderer" props))
  | _ => false
  end.

(** Every entry is directly an item or a continuation marker. *)
Definition grid_entries (entries : list value) : Prop :=
  Forall (fun entry => is_marker entry = true \/ is_item entry = true) entries.

(** A grid-shaped first-page container and its entries. *)
Definition is_grid (primaryContents : value) (entries : list value) : Prop :=
  (exists sectionList,
      Js.get primaryContents "sectionListRenderer" = Ok sectionList
      /\ Js.truthy sectionList = false)
  /\ (exists richGrid props,
        Js.get primaryContents "richGridRenderer" = Ok richGrid
        /\ Js.truthy richGrid = true
        /\ Js.get richGrid "contents" = Ok (VArr entries props))
  /\ grid_entries entries.

Definition markers (entries : list value) : nat :=
  List.length (List.filter is_marker entries).

End Doc.

(** ** A runtime for the examples *)

(** Built-ins that parse by the given function, convert every string and
    object to [NaN] and to the empty string, resolve every URL to its base,
    and map every raw item to itself. *)
Definition example_builtins (parse : string -> result value) : Builtins :=
  {| JSON_parse := parse;
     StringToNumber := fun _ => NaN;
     ObjectToNumber := fun _ => NaN;
     ToString := fun _ => "";
     URL_resolve := fun _ base => Ok base;
     URL_parse := fun _ _ => Ok {| pathname := "/"; searchParams := [] |};
     parseItem := fun item _ => Ok item |}.

(** ** Vocabulary of the statement about an empty filter catalog *)

Module Fallback.

(** [x.k1 || x.k2] as the code reads it. *)
Definition read_or (x : value) (k1 k2 : string) : result value :=
  a <- Js.get x k1 ;;
  if Js.truthy a then Ok a else Js.get x k2.

(** No groups in a value read at a groups position that is not an error
    for [forEach]: an empty array. *)
Definition empty_array (g : value) : Prop := exists props, g = VArr [] props.

(** Both reads of [parseFilters] go through and end without a group: the
    submenu holds an empty array of groups, or it holds none and the popup,
    present down to its dialog, holds no groups or an empty array. *)
Definition in_place (doc : value) : Prop :=
  exists primaryContents wrapper menu groups,
    Doc.read_path doc ["contents"; "twoColumnSearchResultsRenderer"; "primaryContents"]
      = Ok primaryContents
    /\ read_or primaryContents "sectionListRenderer" "richGridRenderer" = Ok wrapper
    /\ read_or wrapper "subMenu" "submenu" = Ok menu
    /\ Doc.read_path menu ["searchSubMenuRenderer"; "groups"] = Ok groups
    /\ (empty_array groups
        \/ (groups = VUndef
            /\ exists popupGroups,
                 Doc.read_path doc (Doc.popup_path ++ ["groups"])%list = Ok popupGroups
                 /\ (Js.truthy popupGroups = false \/ empty_array popupGroups))).

End Fallback.

(** ** Vocabulary of the statements about the pagination engine *)

Module Engine.

(** A value that holds the properties assigned to it. *)
Definition settable (x : value) : bool :=
  match x with VObj _ | VArr _ _ => true | _ => false end.

(** An options object whose item budget is the finite number [k]. *)
Definition finite_limit (options : value) (k : Z) : Prop :=
  settable options = true /\ Js.get options "limit" = Ok (VNum (Fin k)).

Section WithBuiltins.
Context {B : Builtins}.

(** [commands[0].appendContinuationItemsAction.continuationItems], adapted. *)
Definition wrapperOf (commands : value) : result Utils.Wrapper :=
  first <- Js.at_index commands 0 ;;
  action <- Js.get first "appendContinuationItemsAction" ;;
  continuationItems <- Js.get action "continuationItems" ;;
  Utils.parsePage2Wrapper continuationItems.

(** What a mapper makes of the raw items of a page, before the budget
    cuts it: the items that can be represented, in the order of the page. *)
Definition offerOf (mapper : value -> result value) (rawItems : value)
    : result (list value) :=
  raw <- Js.as_array rawItems ;;
  mapped <- Js.map mapper raw ;;
  Ok (List.filter Js.truthy mapped).

(** The items that the response text of a continuation page offers. *)
Definition pageOffer (text : string) : result (list value) :=
  response <- JSON_parse text ;;
  commands <- Js.get response "onResponseReceivedCommands" ;;
  if negb (Js.isArray commands) then Ok []
  else
    wrapper <- wrapperOf commands ;;
    offerOf (fun item => parseItem item VUndef) (Utils.rawItems wrapper).

(** The items that the body of a first page offers, decoded with the
    normalized options [opts]. *)
Definition firstOffer (opts : value) (body : string) : result (list value) :=
  parsedResponse <- Utils.parseBody body opts ;;
  let json := Utils.json parsedResponse in
  search <- Js.get opts "search" ;;
  estimated <- Js.get json "estimatedResults" ;;
  contents <- Js.get json "contents" ;;
  twoColumn <- Js.get contents "twoColumnSearchResultsRenderer" ;;
  primaryContents <- Js.get twoColumn "primaryContents" ;;
  wrapper <- Utils.parseWrapper primaryContents ;;
  offerOf (fun item => parseItem item (Main.resultObject search (Main.number_or_zero estimated)))
          (Utils.rawItems wrapper).

(** [kept] is what a budget keeps of the page that [text] is: the first
    items of its offer. *)
Definition kept_of_page (kept : list value) (text : string) : Prop :=
  exists offer n, pageOffer text = Ok offer /\ kept = firstn n offer.

(** What a successful [fetchNextPage] body has done. *)
Inductive page_run (again : value -> M Page.t) (apiKey context : value)
    (o1 : value) (response : value) (p : Page.t) (o' : value) : Prop :=
| run_end commands :
    Js.get response "onResponseReceivedCommands" = Ok commands ->
    Js.isArray commands = false ->
    p = {| Page.continuation := VNull; Page.items := [] |} ->
    o' = o1 ->
    page_run again apiKey context o1 response p o'
| run_page commands wrapper limit kept o2 nextToken stop :
    Js.get response "onResponseReceivedCommands" = Ok commands ->
    Js.isArray commands = true ->
    wrapperOf commands = Ok wrapper ->
    Js.get o1 "limit" = Ok limit ->
    Main.keepItems (fun item => parseItem item VUndef) (Utils.rawItems wrapper) limit = Ok kept ->
    Main.spend (List.length kept) o1 = (Ok tt, o2) ->
    Main.tokenOf (Utils.continuation wrapper) = Ok nextToken ->
    Main.finished nextToken o2 = (Ok stop, o2) ->
    (if stop then
       exists emit,
         Main.resumable nextToken o2 = (Ok emit, o2)
         /\ p = {| Page.continuation :=
                     if emit then arr [apiKey; nextToken; context; o2] else VNull;
                   Page.items := kept |}
         /\ o' = o2
     else
       exists next,
         again nextToken o2 = (Ok next, o')
         /\ p = {| Page.continuation := Page.continuation next;
                   Page.items := (kept ++ Page.items next)%list |}) ->
    page_run again apiKey context o1 response p o'.

(** What a successful [fetchSearchResults] has done from the decoded first
    response on. *)
Inductive first_run (again : value -> value -> value -> M Page.t)
    (parsedResponse : Utils.ParsedBody) (o : value) (r : Main.SearchResult) (o' : value)
    : Prop :=
| run_first search estimatedResults contents twoColumn primaryContents wrapper
            limit kept o2 token emit stop :
    Js.get o "search" = Ok search ->
    Js.get (Utils.json parsedResponse) "estimatedResults" = Ok estimatedResults ->
    Js.get (Utils.json parsedResponse) "contents" = Ok contents ->
    Js.get contents "twoColumnSearchResultsRenderer" = Ok twoColumn ->
    Js.get twoColumn "primaryContents" = Ok primaryContents ->
    Utils.parseWrapper primaryContents = Ok wrapper ->
    Js.get o "limit" = Ok limit ->
    Main.keepItems
      (fun item => parseItem item (Main.resultObject search (Main.number_or_zero estimatedResults)))
      (Utils.rawItems wrapper) limit = Ok kept ->
    Main.spend (List.length kept) o = (Ok tt, o2) ->
    Main.tokenOf (Utils.continuation wrapper) = Ok token ->
    Main.resumable token o2 = (Ok emit, o2) ->
    Main.finished token o2 = (Ok stop, o2) ->
    (if stop then
       Main.items r = kept
       /\ Main.continuation r
          = (if emit
             then arr [VStr (Utils.apiKey parsedResponse); token;
                       Utils.context parsedResponse; o2]
             else VNull)
       /\ o' = o2
     else
       exists next,
         again (VStr (Utils.apiKey parsedResponse)) token (Utils.context parsedResponse) o2
         = (Ok next, o')
         /\ Main.items r = (kept ++ Page.items next)%list
         /\ Main.continuation r = Page.continuation next) ->
    first_run again parsedResponse o r o'.

(** [items] are the kept items of the pages that the texts of [world] are,
    page after page: the texts are taken from the head of [world], each
    gives the first items of its offer, and these lists follow one another
    in [items] in the order of the pages. *)
Definition in_page_order (world : list string) (items : list value) : Prop :=
  exists kepts,
    items = List.concat kepts
    /\ Forall2 kept_of_page kepts (firstn (List.length kepts) world).

End WithBuiltins.
End Engine.

(** ** Documents for the examples *)

Module Sample.

Definition item (content : string) : value :=
  VObj [("richItemRenderer", VObj [("content", VStr content)])].

Definition marker (token : string) : value :=
  VObj [("continuationItemRenderer",
         VObj [("continuationEndpoint",
                VObj [("continuationCommand", VObj [("token", VStr token)])])])].

(** A first page: a grid with the given entries and a submenu without
    filter groups. *)
Definition firstDocument (entries : list value) : value :=
  VObj [("contents",
         VObj [("twoColumnSearchResultsRenderer",
                VObj [("primaryContents",
                       VObj [("richGridRenderer",
                              VObj [("contents", arr entries);
                                    ("subMenu",
                                     VObj [("searchSubMenuRenderer",
                                            VObj [("groups", arr [])])])])])])])].

(** The response to a continuation request with the given entries. *)
Definition nextResponse (entries : list value) : value :=
  VObj [("onResponseReceivedCommands",
         arr [VObj [("appendContinuationItemsAction",
                     VObj [("continuationItems", arr entries)])]])].

(** The body of a first response; the cut after the anchor is [{}]. *)
Definition body : string := "<script>var ytInitialData = {};</script>".

(** A parser for three texts: the cut of [body] is a first page of two
    items and a token, ["2"] a second page of two items and a token, and
    ["3"] a last page of one item. *)
Definition parse (text : string) : result value :=
  if String.eqb text "{}" then Ok (firstDocument [item "a"; item "b"; marker "t1"])
  else if String.eqb text "2" then Ok (nextResponse [item "c"; item "d"; marker "t2"])
  else if String.eqb text "3" then Ok (nextResponse [item "e"])
  else Err SyntaxError.

Definition builtins : Builtins := example_builtins parse.

(** A document whose submenu has one group, [Type], with the active
    filter [Video] and the filter [Channel] that leads elsewhere. *)
Definition filterDocument : value :=
  let video := VObj [("searchFilterRenderer",
                      VObj [("label", VObj [("simpleText", VStr "Video")])])] in
  let channel :=
    VObj [("searchFilterRenderer",
           VObj [("label", VObj [("simpleText", VStr "Channel")]);
                 ("navigationEndpoint",
                  VObj [("commandMetadata",
                         VObj [("webCommandMetadata",
                                VObj [("url", VStr "/results?sp=x")])])])])] in
  let group :=
    VObj [("searchFilterGroupRenderer",
           VObj [("title", VObj [("simpleText", VStr "Type")]);
                 ("filters", arr [video; channel])])] in
  VObj [("contents",
         VObj [("twoColumnSearchResultsRenderer",
                VObj [("primaryContents",
                       VObj [("sectionListRenderer",
                              VObj [("subMenu",
                                     VObj [("searchSubMenuRenderer",
                                            VObj [("groups", arr [group])])])])])])])].

(** A first page of eight items and no continuation marker. *)
Definition eightItems : value :=
  firstDocument (List.map item ["1"; "2"; "3"; "4"; "5"; "6"; "7"; "8"]).

End Sample.

(** ** Vocabulary of the statements about the scan *)

Module Passing.

(** The two bracket pairs the scan can be started with. *)
Definition bracket_pair (open close : ascii) : Prop :=
  (open = lbracket /\ close = rbracket) \/ (open = lbrace /\ close = rbrace).

(** A character the scan passes over outside a string literal. *)
Definition inert (c : ascii) : bool :=
  negb (Ascii.eqb c dquote) && negb (Ascii.eqb c backslash)
  && negb (Ascii.eqb c lbracket) && negb (Ascii.eqb c rbracket)
  && negb (Ascii.eqb c lbrace) && negb (Ascii.eqb c rbrace).

Fixpoint all_inert (s : string) : bool :=
  match s with
  | EmptyString => true
  | String c rest => inert c && all_inert rest
  end.

(** A text the scan passes over outside a string literal: the counter, at
    least one before it, is the same after it, and the scan has not returned. *)
Definition passes (open close : ascii) (t : string) : Prop :=
  forall i n k, (1 <= n)%Z ->
    Extractor.scanLoop open close (t ++ k) i false false n
    = Extractor.scanLoop open close k (i + String.length t) false false n.

End Passing.

(** The shape the context keeps while [parseBody] fills it in. *)
Definition context_shape (c : value) : Prop :=
  exists client user request,
    c = VObj [("client", VObj client); ("user", VObj user); ("request", request)].

(** ** Vocabulary of the further properties *)

Module More.

(** The marker a later batch leaves in the continuation slot: its own if
    it has one, the earlier one otherwise. *)
Definition later_marker (earlier later : value) : value :=
  match later with
  | VNull => earlier
  | other => other
  end.


(** A filter of a catalog is well-formed: it is active and without a url,
    or inactive with the string of its resolved url. *)
Definition filter_ok (f : Utils.Filter) : Prop :=
  (Utils.active f = true /\ Utils.url f = VNull)
  \/ (Utils.active f = false /\ exists target, Utils.url f = VStr target).

(** A group of a catalog is well-formed: every filter is filed under its
    own name and is well-formed, and the active entry of the group, if any,
    is an active filter. *)
Definition group_ok (g : Utils.FilterGroup) : Prop :=
  (forall f, Utils.group_active g = Some f -> Utils.active f = true /\ Utils.url f = VNull)
  /\ (forall k f, In (k, f) (Utils.group_entries g) -> k = Utils.name f /\ filter_ok f).

(** A run of a text: an object holding a piece of it. *)
Definition run (piece : string) : value := VObj [("text", VStr piece)].

(** A section of a sectioned page that is not the item section: an object
    whose first key is another one. *)
Definition other_section (key : string) (x : value) : Prop :=
  match x with
  | VObj [] => True
  | VObj ((k, _) :: _) => k <> key
  | _ => False
  end.

(** The locale keys of the execution context and their defaults. *)
Definition locale_defaults : list (string * value) :=
  [("gl", VStr "US"); ("hl", VStr "en"); ("utcOffsetMinutes", VNum (Fin 0))].

(** A first page of one item whose submenu has the group [Type] of
    [Sample.filterDocument]: the active filter [Video] and the filter
    [Channel]. *)
Definition filtered_page : value :=
  let video := VObj [("searchFilterRenderer",
                      VObj [("label", VObj [("simpleText", VStr "Video")])])] in
  let channel :=
    VObj [("searchFilterRenderer",
           VObj [("label", VObj [("simpleText", VStr "Channel")]);
                 ("navigationEndpoint",
                  VObj [("commandMetadata",
                         VObj [("webCommandMetadata",
                                VObj [("url", VStr "/results?sp=x")])])])])] in
  let group :=
    VObj [("searchFilterGroupRenderer",
           VObj [("title", VObj [("simpleText", VStr "Type")]);
                 ("filters", arr [video; channel])])] in
  VObj [("contents",
         VObj [("twoColumnSearchResultsRenderer",
                VObj [("primaryContents",
                       VObj [("richGridRenderer",
                              VObj [("contents", arr [Sample.item "a"]);
                                    ("subMenu",
                                     VObj [("searchSubMenuRenderer",
                                            VObj [("groups", arr [group])])])])])])])].


(** Two options objects that differ in their page budget only: [o] has an
    unbounded item budget and [k] pages, and [oMore] is [o] with one page
    more. *)
Definition one_more_page (k : Z) (o oMore : value) : Prop :=
  exists props,
    o = VObj props
    /\ Js.lookup "pages" props = Some (VNum (Fin k))
    /\ Js.lookup "limit" props = Some (VNum PInf)
    /\ oMore = VObj (Js.update "pages" (VNum (Fin (k + 1))) props).

Section WithBuiltins.
Context {B : Builtins}.

(** A response body in which [parseBody] finds no document. *)
Definition no_document (body : string) : Prop :=
  Js.truthy (match Utils.jsonAfter body "var ytInitialData = " with
             | Ok found => found
             | Err _ => VNull
             end) = false.

(** A continuation array that [continueRequest] can take up: the
    credential and the context of the fetch, a token, and the options object
    as the fetch has left it, with an unbounded item budget and no page left. *)
Definition descriptor_of (apiKey context options : value) (d : value) : Prop :=
  exists token pages,
    d = arr [apiKey; token; context; options]
    /\ Js.truthy token = true
    /\ Js.get options "limit" = Ok (VNum PInf)
    /\ Js.get options "pages" = Ok pages
    /\ Num.lt (ToNumber pages) (Fin 1) = true.

End WithBuiltins.
End More.

(** * Theorems *)

(** ** Strings *)

Lemma app_assoc_str (a b c : string) : ((a ++ b) ++ c = a ++ (b ++ c))%string.
Proof. induction a as [|x a IH]; cbn; [reflexivity | now rewrite IH]. Qed.

Lemma app_length_str (a b : string) :
  String.length (a ++ b) = String.length a + String.length b.
Proof. induction a as [|x a IH]; cbn; [reflexivity | now rewrite IH]. Qed.

Lemma app_empty_r (a : string) : (a ++ "")%string = a.
Proof. induction a as [|x a IH]; cbn; [reflexivity | now rewrite IH]. Qed.

Lemma substring_prefix (a b : string) : substring 0 (String.length a) (a ++ b) = a.
Proof.
  induction a as [|x a IH]; cbn.
  - now destruct b.
  - now rewrite IH.
Qed.

Lemma slice_from_app (a b : string) : slice_from (String.length a) (a ++ b) = b.
Proof. induction a as [|x a IH]; cbn; [reflexivity | exact IH]. Qed.

(** ** The scan of [cutAfterJSON] over well-formed JSON *)

Section Scan.
Import Extractor Grammar Passing.

Lemma all_inert_app a b : all_inert (a ++ b) = all_inert a && all_inert b.
Proof. induction a as [|x a IH]; cbn; [reflexivity | now rewrite IH, andb_assoc]. Qed.

Lemma inert_spec c :
  inert c = true ->
  Ascii.eqb c dquote = false /\ Ascii.eqb c backslash = false /\
  forall open close, bracket_pair open close ->
    Ascii.eqb c open = false /\ Ascii.eqb c close = false.
Proof.
  unfold inert. intros H.
  repeat match type of H with (_ && _) = true => apply andb_true_iff in H as [H ?] end.
  repeat match goal with H : negb _ = true |- _ => apply negb_true_iff in H end.
  repeat split; try assumption;
    match goal with Hp : bracket_pair _ _ |- _ => destruct Hp as [[-> ->]|[-> ->]] end;
    assumption.
Qed.

Lemma scan_inert open close t :
  bracket_pair open close -> all_inert t = true ->
  forall i n k, n <> 0%Z ->
    scanLoop open close (t ++ k) i false false n
    = scanLoop open close k (i + String.length t) false false n.
Proof.
  intros Hp. induction t as [|c t IH]; intros Ht i n k Hn; cbn.
  - now rewrite Nat.add_0_r.
  - cbn in Ht. apply andb_true_iff in Ht as [Hc Ht].
    destruct (inert_spec c Hc) as (Hq & Hb & Hoc).
    destruct (Hoc open close Hp) as [Ho Hcl].
    rewrite Hq, Hb, Ho, Hcl. cbn.
    destruct (Z.eqb_spec n 0) as [|_]; [contradiction|].
    rewrite IH by assumption. f_equal. lia.
Qed.

Lemma range_neq lo hi c d :
  in_range lo hi c = true ->
  (N_of_ascii d < lo \/ hi < N_of_ascii d)%N ->
  Ascii.eqb c d = false.
Proof.
  unfold in_range. intros H Hd. apply andb_true_iff in H as [H1 H2].
  apply N.leb_le in H1, H2. apply Ascii.eqb_neq. intros ->. lia.
Qed.

Lemma digit_inert c : is_digit c = true -> inert c = true.
Proof.
  intros H. unfold inert, is_digit in *.
  rewrite !(range_neq 48 57 c) by (assumption || (cbn; lia)). reflexivity.
Qed.

Lemma digits_inert s : digits s -> all_inert s = true.
Proof.
  induction 1 as [c H|c s H _ IH]; cbn; rewrite (digit_inert c H); auto.
Qed.

Lemma digit19_inert c : is_digit19 c = true -> inert c = true.
Proof.
  intros H. apply digit_inert. unfold is_digit19, is_digit, in_range in *.
  apply andb_true_iff in H as [H1 H2]. apply N.leb_le in H1, H2.
  apply andb_true_iff; split; apply N.leb_le; lia.
Qed.

Lemma ws_char_inert c : is_ws c = true -> inert c = true.
Proof.
  unfold is_ws. intros H.
  repeat (apply orb_true_iff in H as [H|H]); apply Ascii.eqb_eq in H; subst; reflexivity.
Qed.

Lemma ws_inert s : ws s -> all_inert s = true.
Proof.
  induction 1 as [|c s H _ IH]; cbn; [reflexivity|].
  now rewrite (ws_char_inert c H).
Qed.

Lemma number_inert s : number s -> all_inert s = true.
Proof.
  intros [minus i f e Hm Hi Hf He].
  rewrite !all_inert_app.
  assert (all_inert minus = true) as -> by (destruct Hm as [->| ->]; reflexivity).
  assert (all_inert i = true) as ->.
  { destruct Hi as [|c H|c ds H Hds]; cbn; [reflexivity| |].
    - now rewrite (digit19_inert c H).
    - now rewrite (digit19_inert c H), (digits_inert ds Hds). }
  assert (all_inert f = true) as ->.
  { destruct Hf as [|ds Hds]; cbn; [reflexivity | exact (digits_inert ds Hds)]. }
  destruct He as [|e0 sign ds He Hsign Hds]; [reflexivity|].
  rewrite !all_inert_app, (digits_inert ds Hds).
  destruct He as [->| ->]; destruct Hsign as [->|[->| ->]]; reflexivity.
Qed.

(** Inside a string literal the scan passes over the characters and the
    escapes of the grammar, whatever the bracket pair and the counter. *)
Lemma scan_chars open close s :
  chars s ->
  forall i n k,
    scanLoop open close (s ++ k) i true false n
    = scanLoop open close k (i + String.length s) true false n.
Proof.
  induction 1 as [|c s Hc _ IH|c s Hc _ IH|h1 h2 h3 h4 s H1 H2 H3 H4 _ IH]; intros i n k.
  - cbn. now rewrite Nat.add_0_r.
  - unfold is_plain in Hc.
    apply andb_true_iff in Hc as [Hc _]. apply andb_true_iff in Hc as [Hq Hb].
    apply negb_true_iff in Hq, Hb.
    cbn. rewrite Hq, Hb. cbn. rewrite IH. f_equal. lia.
  - cbn. rewrite andb_false_r. cbn. rewrite andb_false_r.
    rewrite IH. f_equal. lia.
  - assert (Hh : forall h, is_hex h = true ->
               Ascii.eqb h dquote = false /\ Ascii.eqb h backslash = false).
    { intros h Hh. unfold is_hex, is_digit in Hh.
      repeat (apply orb_true_iff in Hh as [Hh|Hh]);
        split; eapply range_neq; try eassumption; cbn; lia. }
    destruct (Hh _ H1) as [Q1 B1], (Hh _ H2) as [Q2 B2],
             (Hh _ H3) as [Q3 B3], (Hh _ H4) as [Q4 B4].
    cbn. rewrite Q1, Q2, Q3, Q4, B1, B2, B3, B4. cbn.
    rewrite IH. f_equal. lia.
Qed.

Lemma scan_quoted open close s :
  chars s ->
  forall i n k,
    scanLoop open close (quoted s ++ k) i false false n
    = scanLoop open close k (i + String.length (quoted s)) false false n.
Proof.
  intros Hs i n k. unfold quoted. cbn.
  rewrite app_assoc_str, scan_chars by assumption.
  cbn. f_equal. rewrite app_length_str. cbn. lia.
Qed.

Lemma passes_app open close a b :
  passes open close a -> passes open close b -> passes open close (a ++ b).
Proof.
  intros Ha Hb i n k Hn.
  rewrite app_assoc_str, Ha, Hb, app_length_str by assumption. f_equal. lia.
Qed.

Lemma passes_inert open close t :
  bracket_pair open close -> all_inert t = true -> passes open close t.
Proof. intros Hp Ht i n k Hn. apply scan_inert; [assumption..|lia]. Qed.

Lemma passes_quoted open close s : chars s -> passes open close (quoted s).
Proof. intros Hs i n k _. now apply scan_quoted. Qed.

(** A bracketed body: the brackets of the pair the scan counts raise and
    lower the counter around it, those of the other pair are passed over. *)
Lemma passes_bracketed open close l r body :
  bracket_pair open close -> bracket_pair l r ->
  passes open close body ->
  passes open close (String l (body ++ String r "")).
Proof.
  intros Hp Hlr Hbody i n k Hn.
  destruct Hp as [[-> ->]|[-> ->]], Hlr as [[-> ->]|[-> ->]]; cbn;
    repeat match goal with
           | |- context [(?x =? 0)%Z] => destruct (Z.eqb_spec x 0) as [|_]; [lia|]
           end;
    rewrite app_assoc_str, Hbody by lia; cbn;
    repeat match goal with
           | |- context [(?x =? 0)%Z] => destruct (Z.eqb_spec x 0) as [|_]; [lia|]
           end;
    rewrite app_length_str; cbn; f_equal; lia.
Qed.

Lemma scan_text open close :
  bracket_pair open close ->
  forall k t, text k t -> passes open close t.
Proof.
  intros Hp k t H.
  assert (Hws : forall w, ws w -> passes open close w)
    by (intros w Hw; apply passes_inert, ws_inert; assumption).
  assert (Hsep : forall c, inert c = true -> passes open close (String c ""))
    by (intros c Hc; apply passes_inert; [assumption | cbn; now rewrite Hc]).
  induction H;
    repeat match goal with
           | |- passes _ _ (String "[" (?b ++ "]")) =>
               apply (passes_bracketed open close lbracket rbracket b Hp);
               [left; split; reflexivity|]
           | |- passes _ _ (String "{" (?b ++ "}")) =>
               apply (passes_bracketed open close lbrace rbrace b Hp);
               [right; split; reflexivity|]
           | |- passes _ _ ("[" ++ ?b ++ "]") => change (passes open close (String "[" (b ++ "]")))
           | |- passes _ _ ("{" ++ ?b ++ "}") => change (passes open close (String "{" (b ++ "}")))
           | |- passes _ _ (quoted _) => apply passes_quoted; assumption
           | |- passes _ _ (_ ++ _) => apply passes_app
           | |- passes _ _ "," => apply Hsep; reflexivity
           | |- passes _ _ ":" => apply Hsep; reflexivity
           end;
    try (apply Hws; assumption); try assumption;
    try (apply passes_inert; [assumption | reflexivity]).
  apply passes_inert; [assumption | now apply number_inert].
Qed.

(** The scan from the opening bracket of a root: it returns at the closing
    bracket. *)
Lemma scan_root open close body rest :
  bracket_pair open close -> passes open close body ->
  scanLoop open close (String open (body ++ String close rest)) 0 false false 0
  = Found (S (String.length body)).
Proof.
  intros Hp Hbody.
  destruct Hp as [[-> ->]|[-> ->]]; cbn; rewrite Hbody by lia; cbn; reflexivity.
Qed.

(** The shape of a root: a bracket pair around a body the scan passes. *)
Lemma root_shape V :
  root V ->
  exists open close body,
    bracket_pair open close /\ V = String open (body ++ String close "")
    /\ passes open close body.
Proof.
  intros [HV Hfirst].
  assert (Hno : forall s, all_inert s = true ->
                  first_char s <> Some lbracket /\ first_char s <> Some lbrace).
  { intros [|c s]; cbn; [split; discriminate|].
    intros H. apply andb_true_iff in H as [H _].
    split; intros [= ->]; discriminate. }
  inversion HV; subst; cbn in Hfirst;
    try (destruct Hfirst as [Hf|Hf]; discriminate Hf).
  - destruct (Hno V (number_inert V H)) as [H1 H2].
    destruct Hfirst; contradiction.
  - exists lbracket, rbracket, w. split; [left; split; reflexivity|]. split; [reflexivity|].
    apply passes_inert; [left; split; reflexivity | now apply ws_inert].
  - exists lbracket, rbracket, s. split; [left; split; reflexivity|]. split; [reflexivity|].
    eapply scan_text; [left; split; reflexivity | eassumption].
  - exists lbrace, rbrace, w. split; [right; split; reflexivity|]. split; [reflexivity|].
    apply passes_inert; [right; split; reflexivity | now apply ws_inert].
  - exists lbrace, rbrace, s. split; [right; split; reflexivity|]. split; [reflexivity|].
    eapply scan_text; [right; split; reflexivity | eassumption].
Qed.

Lemma cutAfterJSON_root V rest : root V -> cutAfterJSON (V ++ rest) = Ok V.
Proof.
  intros HV. destruct (root_shape V HV) as (open & close & body & Hp & -> & Hbody).
  unfold cutAfterJSON.
  assert (Hroot : root_pair (String open (body ++ String close "") ++ rest) = Some (open, close))
    by (destruct Hp as [[-> ->]|[-> ->]]; reflexivity).
  rewrite Hroot.
  change (String open (body ++ String close "") ++ rest)
    with (String open ((body ++ String close "") ++ rest)).
  rewrite app_assoc_str. cbn [append].
  rewrite scan_root by assumption.
  f_equal.
  replace (String open (body ++ String close rest))
    with (String open (body ++ String close "") ++ rest)
    by (cbn; now rewrite app_assoc_str).
  replace (S (S (String.length body)))
    with (String.length (String open (body ++ String close "")))
    by (cbn; rewrite app_length_str; cbn; lia).
  apply substring_prefix.
Qed.

End Scan.

(** C1. For every well-formed JSON array or object text [V], embedded at
    any offset [pre] of a haystack and followed by any text [rest],
    [cutAfterJSON] on the haystack from the start of [V] returns exactly
    [V]; string literals with escaped quotes and backslashes and nested
    brackets of the same type are part of the grammar. [V] is the only
    prefix there that is a well-formed array or object, hence the shortest. *)
Theorem cutAfterJSON_recovers_span (V : string) (HV : Grammar.root V) :
  forall pre rest,
    Extractor.cutAfterJSON (slice_from (String.length pre) (pre ++ V ++ rest)) = Ok V
    /\ (forall P rest', Grammar.root P -> (P ++ rest' = V ++ rest)%string -> P = V).
Proof.
  intros pre rest. rewrite slice_from_app. split.
  - now apply cutAfterJSON_root.
  - intros P rest' HP Heq.
    pose proof (cutAfterJSON_root P rest' HP) as H1.
    rewrite Heq, (cutAfterJSON_root V rest HV) in H1. now injection H1.
Qed.

Lemma cutAfterJSON_recovers_span_witness :
  let inner := ("a\" ++ String dquote "]")%string in
  let V := ("[1," ++ Grammar.quoted inner ++ ",{" ++ Grammar.quoted "k" ++ ":[2]}]")%string in
  Grammar.root V /\
  Extractor.cutAfterJSON
    (slice_from (String.length "var ytInitialData = ")
                ("var ytInitialData = " ++ V ++ ";]}</script>")) = Ok V.
Proof.
  intros inner V.
  assert (Hnum : forall c, Grammar.is_digit19 c = true -> Grammar.text Grammar.Value (String c "")).
  { intros c Hc. apply Grammar.t_number.
    apply (Grammar.number_intro "" (String c "") "" "");
      [left; reflexivity | now apply Grammar.int_one | constructor | constructor]. }
  assert (Hinner : Grammar.chars inner).
  { apply Grammar.chars_plain; [reflexivity|].
    apply Grammar.chars_escape; [reflexivity|].
    apply Grammar.chars_plain; [reflexivity|]. constructor. }
  assert (Hk : Grammar.chars "k")
    by (apply Grammar.chars_plain; [reflexivity | constructor]).
  assert (Htwo : Grammar.text Grammar.Value "[2]").
  { apply (Grammar.t_array "2"). apply (Grammar.t_element "" "2" "");
      [constructor | apply Hnum; reflexivity | constructor]. }
  assert (Hobj : Grammar.text Grammar.Value ("{" ++ Grammar.quoted "k" ++ ":[2]}")).
  { apply (Grammar.t_object (Grammar.quoted "k" ++ ":[2]")).
    apply (Grammar.t_member "" "k" "" "" "[2]" "");
      [constructor | assumption | constructor | constructor | assumption | constructor]. }
  assert (HV : Grammar.root V).
  { split; [|left; reflexivity].
    apply (Grammar.t_array ("1," ++ Grammar.quoted inner ++ ",{" ++ Grammar.quoted "k" ++ ":[2]}")).
    apply (Grammar.t_elements "" "1" "" (Grammar.quoted inner ++ ",{" ++ Grammar.quoted "k" ++ ":[2]}"));
      [constructor | apply Hnum; reflexivity | constructor |].
    apply (Grammar.t_elements "" (Grammar.quoted inner) "" ("{" ++ Grammar.quoted "k" ++ ":[2]}"));
      [constructor | apply Grammar.t_string; assumption | constructor |].
    apply (Grammar.t_element "" ("{" ++ Grammar.quoted "k" ++ ":[2]}") "");
      [constructor | exact Hobj | constructor]. }
  split; [exact HV|].
  exact (proj1 (cutAfterJSON_recovers_span V HV "var ytInitialData = " ";]}</script>")).
Defined.

(** ** The two failures of [cutAfterJSON] *)

Lemma scan_exhausted_nonzero open close s :
  forall i isString isEscaped n c,
    n <> 0%Z ->
    Extractor.scanLoop open close s i isString isEscaped n = Extractor.Exhausted c ->
    c <> 0%Z.
Proof.
  induction s as [|x s IH]; intros i isString isEscaped n c Hn; cbn.
  - now intros [= <-].
  - destruct (Ascii.eqb x dquote && negb isEscaped); [now apply IH|].
    destruct isString; [now apply IH|].
    match goal with |- context [(?n' =? 0)%Z] => destruct (Z.eqb_spec n' 0) as [|Hn'] end;
      [discriminate | now apply IH].
Qed.

Lemma root_pair_first s open close :
  Extractor.root_pair s = Some (open, close) ->
  Extractor.first_char s = Some open /\ Passing.bracket_pair open close.
Proof.
  unfold Extractor.root_pair. destruct s as [|x s]; cbn; [discriminate|].
  destruct (Ascii.eqb_spec x lbracket) as [->|_].
  - intros [= <- <-]. split; [reflexivity | left; split; reflexivity].
  - destruct (Ascii.eqb_spec x lbrace) as [->|_]; [|discriminate].
    intros [= <- <-]. split; [reflexivity | right; split; reflexivity].
Qed.

Lemma root_scan_exhausted_nonzero s open close c :
  Extractor.root_pair s = Some (open, close) ->
  Extractor.scanLoop open close s 0 false false 0 = Extractor.Exhausted c ->
  c <> 0%Z.
Proof.
  intros Hroot. destruct (root_pair_first s open close Hroot) as [Hfirst Hp].
  destruct s as [|x s]; [discriminate|]. injection Hfirst as ->.
  destruct Hp as [[-> ->]|[-> ->]]; cbn; apply scan_exhausted_nonzero; lia.
Qed.

(** C2, as the code has it. [cutAfterJSON] fails with [UnsupportedRoot]
    exactly when the character at index 0 is neither [[] nor [{] (white
    space is not skipped, and the empty string has no such character); it
    fails with [UnterminatedStructure] exactly when the root is accepted and
    the scan exhausts the string, which it does only with a counter other
    than zero; and it fails in no other way. *)
Theorem cutAfterJSON_failures (s : string) :
  ((exists got, Extractor.cutAfterJSON s = Err (UnsupportedRoot got))
   <-> (Extractor.first_char s <> Some lbracket /\ Extractor.first_char s <> Some lbrace))
  /\ (Extractor.cutAfterJSON s = Err UnterminatedStructure
      <-> exists open close c,
            Extractor.root_pair s = Some (open, close)
            /\ Extractor.scanLoop open close s 0 false false 0 = Extractor.Exhausted c
            /\ c <> 0%Z)
  /\ (forall e, Extractor.cutAfterJSON s = Err e ->
        e = UnsupportedRoot (Extractor.first_char s) \/ e = UnterminatedStructure).
Proof.
  unfold Extractor.cutAfterJSON.
  destruct (Extractor.root_pair s) as [[open close]|] eqn:Hroot.
  - destruct (root_pair_first s open close Hroot) as [Hfirst Hp].
    split; [|split].
    + split.
      * intros [got H].
        destruct (Extractor.scanLoop open close s 0 false false 0); discriminate.
      * intros [H1 H2]. rewrite Hfirst in H1, H2.
        destruct Hp as [[-> _]|[-> _]]; contradiction.
    + split.
      * destruct (Extractor.scanLoop open close s 0 false false 0) as [i|c] eqn:Hscan;
          [discriminate|].
        intros _. exists open, close, c. repeat split.
        -- exact Hscan.
        -- eapply root_scan_exhausted_nonzero; eassumption.
      * intros (o & cl & c & [= <- <-] & -> & _). reflexivity.
    + intros e.
      destruct (Extractor.scanLoop open close s 0 false false 0); [discriminate|].
      intros [= <-]. now right.
  - assert (Hfirst : Extractor.first_char s <> Some lbracket
                     /\ Extractor.first_char s <> Some lbrace).
    { unfold Extractor.root_pair in Hroot.
      destruct (Extractor.first_char s) as [x|]; [|split; discriminate].
      destruct (Ascii.eqb_spec x lbracket); [discriminate|].
      destruct (Ascii.eqb_spec x lbrace); [discriminate|].
      split; congruence. }
    split; [|split].
    + split; [intros _; exact Hfirst | intros _; eexists; reflexivity].
    + split; [discriminate | intros (o & cl & c & H & _); discriminate].
    + intros e [= <-]. now left.
Qed.

(** C2, as the claim has it, fails: white space before the root is not
    skipped, so a text whose first character that is not white space is [[]
    is refused all the same. *)
Lemma cutAfterJSON_leading_space_refused :
  ~ (forall s,
       (exists got, Extractor.cutAfterJSON s = Err (UnsupportedRoot got))
       <-> (Grammar.first_non_ws s <> Some lbracket
            /\ Grammar.first_non_ws s <> Some lbrace)).
Proof.
  intros H. destruct (H " [1]") as [H1 _].
  destruct H1 as [Hb _]; [eexists; reflexivity|].
  now apply Hb.
Qed.

(** ** The checks of [continueRequest] *)

Section Resume.
Context {B : Builtins}.

(** The budget check, on the [limit] read from the options. *)
Lemma budget_check_finite (options : value) :
  Descriptor.an_object options = true ->
  exists limit,
    Js.get options "limit" = Ok limit
    /\ (negb (match limit with VNull => true | _ => false end)
        && negb (isNaN limit) && isFinite limit)
       = Descriptor.finite_budget options.
Proof.
  intros Hobj. unfold Descriptor.finite_budget.
  destruct (Js.get options "limit") as [limit|e] eqn:Hget.
  - exists limit. split; [reflexivity|].
    unfold isNaN, isFinite.
    destruct limit as [| | |[| | |z]| | |]; try reflexivity;
      cbn [negb andb]; destruct (ToNumber _); reflexivity.
  - destruct options; try discriminate; cbn in Hget;
      try destruct (String.eqb _ _); discriminate.
Qed.

(** C4. For every argument of [continueRequest]: when it is not a
    4-element array, or its credential or its token is absent or not a
    string, or its context or its options is absent or not an object, the
    call fails with [InvalidDescriptor] and nothing is fetched or written;
    when it is well-shaped and the item budget of its options is finite, the
    call fails with [BudgetMismatch]; otherwise the checks raise nothing and
    hand on the four parts as they are. *)
Theorem continueRequest_checks (world : list string) (args : value) :
  Descriptor.verdict_of (Main.checkContinuation args) = Some (Descriptor.expected args)
  /\ match Descriptor.expected args with
     | Descriptor.RejectedInvalid =>
         exists message,
           Main.continueRequest world args = (Err (InvalidDescriptor message), args)
     | Descriptor.RejectedBudget =>
         Main.continueRequest world args = (Err BudgetMismatch, args)
     | Descriptor.Accepted =>
         exists parts,
           Descriptor.four_parts args = Some parts
           /\ Main.checkContinuation args = Ok parts
     end.
Proof.
  assert (Hcheck :
    match Descriptor.expected args with
    | Descriptor.RejectedInvalid =>
        exists message, Main.checkContinuation args = Err (InvalidDescriptor message)
    | Descriptor.RejectedBudget => Main.checkContinuation args = Err BudgetMismatch
    | Descriptor.Accepted =>
        exists parts, Descriptor.four_parts args = Some parts
                      /\ Main.checkContinuation args = Ok parts
    end).
  { unfold Descriptor.expected, Main.checkContinuation, Descriptor.four_parts.
    destruct args as [| | | | |elems props|]; try (cbn; rewrite ?orb_true_r; cbn; eexists; reflexivity).
    destruct elems as [|a0 [|a1 [|a2 [|a3 [|a4 more]]]]]; try (cbn; rewrite ?orb_true_r; cbn; eexists; reflexivity).
    destruct a0 as [| | | |[|c0 s0]| |]; try (cbn; rewrite ?orb_true_r; cbn; eexists; reflexivity).
    destruct a1 as [| | | |[|c1 s1]| |]; try (cbn; rewrite ?orb_true_r; cbn; eexists; reflexivity).
    destruct a2 as [| | | | |e2 p2|p2]; try (cbn; rewrite ?orb_true_r; cbn; eexists; reflexivity);
      (destruct a3 as [| | | | |e3 p3|p3]; try (cbn; rewrite ?orb_true_r; cbn; eexists; reflexivity));
      match goal with
      | |- context [Descriptor.finite_budget ?o] =>
          destruct (budget_check_finite o eq_refl) as (limit & Hget & Hfinite);
          cbn [Descriptor.absent Descriptor.a_string Descriptor.an_object
               Js.truthy Js.is_string_type Js.is_object_type Js.typeof
               negb orb String.eqb Ascii.eqb Bool.eqb];
          rewrite Hget; cbn [bind]; rewrite Hfinite;
          destruct (Descriptor.finite_budget o);
          [reflexivity | eexists; split; reflexivity]
      end. }
  split.
  - destruct (Descriptor.expected args).
    + destruct Hcheck as (parts & _ & ->). reflexivity.
    + destruct Hcheck as (message & ->). reflexivity.
    + rewrite Hcheck. reflexivity.
  - destruct (Descriptor.expected args).
    + exact Hcheck.
    + destruct Hcheck as (message & H). exists message.
      unfold Main.continueRequest. now rewrite H.
    + unfold Main.continueRequest. now rewrite Hcheck.
Qed.

End Resume.

(** ** Inversion of the sequencing of fallible steps *)

Lemma bind_ok {A C : Type} (r : result A) (f : A -> result C) (c : C) :
  bind r f = Ok c -> exists a, r = Ok a /\ f a = Ok c.
Proof. destruct r as [a|e]; cbn; [eauto | discriminate]. Qed.

Ltac bind_inv H :=
  let a := fresh "v" in
  let E := fresh "E" in
  apply bind_ok in H; destruct H as (a & E & H).

(** ** The continuation fetch on a response without a command array *)

Section EndOfStream.
Context {B : Builtins}.

(** C5, as the code has it. When the response of a continuation fetch is
    not [null] and its [onResponseReceivedCommands] is not an array (it is
    missing or of another type), the fetch returns no items and no
    continuation, raises nothing, asks the transport for nothing more and
    leaves the options as the request left them. *)
Theorem fetchNextPage_without_commands
    (text : string) (rest : list string) (apiKey token context options : value)
    (response options1 commands : value)
    (Hpost : Main.post (Ok text) options = (Ok response, options1))
    (Hread : Js.get response "onResponseReceivedCommands" = Ok commands)
    (Hshape : Js.isArray commands = false) :
  Main.fetchNextPage (text :: rest) apiKey token context options
  = (Ok {| Page.continuation := VNull; Page.items := [] |}, options1).
Proof.
  cbn [Main.fetchNextPage]. unfold Main.nextPage, mbind at 1.
  rewrite Hpost. unfold mbind at 1, lift at 1. rewrite Hread, Hshape. reflexivity.
Qed.

End EndOfStream.

Lemma fetchNextPage_without_commands_witness :
  let B := example_builtins (fun _ => Ok (VObj [("responseContext", VObj [])])) in
  Main.fetchNextPage ["{}"; "{}"] (VStr "key") (VStr "token") (VObj [])
                     (VObj [("limit", VNum PInf); ("pages", VNum (Fin 1))])
  = (Ok {| Page.continuation := VNull; Page.items := [] |},
     VObj [("limit", VNum PInf); ("pages", VNum (Fin 1))]).
Proof.
  intros B.
  exact (fetchNextPage_without_commands
           "{}" ["{}"] (VStr "key") (VStr "token") (VObj [])
           (VObj [("limit", VNum PInf); ("pages", VNum (Fin 1))])
           (VObj [("responseContext", VObj [])])
           (VObj [("limit", VNum PInf); ("pages", VNum (Fin 1))])
           VUndef eq_refl eq_refl eq_refl).
Defined.

(** C5, as the claim has it, fails: a response whose command envelope is an
    array that lacks the append-continuation-items structure raises a
    [TypeError]. *)
Lemma fetchNextPage_broken_envelope_raises :
  ~ (forall (B : Builtins) text rest apiKey token context options response options1,
       Main.post (Ok text) options = (Ok response, options1) ->
       Doc.envelope_ok response = false ->
       fst (Main.fetchNextPage (text :: rest) apiKey token context options)
       = Ok {| Page.continuation := VNull; Page.items := [] |}).
Proof.
  intros H.
  pose (response := VObj [("onResponseReceivedCommands", arr [VObj []])]).
  specialize (H (example_builtins (fun _ => Ok response)) "{}" []
                (VStr "key") (VStr "token") (VObj []) (VObj []) response (VObj [])
                eq_refl eq_refl).
  cbn in H. discriminate H.
Qed.

(** ** The filter catalog extractor *)

Section Filters.
Context {B : Builtins}.

Lemma map_set_nonempty {V : Type} (k : value) (v : V) (m : list (value * V)) :
  Utils.map_set k v m <> [].
Proof.
  destruct m as [|[k' v'] m]; cbn; [discriminate|].
  destruct (Utils.same_key k k'); discriminate.
Qed.

Lemma parseFilterGroup_nonempty (acc : Utils.Catalog) (g : value) (c : Utils.Catalog) :
  Utils.parseFilterGroup acc g = Ok c -> c <> [].
Proof.
  unfold Utils.parseFilterGroup. intros H.
  repeat bind_inv H.
  injection H as <-. apply map_set_nonempty.
Qed.

Lemma for_each_groups_nonempty (l : list value) :
  forall acc c,
    Utils.for_each Utils.parseFilterGroup l acc = Ok c ->
    (l <> [] \/ acc <> []) -> c <> [].
Proof.
  induction l as [|g l IH]; intros acc c H Hne; cbn in H.
  - injection H as <-. destruct Hne as [Hne|Hne]; [contradiction | exact Hne].
  - bind_inv H. eapply IH; [exact H|]. right.
    eapply parseFilterGroup_nonempty; eassumption.
Qed.

(** The catalog that [parseFilters] builds from the groups it has read. *)
Lemma catalog_empty_iff (filterWrapper : value) :
  (groupList <- Js.as_array filterWrapper ;;
   Utils.for_each Utils.parseFilterGroup groupList []) = Ok []
  <-> Fallback.empty_array filterWrapper.
Proof.
  split.
  - intros H. bind_inv H.
    destruct filterWrapper; try discriminate E. injection E as ->.
    destruct v as [|g l]; [eexists; reflexivity|].
    exfalso. eapply for_each_groups_nonempty; [exact H | left; discriminate | reflexivity].
  - intros [props ->]. reflexivity.
Qed.

(** The reads of [parseFilters], gathered. *)
Lemma parseFilters_reads (doc : value) :
  Utils.parseFilters doc =
  (primaryContents <-
     Doc.read_path doc ["contents"; "twoColumnSearchResultsRenderer"; "primaryContents"] ;;
   wrapper <- Fallback.read_or primaryContents "sectionListRenderer" "richGridRenderer" ;;
   menu <- Fallback.read_or wrapper "subMenu" "submenu" ;;
   groups <- Doc.read_path menu ["searchSubMenuRenderer"; "groups"] ;;
   filterWrapper <-
     match groups with
     | VUndef =>
         popupGroups <- Doc.read_path doc (Doc.popup_path ++ ["groups"])%list ;;
         Ok (Js.or_else popupGroups (arr []))
     | found => Ok found
     end ;;
   groupList <- Js.as_array filterWrapper ;;
   Utils.for_each Utils.parseFilterGroup groupList []).
Proof.
  unfold Utils.parseFilters, Fallback.read_or, Doc.popup_path. cbn [Doc.read_path app].
  repeat
    (match goal with
     | |- ?lhs = _ =>
         let rec go t :=
           lazymatch t with
           | bind ?r _ => go r
           | Js.get ?x ?k => destruct (Js.get x k); cbn [bind]; [|reflexivity]
           | (if Js.truthy ?x then _ else _) => destruct (Js.truthy x); cbn [bind]
           | match ?g with VUndef => _ | _ => _ end => destruct g; cbn [bind]
           end in
         go lhs
     end);
    reflexivity.
Qed.

(** C6, as the code has it. [parseFilters] returns an empty catalog
    exactly when every read on its way goes through and ends without a
    group: the results container (sectioned or grid) has a submenu, under
    either spelling, with a [searchSubMenuRenderer], and either its groups
    are an empty array, or it has none and the search-header popup is
    present down to its filter dialog, with no groups there or an empty
    array. *)
Theorem parseFilters_empty_iff (doc : value) :
  Utils.parseFilters doc = Ok [] <-> Fallback.in_place doc.
Proof.
  rewrite parseFilters_reads. unfold Fallback.in_place. split.
  - intros H.
    apply bind_ok in H as (primaryContents & E1 & H).
    apply bind_ok in H as (wrapper & E2 & H).
    apply bind_ok in H as (menu & E3 & H).
    apply bind_ok in H as (groups & E4 & H).
    apply bind_ok in H as (filterWrapper & E5 & H).
    apply catalog_empty_iff in H.
    exists primaryContents, wrapper, menu, groups. repeat (split; [assumption|]).
    destruct groups;
      try (injection E5 as <-; left; exact H);
      try (destruct H as [props ->]; discriminate E5).
    right. split; [reflexivity|].
    apply bind_ok in E5 as (popupGroups & E6 & E5). injection E5 as <-.
    exists popupGroups. split; [exact E6|].
    unfold Js.or_else in H. destruct (Js.truthy popupGroups); [right; exact H | left; reflexivity].
  - intros (primaryContents & wrapper & menu & groups & E1 & E2 & E3 & E4 & Hg).
    rewrite E1; cbn [bind]. rewrite E2; cbn [bind]. rewrite E3; cbn [bind].
    rewrite E4; cbn [bind].
    destruct Hg as [[props ->]|(-> & popupGroups & E6 & Hp)]; [reflexivity|].
    rewrite E6; cbn [bind].
    apply catalog_empty_iff. unfold Js.or_else.
    destruct Hp as [->|[props ->]]; eexists; reflexivity.
Qed.

End Filters.

(** C6, as the claim has it, fails: a document whose results container has
    no submenu, and which has no search header either, yields groups in
    neither position, and [parseFilters] raises a [TypeError] on it. *)
Lemma parseFilters_without_submenu_raises :
  ~ (forall (B : Builtins) doc, Doc.no_groups doc -> Utils.parseFilters doc = Ok []).
Proof.
  intros H.
  specialize (H (example_builtins (fun _ => Err SyntaxError))
                (VObj [("contents",
                        VObj [("twoColumnSearchResultsRenderer",
                               VObj [("primaryContents",
                                      VObj [("richGridRenderer",
                                             VObj [("contents", arr [])])])])])])).
  cbn in H. specialize (H (conj eq_refl eq_refl)). discriminate H.
Qed.

(** ** The first-page adapter on a grid *)

Section Grid.

Lemma entry_hasOwn (entry : value) :
  Doc.is_marker entry = true \/ Doc.is_item entry = true ->
  Js.hasOwn entry "continuationItemRenderer" = Ok (Doc.is_marker entry).
Proof.
  destruct entry; cbn; intros [H|H]; try discriminate.
  all: destruct (Js.lookup "continuationItemRenderer" props); reflexivity.
Qed.

Lemma item_content (entry : value) :
  Doc.is_item entry = true -> exists content, Utils.gridContent entry = Ok content.
Proof.
  destruct entry as [| | | | | |props]; cbn [Doc.is_item]; try discriminate.
  intros H. apply andb_true_iff in H as [_ H].
  unfold Utils.gridContent. cbn [Js.get bind].
  destruct (Js.truthy (Js.lookup_or_undef "richItemRenderer" props)) eqn:Hitem.
  - destruct (Js.lookup_or_undef "richItemRenderer" props); try discriminate Hitem;
      eexists; reflexivity.
  - cbn in H.
    destruct (Js.lookup_or_undef "richSectionRenderer" props); try discriminate H;
      eexists; reflexivity.
Qed.

Lemma grid_kept (entries : list value) :
  Doc.grid_entries entries ->
  Js.filter (Utils.lacks "continuationItemRenderer") entries
  = Ok (List.filter (fun e => negb (Doc.is_marker e)) entries).
Proof.
  induction 1 as [|entry entries He _ IH]; [reflexivity|].
  cbn. unfold Utils.lacks at 1. rewrite (entry_hasOwn entry He). cbn.
  rewrite IH. cbn. reflexivity.
Qed.

Lemma grid_items (entries : list value) :
  Doc.grid_entries entries ->
  exists items,
    Js.map Utils.gridContent (List.filter (fun e => negb (Doc.is_marker e)) entries) = Ok items
    /\ List.length items
       = List.length (List.filter (fun e => negb (Doc.is_marker e)) entries).
Proof.
  induction 1 as [|entry entries He _ (items & IH & Hlen)]; [exists []; split; reflexivity|].
  cbn [List.filter]. destruct (Doc.is_marker entry) eqn:Hm; cbn [negb].
  - exists items. split; assumption.
  - destruct He as [He|He]; [congruence|].
    destruct (item_content entry He) as [content Hc].
    exists (content :: items). cbn. rewrite Hc, IH. cbn. split; [reflexivity | now rewrite Hlen].
Qed.

Lemma grid_marker (entries : list value) :
  Doc.grid_entries entries ->
  Js.find (fun x => Js.hasOwn x "continuationItemRenderer") entries
  = Ok (match List.find Doc.is_marker entries with
        | Some marker => marker
        | None => VUndef
        end).
Proof.
  induction 1 as [|entry entries He _ IH]; [reflexivity|].
  cbn. rewrite (entry_hasOwn entry He). cbn.
  destruct (Doc.is_marker entry); [reflexivity | exact IH].
Qed.

Lemma kept_count (entries : list value) :
  List.length (List.filter (fun e => negb (Doc.is_marker e)) entries)
  = List.length entries - Doc.markers entries.
Proof.
  unfold Doc.markers.
  assert (H : List.length (List.filter (fun e => negb (Doc.is_marker e)) entries)
              + List.length (List.filter Doc.is_marker entries) = List.length entries).
  { induction entries as [|e l IH]; [reflexivity|].
    cbn. destruct (Doc.is_marker e); cbn; lia. }
  lia.
Qed.

Lemma found_marker (entries : list value) :
  match List.find Doc.is_marker entries with
  | Some marker => Doc.is_marker marker = true /\ In marker entries /\ 1 <= Doc.markers entries
  | None => Doc.markers entries = 0
  end.
Proof.
  unfold Doc.markers. induction entries as [|e l IH]; [reflexivity|].
  cbn. destruct (Doc.is_marker e) eqn:He.
  - cbn. repeat split; [assumption | now left | lia].
  - destruct (List.find Doc.is_marker l) as [m|]; [|exact IH].
    destruct IH as (Hm & Hin & Hc). repeat split; [assumption | now right | assumption].
Qed.

(** C7. On a grid-shaped first-page container with [N] entries, each an
    item or a continuation marker, [M] of them markers with [M] zero or
    one, the adapter returns exactly [N - M] raw items, and a continuation
    that is not [null] or [undefined] exactly when [M] is one; it is then
    the marker entry. *)
Theorem parseWrapper_grid (primaryContents : value) (entries : list value)
    (Hgrid : Doc.is_grid primaryContents entries)
    (HM : Doc.markers entries <= 1) :
  exists items marker,
    Utils.parseWrapper primaryContents
    = Ok {| Utils.rawItems := arr items; Utils.continuation := marker |}
    /\ List.length items = List.length entries - Doc.markers entries
    /\ (Doc.nullish marker = false <-> Doc.markers entries = 1)
    /\ (Doc.markers entries = 1 -> Doc.is_marker marker = true /\ In marker entries).
Proof.
  destruct Hgrid as ((sectionList & Hs & Hfalsy) & (richGrid & props & Hg & Htruthy & Hc) & He).
  destruct (grid_items entries He) as (items & Hitems & Hlen).
  exists items,
    (match List.find Doc.is_marker entries with Some m => m | None => VUndef end).
  split; [|split; [|split]].
  - unfold Utils.parseWrapper.
    rewrite Hs; cbn [bind]. rewrite Hfalsy. rewrite Hg; cbn [bind]. rewrite Htruthy.
    rewrite Hc; cbn [bind Js.as_array].
    rewrite (grid_kept entries He); cbn [bind]. rewrite Hitems; cbn [bind].
    rewrite (grid_marker entries He); cbn [bind]. reflexivity.
  - rewrite Hlen. apply kept_count.
  - pose proof (found_marker entries) as Hf.
    destruct (List.find Doc.is_marker entries) as [m|].
    + destruct Hf as (Hm & _ & Hc1). split; [intros _; lia|intros _].
      destruct m; cbn in Hm; try discriminate; reflexivity.
    + rewrite Hf. split; [discriminate | lia].
  - intros H1. pose proof (found_marker entries) as Hf.
    destruct (List.find Doc.is_marker entries) as [m|]; [|lia].
    destruct Hf as (Hm & Hin & _). split; assumption.
Qed.

End Grid.

Lemma parseWrapper_grid_witness :
  let item := fun n : Z => VObj [("richItemRenderer", VObj [("content", VNum (Fin n))])] in
  let marker := VObj [("continuationItemRenderer", VObj [])] in
  let entries := [item 1%Z; item 2%Z; marker] in
  let primaryContents := VObj [("richGridRenderer", VObj [("contents", arr entries)])] in
  exists items found,
    Utils.parseWrapper primaryContents
    = Ok {| Utils.rawItems := arr items; Utils.continuation := found |}
    /\ List.length items = 3 - 1
    /\ (Doc.nullish found = false <-> 1 = 1)
    /\ (1 = 1 -> Doc.is_marker found = true /\ In found entries).
Proof.
  intros item marker entries primaryContents.
  refine (parseWrapper_grid primaryContents entries _ _).
  - split; [exists VUndef; split; reflexivity|].
    split; [exists (VObj [("contents", arr entries)]), []; repeat split|].
    apply Forall_cons; [right; reflexivity|].
    apply Forall_cons; [right; reflexivity|].
    apply Forall_cons; [left; reflexivity | apply Forall_nil].
  - cbn. lia.
Defined.

(** ** The response decoder *)

Section Decoder.
Context {B : Builtins}.

Lemma get_defined (x : value) (k : string) :
  x <> VUndef -> x <> VNull -> exists v, Js.get x k = Ok v.
Proof.
  destruct x; cbn; intros H1 H2; try contradiction; eauto.
  all: destruct (String.eqb k "length"); eauto.
Qed.

Lemma set_client_shape (c : value) (k : string) (v : value) :
  context_shape c -> exists c', Utils.set_in c "client" k v = Ok c' /\ context_shape c'.
Proof.
  intros (client & user & request & ->). eexists. split; [reflexivity|].
  do 3 eexists. reflexivity.
Qed.

Lemma set_user_shape (c : value) (k : string) (v : value) :
  context_shape c -> exists c', Utils.set_in c "user" k v = Ok c' /\ context_shape c'.
Proof.
  intros (client & user & request & ->). eexists. split; [reflexivity|].
  do 3 eexists. reflexivity.
Qed.

Lemma overlay_shape (options c : value) (k : string) :
  options <> VUndef -> options <> VNull -> context_shape c ->
  exists c', Utils.overlay options c k = Ok c' /\ context_shape c'.
Proof.
  intros H1 H2 Hc. unfold Utils.overlay.
  destruct (get_defined options k H1 H2) as [v ->]. cbn [bind].
  destruct (Js.truthy v); [now apply set_client_shape | eauto].
Qed.

(** C8. For every response body and every options value other than
    [null] (an options record, or none), [parseBody] returns a record and
    raises nothing; the document of the record is [null] when the anchor
    literal is absent, when the cut after it fails, and when the cut text
    does not parse, and it is the parsed document otherwise. *)
Theorem parseBody_never_throws (body : string) (options : value)
    (Hoptions : options <> VNull) :
  exists decoded,
    Utils.parseBody body options = Ok decoded
    /\ match indexOf body "var ytInitialData = " with
       | None => Utils.json decoded = VNull
       | Some pos =>
           match Extractor.cutAfterJSON
                   (slice_from (pos + String.length "var ytInitialData = ") body) with
           | Err _ => Utils.json decoded = VNull
           | Ok cut =>
               match JSON_parse cut with
               | Err _ => Utils.json decoded = VNull
               | Ok document => Utils.json decoded = document
               end
           end
       end.
Proof.
  unfold Utils.parseBody.
  assert (H1 : Utils.or_empty options <> VUndef) by (destruct options; discriminate).
  assert (H2 : Utils.or_empty options <> VNull)
    by (destruct options; try discriminate; contradiction).
  set (opts := Utils.or_empty options) in *.
  assert (H0 : exists c0, Utils.json_roundtrip Utils.DEFAULT_CONTEXT = Ok c0 /\ context_shape c0)
    by (eexists; split; [reflexivity | do 3 eexists; reflexivity]).
  destruct H0 as (c0 & -> & S0). cbn [bind].
  match goal with
  | |- context [Utils.set_in c0 "client" "clientVersion" ?v] =>
      destruct (set_client_shape c0 "clientVersion" v S0) as (c1 & -> & S1)
  end.
  cbn [bind].
  destruct (overlay_shape opts c1 "gl" H1 H2 S1) as (c2 & -> & S2). cbn [bind].
  destruct (overlay_shape opts c2 "hl" H1 H2 S2) as (c3 & -> & S3). cbn [bind].
  destruct (overlay_shape opts c3 "utcOffsetMinutes" H1 H2 S3) as (c4 & -> & S4). cbn [bind].
  destruct (get_defined opts "safeSearch" H1 H2) as [safe ->]. cbn [bind].
  assert (H5 : exists c5,
             (if Js.truthy safe
              then Utils.set_in c4 "user" "enableSafetyMode" (VBool true)
              else Ok c4) = Ok c5).
  { destruct (Js.truthy safe); [|eauto].
    destruct (set_user_shape c4 "enableSafetyMode" (VBool true) S4) as (c5 & -> & _). eauto. }
  destruct H5 as [c5 ->]. cbn [bind].
  eexists. split; [reflexivity|]. cbn [Utils.json].
  unfold Utils.jsonAfter.
  destruct (indexOf body "var ytInitialData = ") as [pos|]; [|reflexivity].
  destruct (Extractor.cutAfterJSON _) as [cut|e]; cbn [bind]; [|reflexivity].
  destruct (JSON_parse cut); reflexivity.
Qed.

End Decoder.

Lemma parseBody_never_throws_witness :
  let B := example_builtins (fun _ => Err SyntaxError) in
  exists decoded,
    Utils.parseBody "<html>var ytInitialData = {;</html>" (VObj [("gl", VStr "DE")]) = Ok decoded
    /\ Utils.json decoded = VNull.
Proof.
  intros B.
  destruct (parseBody_never_throws
              "<html>var ytInitialData = {;</html>" (VObj [("gl", VStr "DE")]))
    as (decoded & Hd & Hj); [discriminate|].
  exists decoded. split; [exact Hd | exact Hj].
Defined.

(** ** Objects: reading after writing *)

Lemma lookup_update_same (k : string) (v : value) (ps : list (string * value)) :
  Js.lookup k (Js.update k v ps) = Some v.
Proof.
  induction ps as [|[k' v'] ps IH]; cbn.
  - now rewrite String.eqb_refl.
  - destruct (String.eqb k k') eqn:E; cbn; [now rewrite String.eqb_refl | now rewrite E].
Qed.

Lemma lookup_update_other (k k' : string) (v : value) (ps : list (string * value)) :
  k' <> k -> Js.lookup k' (Js.update k v ps) = Js.lookup k' ps.
Proof.
  intros Hne. apply String.eqb_neq in Hne.
  induction ps as [|[k0 v0] ps IH]; cbn.
  - now rewrite Hne.
  - destruct (String.eqb k k0) eqn:E; cbn.
    + apply String.eqb_eq in E. subst k0. now rewrite Hne.
    + now rewrite IH.
Qed.

Lemma get_set_same (o o' : value) (k : string) (v : value) :
  Engine.settable o = true -> k <> "length" ->
  Js.set o k v = Ok o' ->
  Js.get o' k = Ok v /\ Engine.settable o' = true.
Proof.
  intros Hs Hk. apply String.eqb_neq in Hk.
  destruct o; try discriminate Hs; cbn; intros [= <-]; cbn.
  - rewrite Hk. unfold Js.lookup_or_undef. now rewrite lookup_update_same.
  - unfold Js.lookup_or_undef. now rewrite lookup_update_same.
Qed.

Lemma get_set_other (o o' : value) (k k' : string) (v : value) :
  k' <> k -> Js.set o k v = Ok o' -> Js.get o' k' = Js.get o k'.
Proof.
  intros Hne.
  destruct o; cbn; try discriminate; intros [= <-]; cbn; try reflexivity.
  - destruct (String.eqb k' "length"); [reflexivity|].
    unfold Js.lookup_or_undef. now rewrite lookup_update_other.
  - unfold Js.lookup_or_undef. now rewrite lookup_update_other.
Qed.


Lemma settable_get (o : value) (k : string) :
  Engine.settable o = true -> exists v, Js.get o k = Ok v.
Proof.
  destruct o; try discriminate; cbn; intros _; [|eauto].
  destruct (String.eqb k "length"); eauto.
Qed.

(** ** The engine, step by step *)

Section EngineSteps.
Context {B : Builtins}.

Lemma mbind_inv {A C : Type} (m : M A) (f : A -> M C) (o o' : value) (c : C) :
  mbind m f o = (Ok c, o') ->
  exists a o1, m o = (Ok a, o1) /\ f a o1 = (Ok c, o').
Proof.
  unfold mbind. destruct (m o) as [[a|e] o1]; [eauto | discriminate].
Qed.

Lemma lift_inv {A : Type} (r : result A) (o o' : value) (a : A) :
  lift r o = (Ok a, o') -> r = Ok a /\ o' = o.
Proof. unfold lift. now intros [= -> ->]. Qed.

Lemma ret_inv {A : Type} (a a' : A) (o o' : value) :
  ret a o = (Ok a', o') -> a' = a /\ o' = o.
Proof. unfold ret. now intros [= -> ->]. Qed.

Lemma options_get_inv (k : string) (o o' v : value) :
  options_get k o = (Ok v, o') -> Js.get o k = Ok v /\ o' = o.
Proof. unfold options_get. now intros [= -> ->]. Qed.

Lemma options_set_inv (k : string) (v o o' : value) (u : unit) :
  options_set k v o = (Ok u, o') -> Js.set o k v = Ok o'.
Proof.
  unfold options_set. destruct (Js.set o k v); [now intros [= _ ->] | discriminate].
Qed.

(** [spend]: the two budgets after a page, everything else as before. *)
Lemma spend_inv (n : nat) (o o' : value) (u : unit) :
  Main.spend n o = (Ok u, o') ->
  exists limit pages o1,
    Js.get o "limit" = Ok limit
    /\ Js.set o "limit" (VNum (Num.sub (ToNumber limit) (Z.of_nat n))) = Ok o1
    /\ Js.get o1 "pages" = Ok pages
    /\ Js.set o1 "pages" (VNum (Num.sub (ToNumber pages) 1)) = Ok o'.
Proof.
  unfold Main.spend. intros H.
  apply mbind_inv in H as (limit & s1 & H1 & H). apply options_get_inv in H1 as [H1 ->].
  apply mbind_inv in H as ([] & o1 & H2 & H). apply options_set_inv in H2.
  apply mbind_inv in H as (pages & s2 & H3 & H). apply options_get_inv in H3 as [H3 ->].
  apply options_set_inv in H.
  exists limit, pages, o1. repeat split; assumption.
Qed.

Lemma finished_inv (token o o' : value) (stop : bool) :
  Main.finished token o = (Ok stop, o') ->
  o' = o /\ exists limit pages,
    Js.get o "limit" = Ok limit /\ Js.get o "pages" = Ok pages
    /\ stop = negb (Js.truthy token)
              || Num.lt (ToNumber limit) (Fin 1)
              || Num.lt (ToNumber pages) (Fin 1).
Proof.
  unfold Main.finished. intros H.
  apply mbind_inv in H as (limit & s1 & H1 & H). apply options_get_inv in H1 as [H1 ->].
  apply mbind_inv in H as (pages & s2 & H2 & H). apply options_get_inv in H2 as [H2 ->].
  apply ret_inv in H as [-> ->]. split; [reflexivity|].
  exists limit, pages. repeat split; assumption.
Qed.

Lemma resumable_inv (token o o' : value) (emit : bool) :
  Main.resumable token o = (Ok emit, o') ->
  o' = o /\ exists limit,
    Js.get o "limit" = Ok limit /\ emit = Js.truthy token && Main.is_infinity limit.
Proof.
  unfold Main.resumable. intros H.
  apply mbind_inv in H as (limit & s1 & H1 & H). apply options_get_inv in H1 as [H1 ->].
  apply ret_inv in H as [-> ->]. split; [reflexivity|].
  exists limit. split; [assumption | reflexivity].
Qed.

Lemma nextPage_inv (again : value -> M Page.t) (responseText : result string)
    (apiKey token context o : value) (p : Page.t) (o' : value) :
  Main.nextPage again responseText apiKey token context o = (Ok p, o') ->
  exists response o1,
    Main.post responseText o = (Ok response, o1)
    /\ Engine.page_run again apiKey context o1 response p o'.
Proof.
  unfold Main.nextPage. intros H.
  apply mbind_inv in H as (response & o1 & Hpost & H).
  exists response, o1. split; [exact Hpost|].
  apply mbind_inv in H as (commands & s & Hc & H). apply lift_inv in Hc as [Hc ->].
  destruct (Js.isArray commands) eqn:Harr; cbn [negb] in H.
  - apply mbind_inv in H as (wrapper & s & Hw & H). apply lift_inv in Hw as [Hw ->].
    apply mbind_inv in H as (limit & s & Hl & H). apply options_get_inv in Hl as [Hl ->].
    apply mbind_inv in H as (kept & s & Hk & H). apply lift_inv in Hk as [Hk ->].
    apply mbind_inv in H as ([] & o2 & Hsp & H).
    apply mbind_inv in H as (nextToken & s & Ht & H). apply lift_inv in Ht as [Ht ->].
    apply mbind_inv in H as (stop & s & Hf & H).
    pose proof (finished_inv _ _ _ _ Hf) as [-> _].
    eapply (Engine.run_page again apiKey context o1 response p o' commands wrapper limit kept o2
                     nextToken stop); try eassumption.
    destruct stop.
    + apply mbind_inv in H as (emit & s & He & H).
      pose proof (resumable_inv _ _ _ _ He) as [-> _].
      apply mbind_inv in H as (now & s & Hn & H). injection Hn as <- <-.
      apply ret_inv in H as [-> ->]. exists emit. repeat split. exact He.
    + apply mbind_inv in H as (next & s & Hn & H). apply ret_inv in H as [-> ->].
      exists next. split; [exact Hn | reflexivity].
  - apply ret_inv in H as [-> ->].
    eapply Engine.run_end; try eassumption; reflexivity.
Qed.

End EngineSteps.

Section FirstPageSteps.
Context {B : Builtins}.

Lemma firstPage_inv (again : value -> value -> value -> M Page.t)
    (parsedResponse : Utils.ParsedBody) (o : value) (r : Main.SearchResult) (o' : value) :
  Main.firstPage again parsedResponse o = (Ok r, o') ->
  Engine.first_run again parsedResponse o r o'.
Proof.
  unfold Main.firstPage. intros H.
  apply mbind_inv in H as ([] & s & Ha & H). apply lift_inv in Ha as [_ ->].
  apply mbind_inv in H as (search & s & Hs & H). apply options_get_inv in Hs as [Hs ->].
  apply mbind_inv in H as (estimated & s & He & H). apply lift_inv in He as [He ->].
  apply bind_ok in He as (estimatedResults & He & Hn). injection Hn as <-.
  apply mbind_inv in H as (urls & s & Hr & H). apply lift_inv in Hr as [_ ->].
  apply mbind_inv in H as (wrapper & s & Hw & H). apply lift_inv in Hw as [Hw ->].
  apply bind_ok in Hw as (contents & Hc & Hw).
  apply bind_ok in Hw as (twoColumn & Ht & Hw).
  apply bind_ok in Hw as (primaryContents & Hp & Hw).
  apply mbind_inv in H as (limit & s & Hl & H). apply options_get_inv in Hl as [Hl ->].
  apply mbind_inv in H as (kept & s & Hk & H). apply lift_inv in Hk as [Hk ->].
  apply mbind_inv in H as ([] & o2 & Hsp & H).
  apply mbind_inv in H as (filters & s & Hf & H). apply lift_inv in Hf as [_ ->].
  apply mbind_inv in H as (token & s & Htok & H). apply lift_inv in Htok as [Htok ->].
  apply mbind_inv in H as (emit & s & Hem & H).
  pose proof (resumable_inv _ _ _ _ Hem) as [-> _].
  apply mbind_inv in H as (opts & s & Hnow & H). injection Hnow as <- <-.
  apply mbind_inv in H as (stop & s & Hfin & H).
  pose proof (finished_inv _ _ _ _ Hfin) as [-> _].
  eapply (Engine.run_first again parsedResponse o r o' search estimatedResults contents twoColumn
                    primaryContents wrapper limit kept o2 token emit stop);
    try eassumption.
  destruct stop.
  - apply ret_inv in H as [-> ->]. repeat split.
  - apply mbind_inv in H as (next & s & Hn & H). apply ret_inv in H as [-> ->].
    exists next. repeat split. exact Hn.
Qed.

End FirstPageSteps.

(** ** A finite item budget *)

Section FiniteBudget.
Context {B : Builtins}.

Lemma set_keeps_limit (o o' : value) (k : string) (v : value) :
  k <> "limit" -> Engine.settable o = true -> Js.set o k v = Ok o' ->
  Engine.settable o' = true /\ Js.get o' "limit" = Js.get o "limit".
Proof.
  intros Hk Hs H. split.
  - destruct o; try discriminate Hs; injection H as <-; reflexivity.
  - eapply get_set_other; [|exact H]. congruence.
Qed.

Lemma post_frame (responseText : result string) (o o1 : value) (r : result value) :
  Main.post responseText o = (r, o1) ->
  Engine.settable o1 = Engine.settable o
  /\ forall k, k <> "requestOptions" -> Js.get o1 k = Js.get o k.
Proof.
  unfold Main.post.
  destruct (Js.get o "requestOptions") as [given|e]; [|now intros [= _ <-]].
  destruct (Utils.doPost given responseText) as [outcome reqOpts].
  intros [= _ <-].
  destruct given; try (split; reflexivity);
    (destruct (Js.set o "requestOptions" reqOpts) as [stored|e] eqn:Hset;
     [|split; reflexivity]);
    (split;
     [destruct o; cbn in Hset; try discriminate Hset; injection Hset as <-; reflexivity
     |intros k Hk; eapply get_set_other; eassumption]).
Qed.

(** What [post] returns is what the transport has answered, parsed. *)
Lemma post_outcome (responseText : result string) (o o1 response : value) :
  Main.post responseText o = (Ok response, o1) ->
  exists text, responseText = Ok text /\ JSON_parse text = Ok response.
Proof.
  unfold Main.post, Utils.doPost.
  destruct (Js.get o "requestOptions"); [|discriminate].
  destruct (Js.set _ _ _); [|discriminate].
  intros [= H _]. apply bind_ok in H as (text & -> & H). eauto.
Qed.

Lemma post_finite (responseText : result string) (o o1 : value) (r : result value) (k : Z) :
  Main.post responseText o = (r, o1) ->
  Engine.finite_limit o k -> Engine.finite_limit o1 k.
Proof.
  intros H [Hs Hl]. destruct (post_frame _ _ _ _ H) as [Hs1 Hf].
  split; [congruence|]. rewrite Hf; [assumption | discriminate].
Qed.

Lemma spend_finite (n : nat) (o o' : value) (k : Z) :
  Main.spend n o = (Ok tt, o') ->
  Engine.finite_limit o k -> Engine.finite_limit o' (k - Z.of_nat n).
Proof.
  intros H [Hs Hl].
  apply spend_inv in H as (limit & pages & o1 & H1 & H2 & H3 & H4).
  rewrite Hl in H1. injection H1 as <-. cbn in H2.
  destruct (get_set_same o o1 "limit" _ Hs ltac:(discriminate) H2) as [Hl1 Hs1].
  destruct (set_keeps_limit o1 o' "pages" _ ltac:(discriminate) Hs1 H4) as [Hs' Hl'].
  split; [assumption | now rewrite Hl'].
Qed.

Lemma filter_index_bound (k : Z) (l : list value) :
  forall start,
    (Z.of_nat (List.length
                 (Js.filter_index (fun index => Num.lt (Fin (Z.of_nat index)) (Fin k)) start l))
     <= Z.max 0 (k - Z.of_nat start))%Z.
Proof.
  induction l as [|x l IH]; intros start; cbn [Js.filter_index List.length].
  - lia.
  - specialize (IH (S start)). cbv beta. cbn [Num.lt] in IH |- *.
    destruct (Z.ltb_spec (Z.of_nat start) k); cbn [List.length]; lia.
Qed.

Lemma keepItems_bound (mapper : value -> result value) (rawItems : value)
    (k : Z) (kept : list value) :
  (0 <= k)%Z ->
  Main.keepItems mapper rawItems (VNum (Fin k)) = Ok kept ->
  (Z.of_nat (List.length kept) <= k)%Z.
Proof.
  intros Hk H. unfold Main.keepItems in H.
  apply bind_ok in H as (raw & _ & H). apply bind_ok in H as (mapped & _ & H).
  injection H as <-.
  etransitivity; [exact (filter_index_bound k (List.filter Js.truthy mapped) 0) | lia].
Qed.

(** With a finite item budget, a page run keeps no more than the budget
    and emits no continuation, provided the pages after it do so. *)
Lemma page_run_finite (again : value -> M Page.t) (apiKey context : value)
    (o1 response : value) (p : Page.t) (o' : value) (k : Z) :
  (forall token o k p o',
      Engine.finite_limit o k -> (0 <= k)%Z -> again token o = (Ok p, o') ->
      (Z.of_nat (List.length (Page.items p)) <= k)%Z /\ Page.continuation p = VNull) ->
  Engine.finite_limit o1 k -> (0 <= k)%Z ->
  Engine.page_run again apiKey context o1 response p o' ->
  (Z.of_nat (List.length (Page.items p)) <= k)%Z /\ Page.continuation p = VNull.
Proof.
  intros Hagain Hfin Hk Hrun.
  destruct Hrun as [commands _ _ -> _
                   |commands wrapper limit kept o2 nextToken stop _ _ _ Hl Hkept Hsp _ Hf Hend].
  - cbn. split; [lia | reflexivity].
  - destruct Hfin as [Hs Hl1]. rewrite Hl1 in Hl. injection Hl as <-.
    pose proof (keepItems_bound _ _ _ _ Hk Hkept) as Hb.
    pose proof (spend_finite _ _ _ k Hsp (conj Hs Hl1)) as Hfin2.
    destruct stop.
    + destruct Hend as (emit & He & -> & _). cbn.
      apply resumable_inv in He as (_ & limit2 & Hl2 & ->).
      destruct Hfin2 as [_ Hl2']. rewrite Hl2' in Hl2. injection Hl2 as <-.
      cbn. rewrite andb_false_r. split; [assumption | reflexivity].
    + destruct Hend as (next & Hn & ->). cbn.
      assert (H1 : (0 <= k - Z.of_nat (List.length kept))%Z) by lia.
      destruct (Hagain _ _ _ _ _ Hfin2 H1 Hn) as [Hb' Hc'].
      rewrite length_app. split; [lia | assumption].
Qed.

Lemma fetchNextPage_finite (world : list string) (apiKey context : value) :
  forall token o k p o',
    Engine.finite_limit o k -> (0 <= k)%Z ->
    Main.fetchNextPage world apiKey token context o = (Ok p, o') ->
    (Z.of_nat (List.length (Page.items p)) <= k)%Z /\ Page.continuation p = VNull.
Proof.
  induction world as [|text rest IH]; intros token o k p o' Hfin Hk H; cbn [Main.fetchNextPage] in H;
    apply nextPage_inv in H as (response & o1 & Hpost & Hrun).
  - apply post_outcome in Hpost as (text & Htext & _). discriminate Htext.
  - pose proof (post_finite _ _ _ _ k Hpost Hfin) as Hfin1.
    refine (page_run_finite _ apiKey context o1 response p o' k _ Hfin1 Hk Hrun).
    intros token' o0 k0 p0 o0' Hf0 Hk0 H0. eapply IH; eassumption.
Qed.

End FiniteBudget.

Section NormalizedBudget.
Context {B : Builtins}.

Lemma normalizeBudgets_limit (obj obj1 : value) :
  Engine.settable obj = true ->
  Utils.normalizeBudgets obj = Ok obj1 ->
  Engine.settable obj1 = true
  /\ forall K, Js.get obj1 "limit" = Ok (VNum (Fin K)) -> (1 <= K)%Z.
Proof.
  intros Hs H. unfold Utils.normalizeBudgets in H.
  apply bind_ok in H as (pages & _ & H).
  destruct (negb (isNaN pages) && Num.lt (Fin 0) (ToNumber pages)).
  - destruct (get_set_same obj obj1 "limit" _ Hs ltac:(discriminate) H) as [Hl Hs1].
    split; [assumption|]. intros K HK. rewrite Hl in HK. discriminate.
  - apply bind_ok in H as (limit & Hl & H).
    destruct (isNaN limit || Num.le (ToNumber limit) (Fin 0)) eqn:Hc.
    + apply bind_ok in H as (obj' & Hp & H).
      apply bind_ok in H as (defaultLimit & Hd & H). injection Hd as <-.
      destruct (set_keeps_limit obj obj' "pages" _ ltac:(discriminate) Hs Hp) as [Hs' _].
      destruct (get_set_same obj' obj1 "limit" _ Hs' ltac:(discriminate) H) as [Hl1 Hs1].
      split; [assumption|]. intros K HK. rewrite Hl1 in HK. injection HK as <-. lia.
    + injection H as <-. split; [assumption|].
      intros K HK. rewrite Hl in HK. injection HK as ->.
      apply orb_false_iff in Hc as [_ Hc]. cbn in Hc. apply Z.leb_gt in Hc. lia.
Qed.

Lemma checkArgs_limit (searchString options opts : value) :
  Utils.checkArgs searchString options = Ok opts ->
  Engine.settable opts = true
  /\ forall K, Js.get opts "limit" = Ok (VNum (Fin K)) -> (1 <= K)%Z.
Proof.
  unfold Utils.checkArgs. intros H.
  destruct (negb (Js.truthy searchString)); [discriminate|].
  destruct searchString as [| | | |search| |]; try discriminate.
  apply bind_ok in H as (obj1 & Hn & H).
  destruct (normalizeBudgets_limit (VObj _) obj1 eq_refl Hn) as [Hs1 Hl1].
  apply bind_ok in H as (safeSearch & _ & H).
  apply bind_ok in H as (obj2 & H2 & H).
  assert (Engine.settable obj2 = true /\ Js.get obj2 "limit" = Js.get obj1 "limit")
    as [Hs2 Hl2].
  { destruct safeSearch;
      try (eapply set_keeps_limit; [|eassumption|eassumption]; discriminate).
    injection H2 as <-. split; [assumption | reflexivity]. }
  apply bind_ok in H as (safeSearch' & _ & H).
  apply bind_ok in H as (requestOptions & _ & H).
  apply bind_ok in H as (obj3 & H3 & H).
  destruct (set_keeps_limit obj2 obj3 "requestOptions" _ ltac:(discriminate) Hs2 H3)
    as [Hs3 Hl3].
  apply bind_ok in H as (query & _ & H).
  apply bind_ok in H as (obj3' & H3' & H).
  destruct (set_keeps_limit obj3 obj3' "query" _ ltac:(discriminate) Hs3 H3')
    as [Hs3' Hl3'].
  apply bind_ok in H as (searchTerm & _ & H).
  apply bind_ok in H as (obj4 & H4 & H).
  destruct (set_keeps_limit obj3' obj4 "search" _ ltac:(discriminate) Hs3' H4) as [Hs4 Hl4].
  apply bind_ok in H as (gl & _ & H).
  apply bind_ok in H as (query1 & _ & H).
  apply bind_ok in H as (hl & _ & H).
  apply bind_ok in H as (query2 & _ & H).
  destruct (set_keeps_limit obj4 opts "query" _ ltac:(discriminate) Hs4 H) as [Hs5 Hl5].
  split; [assumption|].
  intros K HK. apply Hl1. congruence.
Qed.

(** C3, as the code has it. When the item limit in force after
    [checkArgs] is the finite number [K] (an item limit the caller has set
    to a positive number without a positive page count, or the default), a
    completed search returns at most [K] items over all its pages, and the
    continuation of its result is [null]. *)
Theorem search_within_finite_limit (retries : nat) (world : list string)
    (searchString options opts : value) (K : Z) (r : Main.SearchResult)
    (Hargs : Utils.checkArgs searchString options = Ok opts)
    (Hlimit : Js.get opts "limit" = Ok (VNum (Fin K)))
    (Hdone : Main.fetchSearchResults retries world searchString options = Ok r) :
  (Z.of_nat (List.length (Main.items r)) <= K)%Z /\ Main.continuation r = VNull.
Proof.
  destruct (checkArgs_limit _ _ _ Hargs) as [Hs HK]. specialize (HK K Hlimit).
  revert world Hdone. induction retries as [|retries IH]; intros world Hdone;
    cbn [Main.fetchSearchResults] in Hdone; [discriminate|].
  rewrite Hargs in Hdone. cbn [bind] in Hdone.
  destruct world as [|body rest]; [discriminate|].
  apply bind_ok in Hdone as (parsedResponse & _ & Hdone).
  destruct (negb (Js.truthy (Utils.json parsedResponse))); [now apply (IH rest)|].
  destruct (Main.firstPage (Main.fetchNextPage rest) parsedResponse opts)
    as [outcome o'] eqn:Hfirst.
  cbn [fst] in Hdone. subst outcome.
  apply firstPage_inv in Hfirst.
  destruct Hfirst as [search estimatedResults contents twoColumn primaryContents wrapper
                        limit kept o2 token emit stop
                        _ _ _ _ _ _ Hl Hkept Hsp _ Hem _ Hend].
  rewrite Hlimit in Hl. injection Hl as <-.
  assert (H0 : (0 <= K)%Z) by lia.
  pose proof (keepItems_bound _ _ K _ H0 Hkept) as Hb.
  pose proof (spend_finite _ _ _ K Hsp (conj Hs Hlimit)) as Hfin2.
  destruct stop.
  - destruct Hend as (-> & -> & _).
    apply resumable_inv in Hem as (_ & limit2 & Hl2 & ->).
    destruct Hfin2 as [_ Hl2']. rewrite Hl2' in Hl2. injection Hl2 as <-.
    cbn. rewrite andb_false_r. split; [assumption | reflexivity].
  - destruct Hend as (next & Hn & -> & ->).
    assert (H1 : (0 <= K - Z.of_nat (List.length kept))%Z) by lia.
    destruct (fetchNextPage_finite rest _ _ _ _ _ _ _ Hfin2 H1 Hn) as [Hb' Hc'].
    rewrite length_app. split; [lia | assumption].
Qed.

End NormalizedBudget.

Lemma search_within_finite_limit_witness :
  exists r,
    @Main.fetchSearchResults Sample.builtins 3 [Sample.body; "2"; "3"]
      (VStr "cats") (VObj [("limit", VNum (Fin 3))]) = Ok r
    /\ Main.items r = [VStr "a"; VStr "b"; VStr "c"]
    /\ (Z.of_nat (List.length (Main.items r)) <= 3)%Z
    /\ Main.continuation r = VNull.
Proof.
  destruct (@Main.fetchSearchResults Sample.builtins 3 [Sample.body; "2"; "3"]
              (VStr "cats") (VObj [("limit", VNum (Fin 3))])) as [r|e] eqn:Hrun;
    [|vm_compute in Hrun; discriminate Hrun].
  exists r. split; [reflexivity|].
  split; [vm_compute in Hrun; injection Hrun as <-; reflexivity|].
  refine (@search_within_finite_limit Sample.builtins 3 [Sample.body; "2"; "3"]
            (VStr "cats") (VObj [("limit", VNum (Fin 3))]) _ 3%Z r _ _ Hrun).
  - vm_compute. reflexivity.
  - vm_compute. reflexivity.
Defined.

(** C3, as the claim has it, fails: an item limit that the caller sets
    together with a page count is disabled by [checkArgs]. With a limit of
    one item and a budget of one page, a first page of two items and a
    token gives two items and a continuation. *)
Lemma search_limit_disabled_by_pages :
  ~ (forall (B : Builtins) retries world searchString options K r,
       Js.get options "limit" = Ok (VNum (Fin K)) ->
       Main.fetchSearchResults retries world searchString options = Ok r ->
       (Z.of_nat (List.length (Main.items r)) <= K)%Z /\ Main.continuation r = VNull).
Proof.
  intros H.
  destruct (@Main.fetchSearchResults Sample.builtins 3 [Sample.body] (VStr "cats")
              (VObj [("limit", VNum (Fin 1)); ("pages", VNum (Fin 1))])) as [r|e] eqn:Hrun;
    [|vm_compute in Hrun; discriminate Hrun].
  destruct (H Sample.builtins 3 [Sample.body] (VStr "cats")
              (VObj [("limit", VNum (Fin 1)); ("pages", VNum (Fin 1))]) 1%Z r eq_refl Hrun)
    as [Hlen _].
  vm_compute in Hrun. injection Hrun as <-. cbn in Hlen. lia.
Qed.

(** ** Page order *)

Section PageOrder.
Context {B : Builtins}.

Lemma lt_antitone (a b : Z) (limit : num) :
  Num.lt (Fin a) limit = false -> (a <= b)%Z -> Num.lt (Fin b) limit = false.
Proof.
  destruct limit; cbn; try discriminate; try reflexivity.
  intros H Hab. apply Z.ltb_ge in H. apply Z.ltb_ge. lia.
Qed.

Lemma filter_index_none (limit : num) (l : list value) :
  forall start,
    Num.lt (Fin (Z.of_nat start)) limit = false ->
    Js.filter_index (fun index => Num.lt (Fin (Z.of_nat index)) limit) start l = [].
Proof.
  induction l as [|x l IH]; intros start H; cbn [Js.filter_index]; [reflexivity|].
  cbv beta. rewrite H. apply IH. eapply lt_antitone; [exact H | lia].
Qed.

(** The cut by the item budget keeps the first items. *)
Lemma filter_index_firstn (limit : num) (l : list value) :
  forall start,
    exists n,
      Js.filter_index (fun index => Num.lt (Fin (Z.of_nat index)) limit) start l = firstn n l.
Proof.
  induction l as [|x l IH]; intros start; cbn [Js.filter_index]; [exists 0; reflexivity|].
  cbv beta. destruct (Num.lt (Fin (Z.of_nat start)) limit) eqn:H.
  - destruct (IH (S start)) as [n Hn]. exists (S n). cbn [firstn]. now rewrite Hn.
  - exists 0. cbn [firstn]. apply filter_index_none. eapply lt_antitone; [exact H | lia].
Qed.

Lemma keepItems_prefix (mapper : value -> result value) (rawItems limit : value)
    (kept : list value) :
  Main.keepItems mapper rawItems limit = Ok kept ->
  exists offer n, Engine.offerOf mapper rawItems = Ok offer /\ kept = firstn n offer.
Proof.
  unfold Main.keepItems, Engine.offerOf. intros H.
  apply bind_ok in H as (raw & Hraw & H). apply bind_ok in H as (mapped & Hmap & H).
  injection H as <-. rewrite Hraw; cbn [bind]. rewrite Hmap; cbn [bind].
  destruct (filter_index_firstn (ToNumber limit) (List.filter Js.truthy mapped) 0) as [n Hn].
  exists (List.filter Js.truthy mapped), n. split; [reflexivity | exact Hn].
Qed.

Lemma post_response (text : string) (o o1 response : value) :
  Main.post (Ok text) o = (Ok response, o1) -> JSON_parse text = Ok response.
Proof.
  intros H. apply post_outcome in H as (text' & [= <-] & H). exact H.
Qed.

Lemma in_page_order_cons (text : string) (rest : list string) (kept items : list value) :
  Engine.kept_of_page kept text ->
  Engine.in_page_order rest items ->
  Engine.in_page_order (text :: rest) (kept ++ items).
Proof.
  intros Hk (kepts & -> & Hall). exists (kept :: kepts). split; [reflexivity|].
  cbn. constructor; assumption.
Qed.

Lemma in_page_order_last (text : string) (rest : list string) (kept : list value) :
  Engine.kept_of_page kept text -> Engine.in_page_order (text :: rest) kept.
Proof.
  intros Hk. exists [kept]. split; [cbn; now rewrite app_nil_r|].
  cbn. constructor; [assumption | constructor].
Qed.

Lemma page_run_order (again : value -> M Page.t) (apiKey context : value)
    (text : string) (rest : list string) (o1 response : value) (p : Page.t) (o' : value) :
  JSON_parse text = Ok response ->
  (forall token o p o', again token o = (Ok p, o') -> Engine.in_page_order rest (Page.items p)) ->
  Engine.page_run again apiKey context o1 response p o' ->
  Engine.in_page_order (text :: rest) (Page.items p).
Proof.
  intros Hparse Hagain Hrun.
  destruct Hrun as [commands Hc Harr -> _
                   |commands wrapper limit kept o2 nextToken stop Hc Harr Hw _ Hkept _ _ _ Hend].
  - apply in_page_order_last. exists [], 0. split; [|reflexivity].
    unfold Engine.pageOffer. rewrite Hparse; cbn [bind]. rewrite Hc; cbn [bind].
    now rewrite Harr.
  - assert (Hk : Engine.kept_of_page kept text).
    { destruct (keepItems_prefix _ _ _ _ Hkept) as (offer & n & Hoffer & ->).
      exists offer, n. split; [|reflexivity].
      unfold Engine.pageOffer. rewrite Hparse; cbn [bind]. rewrite Hc; cbn [bind].
      rewrite Harr; cbn [negb]. rewrite Hw; cbn [bind]. exact Hoffer. }
    destruct stop.
    + destruct Hend as (emit & _ & -> & _). cbn. now apply in_page_order_last.
    + destruct Hend as (next & Hn & ->). cbn.
      apply in_page_order_cons; [assumption | eapply Hagain; eassumption].
Qed.

Lemma fetchNextPage_in_page_order (world : list string) (apiKey context : value) :
  forall token o p o',
    Main.fetchNextPage world apiKey token context o = (Ok p, o') ->
    Engine.in_page_order world (Page.items p).
Proof.
  induction world as [|text rest IH]; intros token o p o' H; cbn [Main.fetchNextPage] in H;
    apply nextPage_inv in H as (response & o1 & Hpost & Hrun).
  - apply post_outcome in Hpost as (text & Htext & _). discriminate Htext.
  - pose proof (post_response _ _ _ _ Hpost) as Hparse.
    refine (page_run_order _ apiKey context text rest o1 response p o' Hparse _ Hrun).
    intros token' o0 p0 o0' H0. eapply IH; eassumption.
Qed.

(** C9. The items of a completed search are in retrieval order: after the
    responses that gave no document, the first page gives the first items
    of its offer, and the continuation pages fetched after it give theirs,
    page after page; the items kept from a page come before the items kept
    from the next one. *)
Theorem search_items_in_page_order (retries : nat) (world : list string)
    (searchString options : value) (r : Main.SearchResult)
    (Hdone : Main.fetchSearchResults retries world searchString options = Ok r) :
  exists opts skipped body rest first later,
    Utils.checkArgs searchString options = Ok opts
    /\ world = (skipped ++ body :: rest)%list
    /\ (exists offer n, Engine.firstOffer opts body = Ok offer /\ first = firstn n offer)
    /\ Engine.in_page_order rest later
    /\ Main.items r = (first ++ later)%list.
Proof.
  revert world Hdone. induction retries as [|retries IH]; intros world Hdone;
    cbn [Main.fetchSearchResults] in Hdone; [discriminate|].
  apply bind_ok in Hdone as (opts & Hargs & Hdone).
  destruct world as [|body rest]; [discriminate|].
  apply bind_ok in Hdone as (parsedResponse & Hbody & Hdone).
  destruct (negb (Js.truthy (Utils.json parsedResponse))).
  - destruct (IH rest Hdone)
      as (opts' & skipped & body' & rest' & first & later & Ha & -> & Hf & Hl & Hi).
    exists opts', (body :: skipped), body', rest', first, later.
    repeat split; assumption.
  - destruct (Main.firstPage (Main.fetchNextPage rest) parsedResponse opts)
      as [outcome o'] eqn:Hfirst.
    cbn [fst] in Hdone. subst outcome.
    apply firstPage_inv in Hfirst.
    destruct Hfirst as [search estimatedResults contents twoColumn primaryContents wrapper
                          limit kept o2 token emit stop
                          Hs He Hc Ht Hp Hw _ Hkept _ _ _ _ Hend].
    destruct (keepItems_prefix _ _ _ _ Hkept) as (offer & n & Hoffer & ->).
    assert (Hfo : Engine.firstOffer opts body = Ok offer).
    { unfold Engine.firstOffer. rewrite Hbody; cbn [bind]. rewrite Hs; cbn [bind].
      rewrite He; cbn [bind]. rewrite Hc; cbn [bind]. rewrite Ht; cbn [bind].
      rewrite Hp; cbn [bind]. rewrite Hw; cbn [bind]. exact Hoffer. }
    destruct stop.
    + destruct Hend as (Hi & _ & _).
      exists opts, [], body, rest, (firstn n offer), [].
      repeat split; try assumption.
      * exists offer, n. split; [assumption | reflexivity].
      * exists []. split; [reflexivity | constructor].
      * now rewrite app_nil_r.
    + destruct Hend as (next & Hn & Hi & _).
      exists opts, [], body, rest, (firstn n offer), (Page.items next).
      repeat split; try assumption.
      * exists offer, n. split; [assumption | reflexivity].
      * eapply fetchNextPage_in_page_order; eassumption.
Qed.

End PageOrder.

Lemma search_items_in_page_order_witness :
  exists r,
    @Main.fetchSearchResults Sample.builtins 3 ["no document"; Sample.body; "2"; "3"]
      (VStr "cats") (VObj [("pages", VNum (Fin 3))]) = Ok r
    /\ Main.items r = [VStr "a"; VStr "b"; VStr "c"; VStr "d"; VStr "e"]
    /\ exists opts skipped body rest first later,
         @Utils.checkArgs Sample.builtins (VStr "cats") (VObj [("pages", VNum (Fin 3))])
         = Ok opts
         /\ ["no document"; Sample.body; "2"; "3"] = (skipped ++ body :: rest)%list
         /\ (exists offer n,
               @Engine.firstOffer Sample.builtins opts body = Ok offer
               /\ first = firstn n offer)
         /\ @Engine.in_page_order Sample.builtins rest later
         /\ Main.items r = (first ++ later)%list.
Proof.
  destruct (@Main.fetchSearchResults Sample.builtins 3 ["no document"; Sample.body; "2"; "3"]
              (VStr "cats") (VObj [("pages", VNum (Fin 3))])) as [r|e] eqn:Hrun;
    [|vm_compute in Hrun; discriminate Hrun].
  exists r. split; [reflexivity|].
  split; [vm_compute in Hrun; injection Hrun as <-; reflexivity|].
  exact (@search_items_in_page_order Sample.builtins 3
           ["no document"; Sample.body; "2"; "3"]
           (VStr "cats") (VObj [("pages", VNum (Fin 3))]) r Hrun).
Defined.

(** ** The options object of a resumed search *)

Section ResumeWrites.
Context {B : Builtins}.

Lemma checkContinuation_inv (args a0 a1 a2 a3 : value) :
  Main.checkContinuation args = Ok (a0, a1, a2, a3) ->
  exists props, args = VArr [a0; a1; a2; a3] props /\ Engine.settable a3 = true.
Proof.
  unfold Main.checkContinuation.
  destruct args as [| | | | |elems props|]; try discriminate.
  destruct elems as [|b0 [|b1 [|b2 [|b3 [|b4 more]]]]]; try discriminate.
  destruct (negb (Js.truthy b0) || negb (Js.is_string_type b0)); [discriminate|].
  destruct (negb (Js.truthy b1) || negb (Js.is_string_type b1)); [discriminate|].
  destruct (negb (Js.truthy b2) || negb (Js.is_object_type b2)); [discriminate|].
  destruct (negb (Js.truthy b3) || negb (Js.is_object_type b3)) eqn:H3; [discriminate|].
  intros H. apply bind_ok in H as (limit & _ & H).
  destruct (_ && _) in H; [discriminate|]. injection H as <- <- <- <-.
  exists props. split; [reflexivity|].
  destruct b3; cbn in H3; rewrite ?orb_true_r in H3; try discriminate H3; reflexivity.
Qed.




End ResumeWrites.


(** ** The end-to-end example of the specification *)

(** Query [cats], item limit 5, one first-page response with eight items
    and no continuation marker: exactly five items and no continuation. *)
Example search_five_of_eight :
  exists r,
    @Main.fetchSearchResults (example_builtins (fun _ => Ok Sample.eightItems)) 3
      [Sample.body] (VStr "cats") (VObj [("limit", VNum (Fin 5))]) = Ok r
    /\ Main.items r = [VStr "1"; VStr "2"; VStr "3"; VStr "4"; VStr "5"]
    /\ Main.continuation r = VNull.
Proof. eexists. split; [vm_compute; reflexivity | split; reflexivity]. Qed.

(** Three responses without a document exhaust the retries. *)
Example search_without_document :
  @Main.fetchSearchResults Sample.builtins 3 ["a"; "b"; "c"; Sample.body]
    (VStr "cats") VUndef = Err NoDocumentFound.
Proof. vm_compute. reflexivity. Qed.

(** * Further properties of the code *)

(** ** The text that [cutAfterJSON] returns *)

Section CutShape.
Import Extractor Passing.

(** A scan that returns has read a prefix of its text, the last character
    of which closes the root, and what follows the prefix has no part in it. *)
Lemma scan_found_prefix open close s :
  forall i isString isEscaped n j,
    (1 <= n)%Z ->
    scanLoop open close s i isString isEscaped n = Found j ->
    exists body rest,
      s = ((body ++ String close "") ++ rest)%string
      /\ j = i + String.length body
      /\ forall rest',
           scanLoop open close ((body ++ String close "") ++ rest') i isString isEscaped n
           = Found j.
Proof.
  induction s as [|x s IH]; intros i isString isEscaped n j Hn H; cbn in H; [discriminate|].
  destruct (Ascii.eqb x dquote && negb isEscaped) eqn:Hq.
  - destruct (IH _ _ _ _ _ Hn H) as (body & rest & -> & -> & Hext).
    exists (String x body), rest. repeat split; [cbn [String.length]; lia|].
    intros rest'. cbn. rewrite Hq. apply Hext.
  - destruct isString.
    + destruct (IH _ _ _ _ _ Hn H) as (body & rest & -> & -> & Hext).
      exists (String x body), rest. repeat split; [cbn [String.length]; lia|].
      intros rest'. cbn. rewrite Hq. apply Hext.
    + destruct (Ascii.eqb x open) eqn:Ho.
      * destruct (Z.eqb_spec (n + 1) 0) as [|_]; [lia|].
        assert (H1 : (1 <= n + 1)%Z) by lia.
        destruct (IH _ _ _ _ _ H1 H) as (body & rest & -> & -> & Hext).
        exists (String x body), rest. repeat split; [cbn [String.length]; lia|].
        intros rest'. cbn. rewrite Hq, Ho.
        destruct (Z.eqb_spec (n + 1) 0) as [|_]; [lia|]. apply Hext.
      * destruct (Ascii.eqb_spec x close) as [->|Hc].
        -- destruct (Z.eqb_spec (n - 1) 0) as [Hz|Hz].
           ++ injection H as <-. exists "", s. repeat split; [cbn [String.length]; lia|].
              intros rest'. cbn. rewrite Hq, Ho, Ascii.eqb_refl.
              destruct (Z.eqb_spec (n - 1) 0); [reflexivity | contradiction].
           ++ assert (H1 : (1 <= n - 1)%Z) by lia.
              destruct (IH _ _ _ _ _ H1 H) as (body & rest & -> & -> & Hext).
              exists (String close body), rest. repeat split; [cbn [String.length]; lia|].
              intros rest'. cbn. rewrite Hq, Ho, Ascii.eqb_refl.
              destruct (Z.eqb_spec (n - 1) 0); [contradiction|]. apply Hext.
        -- destruct (Z.eqb_spec n 0) as [|_]; [lia|].
           destruct (IH _ _ _ _ _ Hn H) as (body & rest & -> & -> & Hext).
           exists (String x body), rest. repeat split; [cbn [String.length]; lia|].
           intros rest'. cbn. rewrite Hq, Ho.
           destruct (Ascii.eqb_spec x close) as [|_]; [contradiction|].
           destruct (Z.eqb_spec n 0) as [|_]; [lia|]. apply Hext.
Qed.

(** X1. Whatever text [cutAfterJSON] returns is a prefix of its input that
    opens with the root bracket and ends with the matching closing bracket,
    and it is returned again whatever follows it; in particular cutting the
    result again gives the result. *)
Theorem cutAfterJSON_result_shape (s r : string)
    (Hcut : cutAfterJSON s = Ok r) :
  exists open close body rest,
    bracket_pair open close
    /\ r = String open (body ++ String close "")
    /\ s = (r ++ rest)%string
    /\ forall rest', cutAfterJSON (r ++ rest') = Ok r.
Proof.
  unfold cutAfterJSON in Hcut.
  destruct (root_pair s) as [[open close]|] eqn:Hroot; [|discriminate].
  destruct (root_pair_first s open close Hroot) as [Hfirst Hp].
  destruct s as [|x s]; [discriminate|]. injection Hfirst as ->.
  destruct (scanLoop open close (String open s) 0 false false 0) as [j|c] eqn:Hscan;
    [|discriminate].
  assert (Hstep : scanLoop open close (String open s) 0 false false 0
                  = scanLoop open close s 1 false false 1)
    by (destruct Hp as [[-> ->]|[-> ->]]; reflexivity).
  rewrite Hstep in Hscan.
  destruct (scan_found_prefix open close s 1 false false 1%Z j ltac:(lia) Hscan)
    as (body & rest & -> & -> & Hext).
  assert (Hr : substring 0 (S (1 + String.length body))
                 (String open ((body ++ String close "") ++ rest))
               = String open (body ++ String close "")).
  { replace (S (1 + String.length body))
      with (String.length (String open (body ++ String close "")))
      by (cbn; rewrite app_length_str; cbn; lia).
    apply (substring_prefix (String open (body ++ String close "")) rest). }
  rewrite Hr in Hcut. injection Hcut as <-.
  exists open, close, body, rest. repeat split; [assumption|].
  intros rest'. unfold cutAfterJSON.
  assert (Hroot' : root_pair (String open (body ++ String close "") ++ rest')
                   = Some (open, close))
    by (destruct Hp as [[-> ->]|[-> ->]]; reflexivity).
  rewrite Hroot'.
  assert (Hstep' : scanLoop open close (String open (body ++ String close "") ++ rest')
                     0 false false 0
                   = scanLoop open close ((body ++ String close "") ++ rest') 1 false false 1)
    by (destruct Hp as [[-> ->]|[-> ->]]; reflexivity).
  rewrite Hstep', Hext. f_equal.
  replace (S (1 + String.length body))
    with (String.length (String open (body ++ String close "")))
    by (cbn; rewrite app_length_str; cbn; lia).
  apply substring_prefix.
Qed.

End CutShape.

Lemma cutAfterJSON_result_shape_witness :
  exists open close body rest,
    Passing.bracket_pair open close
    /\ "{[}" = String open (body ++ String close "")
    /\ "{[}]} tail" = ("{[}" ++ rest)%string
    /\ forall rest', Extractor.cutAfterJSON ("{[}" ++ rest') = Ok "{[}".
Proof.
  exact (cutAfterJSON_result_shape "{[}]} tail" "{[}" eq_refl).
Defined.

(** ** The cut of a page by the item budget *)

Section KeepExact.
Context {B : Builtins}.




End KeepExact.


(** ** Continuation items in batches *)

Section Batches.

Lemma later_marker_assoc (a b c : value) :
  More.later_marker a (More.later_marker b c)
  = More.later_marker (More.later_marker a b) c.
Proof. destruct c; reflexivity. Qed.

(** An entry adds to the items and to the continuation slot what it adds
    to empty ones. *)
Lemma page2Entry_acc (items : list value) (marker ci : value) :
  Utils.page2Entry (items, marker) ci
  = ('(added, found) <- Utils.page2Entry ([], VNull) ci ;;
     Ok ((items ++ added)%list, More.later_marker marker found)).
Proof.
  unfold Utils.page2Entry.
  destruct (Js.hasOwn ci "itemSectionRenderer") as [[|]|e] eqn:H1; cbn [bind];
    [| |reflexivity].
  - destruct (Js.get ci "itemSectionRenderer") as [v|e]; cbn [bind]; [|reflexivity].
    destruct (Js.get v "contents") as [w|e]; cbn [bind]; [|reflexivity].
    destruct (Utils.iterate w); reflexivity.
  - destruct (Js.hasOwn ci "richItemRenderer") as [[|]|e]; cbn [bind]; [| |reflexivity].
    + destruct (Js.get ci "richItemRenderer") as [v|e]; cbn [bind]; [|reflexivity].
      destruct (Js.get v "content"); reflexivity.
    + destruct (Js.hasOwn ci "richSectionRenderer") as [[|]|e]; cbn [bind]; [| |reflexivity].
      * destruct (Js.get ci "richSectionRenderer") as [v|e]; cbn [bind]; [|reflexivity].
        destruct (Js.get v "content"); reflexivity.
      * destruct (Js.hasOwn ci "continuationItemRenderer") as [[|]|e] eqn:H4; cbn [bind];
          [| |reflexivity].
        -- destruct ci; try discriminate H1; rewrite app_nil_r; reflexivity.
        -- rewrite app_nil_r. reflexivity.
Qed.

Lemma for_each_page2_acc (l : list value) :
  forall items marker,
    Utils.for_each Utils.page2Entry l (items, marker)
    = ('(added, found) <- Utils.for_each Utils.page2Entry l ([], VNull) ;;
       Ok ((items ++ added)%list, More.later_marker marker found)).
Proof.
  induction l as [|ci l IH]; intros items marker; cbn [Utils.for_each].
  - cbn. now rewrite app_nil_r.
  - rewrite (page2Entry_acc items marker ci).
    destruct (Utils.page2Entry ([], VNull) ci) as [[added found]|e]; cbn [bind];
      [|reflexivity].
    rewrite (IH (items ++ added)%list (More.later_marker marker found)).
    rewrite (IH added found).
    destruct (Utils.for_each Utils.page2Entry l ([], VNull)) as [[added' found']|e];
      cbn [bind]; [|reflexivity].
    now rewrite app_assoc, later_marker_assoc.
Qed.

Lemma for_each_app {A : Type} (body : A -> value -> result A) (l1 l2 : list value) :
  forall acc,
    Utils.for_each body (l1 ++ l2) acc
    = (acc' <- Utils.for_each body l1 acc ;; Utils.for_each body l2 acc').
Proof.
  induction l1 as [|x l1 IH]; intros acc; cbn; [reflexivity|].
  destruct (body acc x); cbn; [apply IH | reflexivity].
Qed.

(** X3. The continuation-page adapter works batch by batch: when it adapts
    two lists of continuation items, it adapts the two lists taken as one to
    the items of the first followed by the items of the second, with the
    continuation marker of the second if it has one and of the first
    otherwise (of several markers the last wins). *)
Theorem parsePage2Wrapper_app (l1 l2 : list value) (w1 w2 : Utils.Wrapper)
    (H1 : Utils.parsePage2Wrapper (arr l1) = Ok w1)
    (H2 : Utils.parsePage2Wrapper (arr l2) = Ok w2) :
  exists items1 items2,
    Utils.rawItems w1 = arr items1
    /\ Utils.rawItems w2 = arr items2
    /\ Utils.parsePage2Wrapper (arr (l1 ++ l2))
       = Ok {| Utils.rawItems := arr (items1 ++ items2);
               Utils.continuation :=
                 More.later_marker (Utils.continuation w1) (Utils.continuation w2) |}.
Proof.
  unfold Utils.parsePage2Wrapper in *. cbn [arr Utils.iterate bind] in *.
  destruct (Utils.for_each Utils.page2Entry l1 ([], VNull)) as [[items1 m1]|e] eqn:E1;
    [|discriminate]. cbn in H1. injection H1 as <-.
  destruct (Utils.for_each Utils.page2Entry l2 ([], VNull)) as [[items2 m2]|e] eqn:E2;
    [|discriminate]. cbn in H2. injection H2 as <-.
  exists items1, items2. repeat split.
  rewrite for_each_app, E1. cbn [bind].
  rewrite for_each_page2_acc, E2. reflexivity.
Qed.

End Batches.

Lemma parsePage2Wrapper_app_witness :
  exists items1 items2,
    arr [VStr "c"] = arr items1
    /\ arr [VStr "d"] = arr items2
    /\ Utils.parsePage2Wrapper
         (arr ([Sample.item "c"; Sample.marker "t1"] ++ [Sample.marker "t2"; Sample.item "d"]))
       = Ok {| Utils.rawItems := arr (items1 ++ items2);
               Utils.continuation :=
                 More.later_marker (Sample.marker "t1") (Sample.marker "t2") |}.
Proof.
  exact (parsePage2Wrapper_app
           [Sample.item "c"; Sample.marker "t1"] [Sample.marker "t2"; Sample.item "d"]
           {| Utils.rawItems := arr [VStr "c"]; Utils.continuation := Sample.marker "t1" |}
           {| Utils.rawItems := arr [VStr "d"]; Utils.continuation := Sample.marker "t2" |}
           eq_refl eq_refl).
Defined.

(** ** Responses without a document *)

Section Retries.
Context {B : Builtins}.

Lemma parseBody_total (body : string) (options : value) :
  options <> VNull ->
  exists decoded,
    Utils.parseBody body options = Ok decoded
    /\ Utils.json decoded
       = match Utils.jsonAfter body "var ytInitialData = " with
         | Ok found => found
         | Err _ => VNull
         end.
Proof.
  intros Hoptions. unfold Utils.parseBody.
  assert (H1 : Utils.or_empty options <> VUndef) by (destruct options; discriminate).
  assert (H2 : Utils.or_empty options <> VNull)
    by (destruct options; try discriminate; contradiction).
  set (opts := Utils.or_empty options) in *.
  assert (S0 : context_shape (Utils.json_copy Utils.DEFAULT_CONTEXT))
    by (do 3 eexists; reflexivity).
  cbn [Utils.json_roundtrip Utils.DEFAULT_CONTEXT bind].
  fold Utils.DEFAULT_CONTEXT.
  match goal with
  | |- context [Utils.set_in ?c0 "client" "clientVersion" ?v] =>
      destruct (set_client_shape c0 "clientVersion" v S0) as (c1 & -> & S1)
  end.
  cbn [bind].
  destruct (overlay_shape opts c1 "gl" H1 H2 S1) as (c2 & -> & S2). cbn [bind].
  destruct (overlay_shape opts c2 "hl" H1 H2 S2) as (c3 & -> & S3). cbn [bind].
  destruct (overlay_shape opts c3 "utcOffsetMinutes" H1 H2 S3) as (c4 & -> & S4). cbn [bind].
  destruct (get_defined opts "safeSearch" H1 H2) as [safe ->]. cbn [bind].
  destruct (Js.truthy safe).
  - destruct (set_user_shape c4 "enableSafetyMode" (VBool true) S4) as (c5 & -> & _).
    cbn [bind]. eexists. split; reflexivity.
  - cbn [bind]. eexists. split; reflexivity.
Qed.

Lemma checkArgs_object (searchString options opts : value) :
  Utils.checkArgs searchString options = Ok opts -> opts <> VNull.
Proof.
  intros H. destruct (checkArgs_limit _ _ _ H) as [Hs _].
  intros ->. discriminate Hs.
Qed.

(** X4. A first-page response in which no document is found costs the
    search one retry and nothing else: the search goes on with the next
    response as if it had been started with one retry less. After as many
    such responses as it has retries, it fails with [NoDocumentFound]. *)
Theorem search_retry_skips (n : nat) (bads rest : list string)
    (searchString options opts : value)
    (Hargs : Utils.checkArgs searchString options = Ok opts)
    (Hbad : Forall More.no_document bads) :
  Main.fetchSearchResults (List.length bads + n) (bads ++ rest) searchString options
  = Main.fetchSearchResults n rest searchString options
  /\ Main.fetchSearchResults (List.length bads) (bads ++ rest) searchString options
     = Err NoDocumentFound.
Proof.
  assert (Hskip : forall m,
             Main.fetchSearchResults (List.length bads + m) (bads ++ rest) searchString options
             = Main.fetchSearchResults m rest searchString options).
  { intros m. induction Hbad as [|body bads Hb _ IH]; [reflexivity|].
    cbn [List.length Nat.add app Main.fetchSearchResults].
    rewrite Hargs. cbn [bind].
    destruct (parseBody_total body opts (checkArgs_object _ _ _ Hargs)) as (decoded & -> & Hj).
    cbn [bind]. rewrite Hj. unfold More.no_document in Hb. rewrite Hb. exact IH. }
  split; [apply Hskip|].
  specialize (Hskip 0). rewrite Nat.add_0_r in Hskip. exact Hskip.
Qed.

(** X5. [getFilters] has no cap on its retries: however many responses
    without a document come first, it goes on with the response after them. *)
Theorem getFilters_skips (bads rest : list string) (searchString options opts : value)
    (Hargs : Utils.checkArgs searchString options = Ok opts)
    (Hbad : Forall More.no_document bads) :
  Main.getFilters (bads ++ rest) searchString options
  = Main.getFilters rest searchString options.
Proof.
  induction Hbad as [|body bads Hb _ IH]; [reflexivity|].
  cbn [app Main.getFilters]. rewrite Hargs. cbn [bind].
  destruct (parseBody_total body VUndef ltac:(discriminate)) as (decoded & -> & Hj).
  cbn [bind]. rewrite Hj. unfold More.no_document in Hb. rewrite Hb. exact IH.
Qed.

End Retries.

Lemma search_retry_skips_witness :
  @Main.fetchSearchResults Sample.builtins (2 + 1) (["<html>"; "var ytInitialData = {"] ++ [Sample.body])
    (VStr "cats") VUndef
  = @Main.fetchSearchResults Sample.builtins 1 [Sample.body] (VStr "cats") VUndef
  /\ @Main.fetchSearchResults Sample.builtins 2 (["<html>"; "var ytInitialData = {"] ++ [Sample.body])
       (VStr "cats") VUndef
     = Err NoDocumentFound.
Proof.
  refine (@search_retry_skips Sample.builtins 1 ["<html>"; "var ytInitialData = {"]
            [Sample.body] (VStr "cats") VUndef _ _ _).
  - vm_compute. reflexivity.
  - repeat constructor.
Defined.

Lemma getFilters_skips_witness :
  @Main.getFilters Sample.builtins
    (["<html>"; "<html>"; "<html>"; "<html>"; "<html>"] ++ [Sample.body]) (VStr "cats") VUndef
  = @Main.getFilters Sample.builtins [Sample.body] (VStr "cats") VUndef.
Proof.
  refine (@getFilters_skips Sample.builtins ["<html>"; "<html>"; "<html>"; "<html>"; "<html>"]
            [Sample.body] (VStr "cats") VUndef _ _ _).
  - vm_compute. reflexivity.
  - repeat constructor.
Defined.

(** ** The page budget *)

Section PageBudget.
Context {B : Builtins}.

Lemma mbind_ext {A C : Type} (m : M A) (f1 f2 : A -> M C) (o : value) :
  (forall a o1, m o = (Ok a, o1) -> f1 a o1 = f2 a o1) ->
  mbind m f1 o = mbind m f2 o.
Proof.
  intros H. unfold mbind. destruct (m o) as [[a|e] o1]; [now apply H | reflexivity].
Qed.

Lemma spend_pages (n : nat) (o o' : value) (P : Z) :
  Engine.settable o = true ->
  Js.get o "pages" = Ok (VNum (Fin P)) ->
  Main.spend n o = (Ok tt, o') ->
  Engine.settable o' = true /\ Js.get o' "pages" = Ok (VNum (Fin (P - 1))).
Proof.
  intros Hs Hp H.
  apply spend_inv in H as (limit & pages & oa & G1 & G2 & G3 & G4).
  assert (Hsa : Engine.settable oa = true)
    by (destruct o; try discriminate Hs; injection G2 as <-; reflexivity).
  rewrite (get_set_other o oa "limit" "pages" _ ltac:(discriminate) G2), Hp in G3.
  injection G3 as <-. cbn in G4.
  destruct (get_set_same oa o' "pages" _ Hsa ltac:(discriminate) G4) as [Hp' Hs'].
  split; assumption.
Qed.

(** The body of [fetchNextPage] calls itself only with a page left. *)
Lemma nextPage_again_ext (again1 again2 : value -> M Page.t)
    (responseText : result string) (apiKey token context o : value) (P : Z) :
  Engine.settable o = true ->
  Js.get o "pages" = Ok (VNum (Fin P)) ->
  (forall nextToken o2,
      Engine.settable o2 = true ->
      Js.get o2 "pages" = Ok (VNum (Fin (P - 1))) ->
      (1 <= P - 1)%Z ->
      again1 nextToken o2 = again2 nextToken o2) ->
  Main.nextPage again1 responseText apiKey token context o
  = Main.nextPage again2 responseText apiKey token context o.
Proof.
  intros Hs Hp Hagain. unfold Main.nextPage.
  apply mbind_ext. intros response o1 Hpost.
  destruct (post_frame _ _ _ _ Hpost) as [Hs1 Hf].
  rewrite <- (Hf "pages") in Hp by discriminate. rewrite <- Hs1 in Hs.
  apply mbind_ext. intros commands s Hc. apply lift_inv in Hc as [_ ->].
  destruct (negb (Js.isArray commands)); [reflexivity|].
  apply mbind_ext. intros wrapper s Hw. apply lift_inv in Hw as [_ ->].
  apply mbind_ext. intros limit s Hl. apply options_get_inv in Hl as [_ ->].
  apply mbind_ext. intros kept s Hk. apply lift_inv in Hk as [_ ->].
  apply mbind_ext. intros [] o2 Hsp.
  destruct (spend_pages _ _ _ P Hs Hp Hsp) as [Hs2 Hp2].
  apply mbind_ext. intros nextToken s Ht. apply lift_inv in Ht as [_ ->].
  apply mbind_ext. intros stop s Hfin.
  apply finished_inv in Hfin as (-> & limit2 & pages2 & _ & F2 & Hstop).
  destruct stop; [reflexivity|].
  rewrite Hp2 in F2. injection F2 as <-.
  symmetry in Hstop. apply orb_false_iff in Hstop as [_ Hstop].
  cbn in Hstop. apply Z.ltb_ge in Hstop.
  unfold mbind. rewrite (Hagain nextToken o2 Hs2 Hp2 Hstop). reflexivity.
Qed.

(** X6. A fetch with a budget of [P] pages, [P] at least one, takes at
    most [P] responses from the transport: its outcome and the options it
    leaves are the same whatever responses would follow the first [P]. *)
Theorem fetchNextPage_page_budget (w1 w2 : list string) (apiKey context : value) :
  forall (token o : value),
    Engine.settable o = true ->
    Js.get o "pages" = Ok (VNum (Fin (Z.of_nat (List.length w1)))) ->
    1 <= List.length w1 ->
    Main.fetchNextPage (w1 ++ w2) apiKey token context o
    = Main.fetchNextPage w1 apiKey token context o.
Proof.
  induction w1 as [|text w1 IH]; intros token o Hs Hp Hlen; [cbn in Hlen; lia|].
  cbn [app Main.fetchNextPage].
  apply (nextPage_again_ext _ _ _ _ _ _ _ (Z.of_nat (List.length (text :: w1))) Hs Hp).
  intros nextToken o2 Hs2 Hp2 Hleft. cbn [List.length] in Hp2, Hleft.
  apply IH; [assumption | | lia].
  rewrite Hp2. do 3 f_equal. lia.
Qed.

End PageBudget.

Lemma fetchNextPage_page_budget_witness :
  @Main.fetchNextPage Sample.builtins (["2"] ++ ["3"]) (VStr "key") (VStr "t1") (VObj [])
    (VObj [("limit", VNum PInf); ("pages", VNum (Fin 1))])
  = @Main.fetchNextPage Sample.builtins ["2"] (VStr "key") (VStr "t1") (VObj [])
      (VObj [("limit", VNum PInf); ("pages", VNum (Fin 1))]).
Proof.
  refine (@fetchNextPage_page_budget Sample.builtins ["2"] ["3"] (VStr "key") (VObj [])
            (VStr "t1") (VObj [("limit", VNum PInf); ("pages", VNum (Fin 1))]) _ _ _).
  - reflexivity.
  - reflexivity.
  - cbn. lia.
Defined.

(** ** The continuation a fetch emits *)

Section Emitted.
Context {B : Builtins}.

Lemma spend_settable (n : nat) (o o' : value) :
  Engine.settable o = true -> Main.spend n o = (Ok tt, o') -> Engine.settable o' = true.
Proof.
  intros Hs H.
  apply spend_inv in H as (limit & pages & oa & _ & G2 & _ & G4).
  destruct o; try discriminate Hs; injection G2 as <-; injection G4 as <-; reflexivity.
Qed.

Lemma fetchNextPage_emits (world : list string) (apiKey context : value) :
  forall token o p o',
    Engine.settable o = true ->
    Main.fetchNextPage world apiKey token context o = (Ok p, o') ->
    Engine.settable o' = true
    /\ (Page.continuation p = VNull
        \/ More.descriptor_of apiKey context o' (Page.continuation p)).
Proof.
  induction world as [|text rest IH]; intros token o p o' Hs H; cbn [Main.fetchNextPage] in H;
    apply nextPage_inv in H as (response & o1 & Hpost & Hrun).
  - apply post_outcome in Hpost as (text & Htext & _). discriminate Htext.
  - destruct (post_frame _ _ _ _ Hpost) as [Hs1 _]. rewrite <- Hs1 in Hs.
    destruct Hrun as [commands _ _ -> ->
                     |commands wrapper limit kept o2 nextToken stop _ _ _ _ _ Hsp _ Hfin Hend].
    + split; [assumption | left; reflexivity].
    + pose proof (spend_settable _ _ _ Hs Hsp) as Hs2.
      destruct stop.
      * destruct Hend as (emit & He & -> & ->). split; [assumption|]. cbn.
        apply resumable_inv in He as (_ & limit2 & Hl2 & ->).
        apply finished_inv in Hfin as (_ & limit3 & pages & F1 & F2 & Hstop).
        destruct (Js.truthy nextToken) eqn:Htok; [|left; reflexivity].
        destruct limit2 as [| | |[| | |z]| | |]; try (left; reflexivity).
        right. exists nextToken, pages. repeat split; try assumption.
        rewrite Hl2 in F1. injection F1 as <-. cbn in Hstop. now symmetry.
      * destruct Hend as (next & Hn & ->). cbn. eapply IH; eassumption.
Qed.

(** X7. When a fetch returns a continuation, it is the array of its own
    credential and context, a token, and the options object as the fetch
    has left it, with an unbounded item budget and no page left; and when
    the credential is a non-empty string, the token a string and the
    context an object, the checks of [continueRequest] accept it. *)
Theorem fetchNextPage_continuation_resumable (world : list string)
    (key : string) (token context o : value) (p : Page.t) (o' : value)
    (Hkey : key <> "")
    (Hcontext : Engine.settable context = true)
    (Hoptions : Engine.settable o = true)
    (Hrun : Main.fetchNextPage world (VStr key) token context o = (Ok p, o'))
    (Hemitted : Page.continuation p <> VNull) :
  More.descriptor_of (VStr key) context o' (Page.continuation p)
  /\ forall nextToken,
       Page.continuation p = arr [VStr key; nextToken; context; o'] ->
       Js.is_string_type nextToken = true ->
       Main.checkContinuation (Page.continuation p) = Ok (VStr key, nextToken, context, o').
Proof.
  destruct (fetchNextPage_emits _ _ _ _ _ _ _ Hoptions Hrun) as [Hs' [Hnull|Hd]];
    [contradiction|].
  split; [exact Hd|].
  intros nextToken Heq Hstring.
  destruct Hd as (token' & pages & Heq' & Htruthy & Hlimit & _ & _).
  rewrite Heq in Heq'. injection Heq' as <-.
  rewrite Heq. unfold Main.checkContinuation, arr.
  assert (Hk : Js.truthy (VStr key) = true)
    by (cbn; apply negb_true_iff, String.eqb_neq; exact Hkey).
  rewrite Hk, Htruthy, Hstring. cbn [negb orb Js.is_string_type Js.typeof].
  assert (Hc : Js.truthy context = true /\ Js.is_object_type context = true)
    by (destruct context; try discriminate Hcontext; split; reflexivity).
  assert (Ho : Js.truthy o' = true /\ Js.is_object_type o' = true)
    by (destruct o'; try discriminate Hs'; split; reflexivity).
  destruct Hc as [-> ->], Ho as [-> ->]. cbn [negb orb].
  rewrite Hlimit. reflexivity.
Qed.

End Emitted.

Lemma fetchNextPage_continuation_resumable_witness :
  let o' := VObj [("limit", VNum PInf); ("pages", VNum (Fin 0))] in
  @More.descriptor_of Sample.builtins (VStr "key") (VObj []) o'
    (arr [VStr "key"; VStr "t2"; VObj []; o'])
  /\ @Main.checkContinuation Sample.builtins (arr [VStr "key"; VStr "t2"; VObj []; o'])
     = Ok (VStr "key", VStr "t2", VObj [], o').
Proof.
  intros o'.
  destruct (@fetchNextPage_continuation_resumable Sample.builtins ["2"; "3"] "key"
              (VStr "t1") (VObj []) (VObj [("limit", VNum PInf); ("pages", VNum (Fin 1))])
              {| Page.continuation := arr [VStr "key"; VStr "t2"; VObj []; o'];
                 Page.items := [VStr "c"; VStr "d"] |}
              o' ltac:(discriminate) eq_refl eq_refl eq_refl ltac:(discriminate))
    as [Hd Hc].
  split; [exact Hd|].
  exact (Hc (VStr "t2") eq_refl eq_refl).
Defined.

(** ** The budgets after [checkArgs] *)

Section Normalized.
Context {B : Builtins}.

Lemma set_keeps (o o' : value) (k k' : string) (v : value) :
  k' <> k -> Engine.settable o = true -> Js.set o k v = Ok o' ->
  Engine.settable o' = true /\ Js.get o' k' = Js.get o k'.
Proof.
  intros Hk Hs H. split.
  - destruct o; try discriminate Hs; injection H as <-; reflexivity.
  - eapply get_set_other; eassumption.
Qed.

Lemma positive_number (n : num) :
  Num.is_nan n = false -> Num.le n (Fin 0) = false -> Num.lt (Fin 0) n = true.
Proof.
  destruct n; cbn; try discriminate; try reflexivity.
  intros _ H. apply Z.leb_gt in H. now apply Z.ltb_lt.
Qed.

Lemma normalizeBudgets_inv (obj obj1 : value) :
  Engine.settable obj = true ->
  Utils.normalizeBudgets obj = Ok obj1 ->
  Engine.settable obj1 = true
  /\ (exists limit, Js.get obj1 "limit" = Ok limit /\ Num.lt (Fin 0) (ToNumber limit) = true)
  /\ (forall P, Js.get obj1 "pages" = Ok (VNum (Fin P)) -> (1 <= P)%Z ->
        Js.get obj1 "limit" = Ok (VNum PInf)).
Proof.
  intros Hs H. unfold Utils.normalizeBudgets in H.
  apply bind_ok in H as (pages & Hp & H).
  destruct (negb (isNaN pages) && Num.lt (Fin 0) (ToNumber pages)) eqn:Hc1.
  - destruct (get_set_same obj obj1 "limit" _ Hs ltac:(discriminate) H) as [Hl Hs1].
    split; [assumption|]. split; [exists (VNum PInf); split; [assumption | reflexivity]|].
    intros _ _ _. exact Hl.
  - apply bind_ok in H as (limit & Hl & H).
    destruct (isNaN limit || Num.le (ToNumber limit) (Fin 0)) eqn:Hc2.
    + apply bind_ok in H as (obj' & Hp' & H).
      apply bind_ok in H as (defaultLimit & Hd & H). injection Hd as <-.
      destruct (get_set_same obj obj' "pages" _ Hs ltac:(discriminate) Hp') as [Hpg Hs'].
      destruct (get_set_same obj' obj1 "limit" _ Hs' ltac:(discriminate) H) as [Hl1 Hs1].
      split; [assumption|].
      split; [exists (VNum (Fin 100)); split; [assumption | reflexivity]|].
      intros P HP _.
      rewrite (get_set_other obj' obj1 "limit" "pages" _ ltac:(discriminate) H), Hpg in HP.
      discriminate HP.
    + injection H as <-. split; [assumption|]. split.
      * exists limit. split; [assumption|].
        apply orb_false_iff in Hc2 as [Hn Hle]. now apply positive_number.
      * intros P HP HP1. rewrite Hp in HP. injection HP as ->.
        cbn in Hc1. apply Z.ltb_ge in Hc1. lia.
Qed.

(** X8. The budgets that [checkArgs] hands to the engine: the item limit
    in force is always a positive number or unbounded, never zero, negative
    or [NaN]; whenever the page count in force is a positive finite number
    the item limit is unbounded; and the safe-search flag is a boolean. *)
Theorem checkArgs_budgets (searchString options opts : value)
    (Hargs : Utils.checkArgs searchString options = Ok opts) :
  (exists limit, Js.get opts "limit" = Ok limit /\ Num.lt (Fin 0) (ToNumber limit) = true)
  /\ (forall P, Js.get opts "pages" = Ok (VNum (Fin P)) -> (1 <= P)%Z ->
        Js.get opts "limit" = Ok (VNum PInf))
  /\ (exists flag, Js.get opts "safeSearch" = Ok (VBool flag)).
Proof.
  unfold Utils.checkArgs in Hargs.
  destruct (negb (Js.truthy searchString)); [discriminate|].
  destruct searchString as [| | | |search| |]; try discriminate.
  apply bind_ok in Hargs as (obj1 & Hn & H).
  destruct (normalizeBudgets_inv (VObj _) obj1 eq_refl Hn) as (Hs1 & Hlimit & Hpages).
  apply bind_ok in H as (safeSearch & Hsafe & H).
  apply bind_ok in H as (obj2 & H2 & H).
  assert (Engine.settable obj2 = true
          /\ Js.get obj2 "limit" = Js.get obj1 "limit"
          /\ Js.get obj2 "pages" = Js.get obj1 "pages"
          /\ exists flag, Js.get obj2 "safeSearch" = Ok (VBool flag))
    as (Hs2 & Hl2 & Hp2 & Hf2).
  { destruct safeSearch;
      try (destruct (get_set_same obj1 obj2 "safeSearch" _ Hs1 ltac:(discriminate) H2)
             as [Hg Hs];
           split; [assumption|];
           split; [eapply get_set_other; [|eassumption]; discriminate|];
           split; [eapply get_set_other; [|eassumption]; discriminate|];
           eexists; eassumption).
    injection H2 as <-. repeat split; try assumption. eexists; eassumption. }
  apply bind_ok in H as (safeSearch' & _ & H).
  apply bind_ok in H as (requestOptions & _ & H).
  apply bind_ok in H as (obj3 & H3 & H).
  apply bind_ok in H as (query & _ & H).
  apply bind_ok in H as (obj3' & H3' & H).
  apply bind_ok in H as (searchTerm & _ & H).
  apply bind_ok in H as (obj4 & H4 & H).
  apply bind_ok in H as (gl & _ & H).
  apply bind_ok in H as (query1 & _ & H).
  apply bind_ok in H as (hl & _ & H).
  apply bind_ok in H as (query2 & _ & H).
  assert (Hsame : forall k, k = "limit" \/ k = "pages" \/ k = "safeSearch" ->
                    Js.get opts k = Js.get obj2 k).
  { intros k Hk.
    assert (Hk1 : k <> "requestOptions") by (destruct Hk as [->|[->| ->]]; discriminate).
    assert (Hk2 : k <> "query") by (destruct Hk as [->|[->| ->]]; discriminate).
    assert (Hk3 : k <> "search") by (destruct Hk as [->|[->| ->]]; discriminate).
    destruct (set_keeps obj2 obj3 "requestOptions" k _ Hk1 Hs2 H3) as [Hs3 E3].
    destruct (set_keeps obj3 obj3' "query" k _ Hk2 Hs3 H3') as [Hs3' E3'].
    destruct (set_keeps obj3' obj4 "search" k _ Hk3 Hs3' H4) as [Hs4 E4].
    destruct (set_keeps obj4 opts "query" k _ Hk2 Hs4 H) as [_ E5].
    congruence. }
  rewrite !Hsame by tauto. rewrite Hl2.
  split; [exact Hlimit|]. split; [|exact Hf2].
  intros P HP HP1. rewrite Hp2 in HP. exact (Hpages P HP HP1).
Qed.

End Normalized.

Lemma checkArgs_budgets_witness :
  exists opts,
    @Utils.checkArgs Sample.builtins (VStr "cats")
      (VObj [("limit", VNum (Fin 5)); ("pages", VNum (Fin 2)); ("safeSearch", VStr "yes")])
    = Ok opts
    /\ Js.get opts "limit" = Ok (VNum PInf)
    /\ Js.get opts "safeSearch" = Ok (VBool false).
Proof.
  destruct (@Utils.checkArgs Sample.builtins (VStr "cats")
              (VObj [("limit", VNum (Fin 5)); ("pages", VNum (Fin 2));
                     ("safeSearch", VStr "yes")])) as [opts|e] eqn:Hargs;
    [|vm_compute in Hargs; discriminate Hargs].
  destruct (@checkArgs_budgets Sample.builtins _ _ opts Hargs) as (_ & Hpages & _).
  exists opts. split; [reflexivity|]. split.
  - apply (Hpages 2%Z); [|lia].
    vm_compute in Hargs. injection Hargs as <-. reflexivity.
  - vm_compute in Hargs. injection Hargs as <-. reflexivity.
Defined.

(** ** The filters of a catalog *)

Section CatalogInvariant.
Context {B : Builtins}.

Lemma map_set_in {V : Type} (k : value) (v : V) (m : list (value * V)) (k' : value) (v' : V) :
  In (k', v') (Utils.map_set k v m) -> (k', v') = (k, v) \/ In (k', v') m.
Proof.
  induction m as [|[k0 v0] m IH]; cbn.
  - intros [H|[]]. now left.
  - destruct (Utils.same_key k k0); cbn.
    + intros [H|H]; [now left | now right; right].
    + intros [H|H]; [now right; left|].
      destruct (IH H) as [H'|H']; [now left | now right; right].
Qed.

Lemma parseFilter_ok (group group' : Utils.FilterGroup) (filter : value) :
  More.group_ok group ->
  Utils.parseFilter group filter = Ok group' ->
  More.group_ok group'.
Proof.
  intros [Hactive Hentries] H. unfold Utils.parseFilter in H.
  apply bind_ok in H as (renderer & _ & H).
  apply bind_ok in H as (navigationEndpoint & _ & H).
  apply bind_ok in H as (label & _ & H).
  apply bind_ok in H as (parsedName & _ & H).
  apply bind_ok in H as (parsedUrl & Hurl & H).
  apply bind_ok in H as (tooltip & _ & H).
  injection H as <-.
  assert (Hf : More.filter_ok
                 {| Utils.name := parsedName;
                    Utils.active := negb (Js.truthy navigationEndpoint);
                    Utils.url := parsedUrl;
                    Utils.description := tooltip |}).
  { unfold More.filter_ok. cbn.
    destruct (Js.truthy navigationEndpoint); cbn in *.
    - right. split; [reflexivity|].
      apply bind_ok in Hurl as (c & _ & Hurl). apply bind_ok in Hurl as (w & _ & Hurl).
      apply bind_ok in Hurl as (t & _ & Hurl). apply bind_ok in Hurl as (u & _ & Hurl).
      injection Hurl as <-. eauto.
    - left. injection Hurl as <-. split; reflexivity. }
  split; cbn.
  - intros f. destruct (negb (Js.truthy navigationEndpoint)) eqn:Hset.
    + intros [= <-]. cbn. injection Hurl as <-. split; reflexivity.
    + apply Hactive.
  - intros k f Hin. apply map_set_in in Hin as [[= -> ->]|Hin].
    + split; [reflexivity | exact Hf].
    + now apply Hentries.
Qed.

Lemma for_each_filters_ok (filters : list value) :
  forall group group',
    More.group_ok group ->
    Utils.for_each Utils.parseFilter filters group = Ok group' ->
    More.group_ok group'.
Proof.
  induction filters as [|filter filters IH]; intros group group' Hok H; cbn in H.
  - now injection H as <-.
  - apply bind_ok in H as (group1 & H1 & H).
    eapply IH; [|exact H]. eapply parseFilter_ok; eassumption.
Qed.

Lemma parseFilterGroup_ok (catalog catalog' : Utils.Catalog) (filterGroup : value) :
  (forall category group, In (category, group) catalog -> More.group_ok group) ->
  Utils.parseFilterGroup catalog filterGroup = Ok catalog' ->
  forall category group, In (category, group) catalog' -> More.group_ok group.
Proof.
  intros Hok H category group Hin. unfold Utils.parseFilterGroup in H.
  apply bind_ok in H as (renderer & _ & H).
  apply bind_ok in H as (filters & _ & H).
  apply bind_ok in H as (filterList & _ & H).
  apply bind_ok in H as (single & Hsingle & H).
  apply bind_ok in H as (renderer' & _ & H).
  apply bind_ok in H as (title & _ & H).
  apply bind_ok in H as (name & _ & H).
  injection H as <-.
  apply map_set_in in Hin as [[= -> ->]|Hin]; [|eapply Hok; eassumption].
  eapply for_each_filters_ok; [|exact Hsingle].
  split; cbn; [discriminate | intros k f []].
Qed.

Lemma for_each_groups_ok (groups : list value) :
  forall catalog catalog',
    (forall category group, In (category, group) catalog -> More.group_ok group) ->
    Utils.for_each Utils.parseFilterGroup groups catalog = Ok catalog' ->
    forall category group, In (category, group) catalog' -> More.group_ok group.
Proof.
  induction groups as [|g groups IH]; intros catalog catalog' Hok H; cbn in H.
  - now injection H as <-.
  - apply bind_ok in H as (catalog1 & H1 & H).
    eapply IH; [|exact H]. eapply parseFilterGroup_ok; eassumption.
Qed.

(** X9. In every catalog that [parseFilters] returns, a filter is active
    exactly when it has no url: an active filter has url [null], an inactive
    one the string of its resolved navigation target; every filter is filed
    under its own name; and the active entry of a group, if it has one, is
    an active filter. *)
Theorem parseFilters_catalog_ok (doc : value) (catalog : Utils.Catalog)
    (Hparse : Utils.parseFilters doc = Ok catalog) :
  forall category group, In (category, group) catalog -> More.group_ok group.
Proof.
  rewrite parseFilters_reads in Hparse.
  apply bind_ok in Hparse as (primaryContents & _ & H).
  apply bind_ok in H as (wrapper & _ & H).
  apply bind_ok in H as (menu & _ & H).
  apply bind_ok in H as (groups & _ & H).
  apply bind_ok in H as (filterWrapper & _ & H).
  apply bind_ok in H as (groupList & _ & H).
  eapply for_each_groups_ok; [|exact H]. intros category group [].
Qed.

End CatalogInvariant.

Lemma parseFilters_catalog_ok_witness :
  exists video channel,
    @Utils.parseFilters Sample.builtins Sample.filterDocument
    = Ok [(VStr "Type",
           {| Utils.group_active := Some video;
              Utils.group_entries := [(VStr "Video", video); (VStr "Channel", channel)] |})]
    /\ Utils.url video = VNull
    /\ More.filter_ok channel.
Proof.
  pose (video := {| Utils.name := VStr "Video"; Utils.active := true;
                    Utils.url := VNull; Utils.description := VUndef |}).
  pose (channel := {| Utils.name := VStr "Channel"; Utils.active := false;
                      Utils.url := VStr Utils.BASE_URL; Utils.description := VUndef |}).
  exists video, channel.
  assert (Hparse :
    @Utils.parseFilters Sample.builtins Sample.filterDocument
    = Ok [(VStr "Type",
           {| Utils.group_active := Some video;
              Utils.group_entries := [(VStr "Video", video); (VStr "Channel", channel)] |})])
    by (vm_compute; reflexivity).
  split; [exact Hparse|].
  destruct (@parseFilters_catalog_ok Sample.builtins _ _ Hparse (VStr "Type") _
              (or_introl eq_refl)) as [Hactive Hentries].
  split.
  - exact (proj2 (Hactive video eq_refl)).
  - exact (proj2 (Hentries (VStr "Channel") channel (or_intror (or_introl eq_refl)))).
Defined.

(** ** The text between two delimiters *)

Section Between.

Lemma split_prefix (s1 s : string) :
  substring 0 (String.length s1) s = s1 ->
  s = (s1 ++ slice_from (String.length s1) s)%string.
Proof.
  revert s. induction s1 as [|c s1 IH]; intros s H; [reflexivity|].
  destruct s as [|d s]; [discriminate|].
  cbn in H. injection H as -> H. cbn. f_equal. now apply IH.
Qed.

Lemma split_at (s1 s : string) :
  forall m,
    substring m (String.length s1) s = s1 ->
    s = (substring 0 m s ++ s1 ++ slice_from (m + String.length s1) s)%string.
Proof.
  induction s as [|c s IH]; intros m H.
  - destruct m, s1; cbn in *; try discriminate; reflexivity.
  - destruct m as [|m].
    + cbn [substring Nat.add append]. now apply split_prefix.
    + cbn [substring] in H. cbn. f_equal. now apply IH.
Qed.

Lemma slice_from_add (n m : nat) (s : string) :
  slice_from (n + m) s = slice_from m (slice_from n s).
Proof.
  revert s. induction n as [|n IH]; intros s; [reflexivity|].
  destruct s as [|c s]; cbn; [now destruct m | apply IH].
Qed.

(** X10. A result of [between] that is not empty stands in the haystack
    between the two delimiters: the haystack is some text, the left
    delimiter, the result, the right delimiter and some text; the left
    delimiter does not occur earlier, and the right delimiter does not begin
    inside the result. *)
Theorem between_enclosed (haystack left right : string)
    (Hfound : Utils.between haystack left right <> "") :
  exists pre post,
    haystack
    = (pre ++ left ++ Utils.between haystack left right ++ right ++ post)%string
    /\ (forall p, p < String.length pre -> substring p (String.length left) haystack <> left)
    /\ (forall p, p < String.length (Utils.between haystack left right) ->
          substring p (String.length right) (Utils.between haystack left right ++ right ++ post)
          <> right).
Proof.
  unfold Utils.between in *. unfold indexOf in *.
  destruct (index 0 left haystack) as [start|] eqn:Hl; [|contradiction].
  set (tail := slice_from (start + String.length left) haystack) in *.
  destruct (index 0 right tail) as [stop|] eqn:Hr; [|contradiction].
  pose proof (split_at left haystack start (index_correct1 _ _ _ _ Hl)) as Hh.
  pose proof (split_at right tail stop (index_correct1 _ _ _ _ Hr)) as Ht.
  fold tail in Hh.
  assert (Hlen : forall (s : string) n, n <= String.length s ->
                   String.length (substring 0 n s) = n).
  { induction s as [|c s IH]; intros [|n] Hn; cbn in *; try lia; try reflexivity.
    rewrite IH; lia. }
  assert (Hbound : forall (s1 s : string) m,
             s1 <> "" -> substring m (String.length s1) s = s1 -> m <= String.length s).
  { intros s1 s. induction s as [|c s IH]; intros [|m] Hne H; cbn in *; try lia.
    - destruct s1; [contradiction | discriminate].
    - specialize (IH m Hne H). lia. }
  exists (substring 0 start haystack), (slice_from (stop + String.length right) tail).
  split; [|split].
  - rewrite <- Ht. exact Hh.
  - intros p Hp.
    apply (index_correct2 _ _ _ _ Hl); [lia|].
    destruct (Nat.le_gt_cases start (String.length haystack)) as [Hle|Hgt].
    + rewrite Hlen in Hp by assumption. exact Hp.
    + assert (String.length (substring 0 start haystack) <= String.length haystack).
      { clear. revert start. induction haystack as [|c s IH]; intros [|n]; cbn; try lia.
        specialize (IH n). lia. }
      lia.
  - intros p Hp. rewrite <- Ht.
    apply (index_correct2 _ _ _ _ Hr); [lia|].
    destruct (Nat.le_gt_cases stop (String.length tail)) as [Hle|Hgt].
    + rewrite Hlen in Hp by assumption. exact Hp.
    + assert (String.length (substring 0 stop tail) <= String.length tail).
      { clear. revert stop. induction tail as [|c s IH]; intros [|n]; cbn; try lia.
        specialize (IH n). lia. }
      lia.
Qed.

End Between.

Lemma between_enclosed_witness :
  exists pre post,
    ("x INNERTUBE_API_KEY:k1, INNERTUBE_API_KEY:k2, y"
     = pre ++ "INNERTUBE_API_KEY:" ++ "k1" ++ "," ++ post)%string
    /\ (forall p, p < String.length pre ->
          substring p (String.length "INNERTUBE_API_KEY:")
                    "x INNERTUBE_API_KEY:k1, INNERTUBE_API_KEY:k2, y"
          <> "INNERTUBE_API_KEY:")
    /\ (forall p, p < String.length "k1" ->
          substring p (String.length ",") ("k1" ++ "," ++ post) <> ",").
Proof.
  exact (between_enclosed "x INNERTUBE_API_KEY:k1, INNERTUBE_API_KEY:k2, y"
           "INNERTUBE_API_KEY:" "," ltac:(discriminate)).
Defined.

(** ** The document after an anchor *)

Section AfterAnchor.
Context {B : Builtins}.

(** X11. When the text after the first occurrence of the anchor begins
    with a well-formed JSON array or object [V], [jsonAfter] hands exactly
    [V] to the parser, whatever follows [V]: it returns what [V] parses to,
    and [null] if the parser refuses [V]. *)
Theorem jsonAfter_well_formed (pre left V rest : string)
    (Hfirst : indexOf (pre ++ left ++ V ++ rest) left = Some (String.length pre))
    (HV : Grammar.root V) :
  Utils.jsonAfter (pre ++ left ++ V ++ rest) left
  = Ok (match JSON_parse V with
        | Ok document => document
        | Err _ => VNull
        end).
Proof.
  unfold Utils.jsonAfter. rewrite Hfirst.
  rewrite slice_from_add, slice_from_app, slice_from_app.
  rewrite (cutAfterJSON_root V rest HV). cbn [bind].
  destruct (JSON_parse V); reflexivity.
Qed.

End AfterAnchor.

Lemma jsonAfter_well_formed_witness :
  @Utils.jsonAfter Sample.builtins ("<script>" ++ "var ytInitialData = " ++ "{}" ++ ";</script>")
    "var ytInitialData = "
  = Ok (match Sample.parse "{}" with Ok document => document | Err _ => VNull end).
Proof.
  refine (@jsonAfter_well_formed Sample.builtins "<script>" "var ytInitialData = " "{}"
            ";</script>" eq_refl _).
  split; [|right; reflexivity].
  apply (Grammar.t_object_empty ""). constructor.
Defined.

(** ** Texts given in runs *)

Section Runs.
Context {B : Builtins}.

Lemma map_runs (pieces : list string) :
  Js.map (fun a => Js.get a "text") (List.map More.run pieces)
  = Ok (List.map VStr pieces).
Proof.
  induction pieces as [|piece pieces IH]; [reflexivity|].
  cbn [List.map Js.map]. cbn [More.run Js.get Js.lookup_or_undef Js.lookup String.eqb
                              Ascii.eqb Bool.eqb bind].
  rewrite IH. reflexivity.
Qed.

Lemma join_strings (pieces : list string) :
  join (List.map VStr pieces) = String.concat "" pieces.
Proof.
  induction pieces as [|piece [|next pieces] IH]; [reflexivity| |].
  - cbn. now rewrite app_empty_r.
  - cbn [List.map join String.concat] in *. now rewrite IH.
Qed.

(** X12. A text without a truthy [simpleText] whose [runs] are an array of
    pieces parses to the pieces joined in order, whatever other properties
    the text and its array have, and the default is not used. *)
Theorem parseText_runs (props arrayProps : list (string * value))
    (pieces : list string) (def : value)
    (Hsimple : Js.truthy (Js.lookup_or_undef "simpleText" props) = false)
    (Hruns : Js.lookup_or_undef "runs" props = VArr (List.map More.run pieces) arrayProps) :
  Utils.parseText (VObj props) def = Ok (VStr (String.concat "" pieces)).
Proof.
  unfold Utils.parseText. cbn [Js.is_object_type Js.typeof negb Js.get bind].
  rewrite Hsimple, Hruns, map_runs. cbn [bind]. now rewrite join_strings.
Qed.

End Runs.

Lemma parseText_runs_witness :
  @Utils.parseText Sample.builtins
    (VObj [("runs", arr [More.run "1,234"; More.run " views"]); ("accessibility", VObj [])])
    VNull
  = Ok (VStr "1,234 views").
Proof.
  exact (@parseText_runs Sample.builtins
           [("runs", arr [More.run "1,234"; More.run " views"]); ("accessibility", VObj [])]
           [] ["1,234"; " views"] VNull eq_refl eq_refl).
Defined.

(** ** The locale of the execution context *)

Section Locale.
Context {B : Builtins}.

(** X13. In the execution context that [parseBody] builds, each of the
    three locale keys of the client holds the value the options give for it
    when that value is truthy, and the default otherwise; the client name
    is the fixed one, and the safety mode is set exactly when the options
    ask for safe search. *)
Theorem parseBody_locale (body : string) (options : value) (decoded : Utils.ParsedBody)
    (Hbody : Utils.parseBody body options = Ok decoded) :
  exists client user,
    Js.get (Utils.context decoded) "client" = Ok client
    /\ Js.get (Utils.context decoded) "user" = Ok user
    /\ (forall key default, In (key, default) More.locale_defaults ->
          exists chosen,
            Js.get (Utils.or_empty options) key = Ok chosen
            /\ Js.get client key = Ok (if Js.truthy chosen then chosen else default))
    /\ Js.get client "clientName" = Ok (VStr "WEB")
    /\ (exists safeSearch,
          Js.get (Utils.or_empty options) "safeSearch" = Ok safeSearch
          /\ Js.get user "enableSafetyMode"
             = Ok (if Js.truthy safeSearch then VBool true else VUndef)).
Proof.
  unfold Utils.parseBody in Hbody.
  set (opts := Utils.or_empty options) in *.
  cbn [Utils.json_roundtrip Utils.DEFAULT_CONTEXT Utils.json_copy List.map bind Utils.set_in
       Js.get Js.set Js.lookup_or_undef Js.lookup Js.update String.eqb Ascii.eqb Bool.eqb]
    in Hbody.
  unfold Utils.overlay in Hbody.
  apply bind_ok in Hbody as (c2 & H2 & Hbody). apply bind_ok in H2 as (gl & Hgl & H2).
  apply bind_ok in Hbody as (c3 & H3 & Hbody). apply bind_ok in H3 as (hl & Hhl & H3).
  apply bind_ok in Hbody as (c4 & H4 & Hbody). apply bind_ok in H4 as (utc & Hutc & H4).
  apply bind_ok in Hbody as (safe & Hsafe & Hbody).
  apply bind_ok in Hbody as (c5 & H5 & Hbody). injection Hbody as <-. cbn [Utils.context].
  destruct (Js.truthy gl) eqn:Tgl; [cbn in H2|]; injection H2 as <-;
    (destruct (Js.truthy hl) eqn:Thl; [cbn in H3|]; injection H3 as <-);
    (destruct (Js.truthy utc) eqn:Tutc; [cbn in H4|]; injection H4 as <-);
    (destruct (Js.truthy safe) eqn:Tsafe; [cbn in H5|]; injection H5 as <-);
    (do 2 eexists; split; [reflexivity|]; split; [reflexivity|]; split;
     [intros key default [[= <- <-]|[[= <- <-]|[[= <- <-]|[]]]];
      [exists gl; rewrite Tgl | exists hl; rewrite Thl | exists utc; rewrite Tutc];
      (split; [assumption | reflexivity])
     |split; [reflexivity|]; exists safe; rewrite Tsafe; split; [assumption | reflexivity]]).
Qed.

End Locale.

Lemma parseBody_locale_witness :
  exists decoded client,
    @Utils.parseBody Sample.builtins Sample.body
      (VObj [("gl", VStr "DE"); ("hl", VStr ""); ("safeSearch", VBool true)]) = Ok decoded
    /\ Js.get (Utils.context decoded) "client" = Ok client
    /\ Js.get client "gl" = Ok (VStr "DE")
    /\ Js.get client "hl" = Ok (VStr "en").
Proof.
  destruct (@Utils.parseBody Sample.builtins Sample.body
              (VObj [("gl", VStr "DE"); ("hl", VStr ""); ("safeSearch", VBool true)]))
    as [decoded|e] eqn:Hbody; [|vm_compute in Hbody; discriminate Hbody].
  destruct (@parseBody_locale Sample.builtins _ _ decoded Hbody)
    as (client & user & Hclient & _ & Hkeys & _).
  exists decoded, client. split; [reflexivity|]. split; [exact Hclient|].
  split.
  - destruct (Hkeys "gl" (VStr "US") (or_introl eq_refl)) as (chosen & Hc & Hg).
    injection Hc as <-. exact Hg.
  - destruct (Hkeys "hl" (VStr "en") (or_intror (or_introl eq_refl))) as (chosen & Hc & Hg).
    injection Hc as <-. exact Hg.
Defined.

(** ** The first-page adapter on a sectioned page *)

Section Sectioned.

Lemma other_section_key (key : string) (x : value) :
  More.other_section key x -> Utils.first_key_is key x = Ok false.
Proof.
  destruct x as [| | | | | |[|[k v] props]]; cbn; try contradiction; [reflexivity|].
  intros H. unfold Utils.first_key_is. cbn.
  apply String.eqb_neq in H. now rewrite H.
Qed.

Lemma find_skips (key : string) (before rest : list value) :
  Forall (More.other_section key) before ->
  Js.find (Utils.first_key_is key) (before ++ rest) = Js.find (Utils.first_key_is key) rest.
Proof.
  induction 1 as [|x before Hx _ IH]; [reflexivity|].
  cbn. rewrite (other_section_key key x Hx). cbn. exact IH.
Qed.

Lemma find_none (key : string) (sections : list value) :
  Forall (More.other_section key) sections ->
  Js.find (Utils.first_key_is key) sections = Ok VUndef.
Proof.
  intros H. rewrite <- (app_nil_r sections). now rewrite find_skips.
Qed.

(** X14. On a sectioned page the raw items are the contents of the first
    section whose first key is [itemSectionRenderer], whatever sections
    follow it; the continuation is the first section whose first key is
    [continuationItemRenderer], looked for in the whole list. *)
Theorem parseWrapper_sectioned (primaryContents sectionList : value)
    (before after : list value) (props more : list (string * value))
    (itemSection items : value)
    (Hlist : Js.get primaryContents "sectionListRenderer" = Ok sectionList)
    (Htruthy : Js.truthy sectionList = true)
    (Hcontents :
       Js.get sectionList "contents"
       = Ok (VArr (before ++ VObj (("itemSectionRenderer", itemSection) :: more) :: after) props))
    (Hbefore : Forall (More.other_section "itemSectionRenderer") before)
    (Hitems : Js.get itemSection "contents" = Ok items) :
  Utils.parseWrapper primaryContents
  = (marker <- Js.find (Utils.first_key_is "continuationItemRenderer")
                 (before ++ VObj (("itemSectionRenderer", itemSection) :: more) :: after) ;;
     Ok {| Utils.rawItems := items; Utils.continuation := marker |}).
Proof.
  unfold Utils.parseWrapper. rewrite Hlist; cbn [bind]. rewrite Htruthy.
  rewrite Hcontents; cbn [bind Js.as_array].
  rewrite (find_skips "itemSectionRenderer" before _ Hbefore).
  cbn [Js.find]. unfold Utils.first_key_is at 1.
  cbn [Js.first_key Js.own_props bind String.eqb Ascii.eqb Bool.eqb Js.get
       Js.lookup_or_undef Js.lookup].
  rewrite Hitems; cbn [bind]. reflexivity.
Qed.

(** X15. A sectioned page none of whose sections has [itemSectionRenderer]
    as its first key is not an empty page for the adapter: it raises a
    [TypeError]. *)
Theorem parseWrapper_without_item_section (primaryContents sectionList : value)
    (sections : list value) (props : list (string * value))
    (Hlist : Js.get primaryContents "sectionListRenderer" = Ok sectionList)
    (Htruthy : Js.truthy sectionList = true)
    (Hcontents : Js.get sectionList "contents" = Ok (VArr sections props))
    (Hnone : Forall (More.other_section "itemSectionRenderer") sections) :
  Utils.parseWrapper primaryContents = Err TypeError.
Proof.
  unfold Utils.parseWrapper. rewrite Hlist; cbn [bind]. rewrite Htruthy.
  rewrite Hcontents; cbn [bind Js.as_array].
  rewrite (find_none "itemSectionRenderer" sections Hnone). reflexivity.
Qed.

End Sectioned.

Lemma parseWrapper_sectioned_witness :
  Utils.parseWrapper
    (VObj [("sectionListRenderer",
            VObj [("contents",
                   arr ([VObj [("shelfRenderer", VObj [])]]
                        ++ VObj [("itemSectionRenderer", VObj [("contents", arr [VStr "a"])])]
                        :: [VObj [("itemSectionRenderer", VObj [("contents", arr [VStr "b"])])];
                            Sample.marker "t"]))])])
  = Ok {| Utils.rawItems := arr [VStr "a"]; Utils.continuation := Sample.marker "t" |}.
Proof.
  apply (parseWrapper_sectioned
           (VObj [("sectionListRenderer",
                   VObj [("contents",
                          arr ([VObj [("shelfRenderer", VObj [])]]
                               ++ VObj [("itemSectionRenderer", VObj [("contents", arr [VStr "a"])])]
                               :: [VObj [("itemSectionRenderer", VObj [("contents", arr [VStr "b"])])];
                                   Sample.marker "t"]))])])
           (VObj [("contents",
                   arr ([VObj [("shelfRenderer", VObj [])]]
                        ++ VObj [("itemSectionRenderer", VObj [("contents", arr [VStr "a"])])]
                        :: [VObj [("itemSectionRenderer", VObj [("contents", arr [VStr "b"])])];
                            Sample.marker "t"]))])
           [VObj [("shelfRenderer", VObj [])]]
           [VObj [("itemSectionRenderer", VObj [("contents", arr [VStr "b"])])];
            Sample.marker "t"]
           [] []
           (VObj [("contents", arr [VStr "a"])]) (arr [VStr "a"])).
  - reflexivity.
  - reflexivity.
  - reflexivity.
  - repeat constructor. discriminate.
  - reflexivity.
Defined.

Lemma parseWrapper_without_item_section_witness :
  Utils.parseWrapper
    (VObj [("sectionListRenderer",
            VObj [("contents", arr [VObj [("shelfRenderer", VObj [])]; VObj []])])])
  = Err TypeError.
Proof.
  apply (parseWrapper_without_item_section
           (VObj [("sectionListRenderer",
                   VObj [("contents", arr [VObj [("shelfRenderer", VObj [])]; VObj []])])])
           (VObj [("contents", arr [VObj [("shelfRenderer", VObj [])]; VObj []])])
           [VObj [("shelfRenderer", VObj [])]; VObj []] []).
  - reflexivity.
  - reflexivity.
  - reflexivity.
  - repeat constructor. discriminate.
Defined.

(** ** A string left open *)

Section OpenString.
Import Extractor Passing.



End OpenString.



(** ** Resuming a search and searching on *)

Lemma update_update (k : string) (v v' : value) (ps : list (string * value)) :
  Js.update k v (Js.update k v' ps) = Js.update k v ps.
Proof.
  induction ps as [|[k0 v0] ps IH]; cbn.
  - now rewrite String.eqb_refl.
  - destruct (String.eqb k k0) eqn:E; cbn;
      [now rewrite String.eqb_refl | now rewrite E, IH].
Qed.

Lemma update_comm (k k' : string) (v v' : value) (ps : list (string * value)) :
  k <> k' -> Js.lookup k ps <> None ->
  Js.update k v (Js.update k' v' ps) = Js.update k' v' (Js.update k v ps).
Proof.
  intros Hne. induction ps as [|[k0 v0] ps IH]; cbn; [congruence|].
  destruct (String.eqb k k0) eqn:E, (String.eqb k' k0) eqn:E'; cbn; intros Hin.
  - apply String.eqb_eq in E, E'. congruence.
  - rewrite E. assert (Hk : String.eqb k' k = false)
      by (apply String.eqb_neq; congruence).
    now rewrite Hk.
  - assert (Hk : String.eqb k k' = false) by now apply String.eqb_neq.
    rewrite Hk, E'. reflexivity.
  - rewrite E, E'. now rewrite IH.
Qed.

Lemma update_id (k : string) (v : value) (ps : list (string * value)) :
  Js.lookup k ps = Some v -> Js.update k v ps = ps.
Proof.
  induction ps as [|[k0 v0] ps IH]; cbn; [discriminate|].
  destruct (String.eqb k k0) eqn:E.
  - apply String.eqb_eq in E. subst k0. now intros [= ->].
  - intros H. now rewrite IH.
Qed.

Section Continued.
Context {B : Builtins}.

Lemma post_more (k : Z) (responseText : result string) (o oMore o1 : value)
    (r : result value) :
  More.one_more_page k o oMore ->
  Main.post responseText o = (r, o1) ->
  exists oMore1,
    Main.post responseText oMore = (r, oMore1) /\ More.one_more_page k o1 oMore1.
Proof.
  intros (ps & -> & Hp & Hl & ->). unfold Main.post. cbn [Js.get].
  unfold Js.lookup_or_undef. rewrite lookup_update_other by discriminate.
  set (given := match Js.lookup "requestOptions" ps with Some v => v | None => VUndef end).
  destruct (Utils.doPost given responseText) as [outcome reqOpts].
  assert (Hstored : More.one_more_page k
            (VObj (Js.update "requestOptions" reqOpts ps))
            (VObj (Js.update "requestOptions" reqOpts
                     (Js.update "pages" (VNum (Fin (k + 1))) ps)))).
  { exists (Js.update "requestOptions" reqOpts ps).
    rewrite !lookup_update_other by discriminate.
    repeat split; try assumption.
    f_equal. symmetry. apply update_comm; [discriminate | congruence]. }
  assert (Hsame : More.one_more_page k (VObj ps)
                    (VObj (Js.update "pages" (VNum (Fin (k + 1))) ps)))
    by (exists ps; repeat split; assumption).
  destruct given; cbn [Js.set]; intros [= <- <-]; eexists; (split; [reflexivity|]);
    assumption.
Qed.

Lemma spend_more (k : Z) (n : nat) (o oMore o2 : value) :
  More.one_more_page k o oMore ->
  Main.spend n o = (Ok tt, o2) ->
  exists oMore2,
    Main.spend n oMore = (Ok tt, oMore2) /\ More.one_more_page (k - 1) o2 oMore2.
Proof.
  intros (ps & -> & Hp & Hl & ->).
  unfold Main.spend, mbind, options_get, options_set. cbn [Js.get Js.set].
  unfold Js.lookup_or_undef.
  rewrite Hl. rewrite (lookup_update_other "pages" "limit") by discriminate. rewrite Hl.
  cbn [ToNumber Num.sub Js.get Js.set].
  rewrite !(lookup_update_other "limit" "pages") by discriminate.
  rewrite Hp, lookup_update_same. cbn [ToNumber Num.sub].
  intros [= <-]. eexists. split; [reflexivity|].
  exists (Js.update "pages" (VNum (Fin (k - 1))) (Js.update "limit" (VNum PInf) ps)).
  split; [reflexivity|]. split; [apply lookup_update_same|].
  split; [rewrite lookup_update_other by discriminate; apply lookup_update_same|].
  f_equal. rewrite update_update.
  rewrite (update_comm "limit" "pages") by (try discriminate; congruence).
  rewrite update_update. do 3 f_equal. lia.
Qed.

Lemma finished_more (k : Z) (token o oMore : value) :
  More.one_more_page k o oMore ->
  Main.finished token o = (Ok (negb (Js.truthy token) || (k <? 1)%Z), o)
  /\ Main.finished token oMore = (Ok (negb (Js.truthy token) || (k + 1 <? 1)%Z), oMore).
Proof.
  intros (ps & -> & Hp & Hl & ->).
  unfold Main.finished, mbind, options_get, ret. cbn [Js.get]. unfold Js.lookup_or_undef.
  rewrite Hl, Hp, lookup_update_same.
  rewrite lookup_update_other by discriminate. rewrite Hl.
  cbn [ToNumber Num.lt]. now rewrite !orb_false_r.
Qed.

Lemma get_more (k : Z) (o oMore : value) (key : string) :
  More.one_more_page k o oMore -> key <> "pages" -> Js.get oMore key = Js.get o key.
Proof.
  intros (ps & -> & Hp & Hl & ->) Hkey. cbn [Js.get]. unfold Js.lookup_or_undef.
  now rewrite lookup_update_other.
Qed.

(** A budget of no page with one more is the budget that [resetBudgets]
    writes. *)
Lemma reset_more (o oMore : value) :
  More.one_more_page 0 o oMore -> Main.resetBudgets o = (Ok tt, oMore).
Proof.
  intros (ps & -> & Hp & Hl & ->).
  unfold Main.resetBudgets, mbind, options_set. cbn [Js.set].
  rewrite update_id; [reflexivity|].
  rewrite lookup_update_other by discriminate. exact Hl.
Qed.

(** The body of [fetchNextPage] from the steps it takes. *)
Lemma nextPage_run (again : value -> M Page.t) (responseText : result string)
    (apiKey token context o response o1 commands : value) (wrapper : Utils.Wrapper)
    (limit : value) (kept : list value) (o2 nextToken : value) (stop : bool) :
  Main.post responseText o = (Ok response, o1) ->
  Js.get response "onResponseReceivedCommands" = Ok commands ->
  Js.isArray commands = true ->
  Engine.wrapperOf commands = Ok wrapper ->
  Js.get o1 "limit" = Ok limit ->
  Main.keepItems (fun item => parseItem item VUndef) (Utils.rawItems wrapper) limit = Ok kept ->
  Main.spend (List.length kept) o1 = (Ok tt, o2) ->
  Main.tokenOf (Utils.continuation wrapper) = Ok nextToken ->
  Main.finished nextToken o2 = (Ok stop, o2) ->
  Main.nextPage again responseText apiKey token context o
  = (if stop then
       (emit <~ Main.resumable nextToken ;;
        options <~ options_now ;;
        ret {| Page.continuation :=
                 if emit then arr [apiKey; nextToken; context; options] else VNull;
               Page.items := kept |})%engine o2
     else
       (next <~ again nextToken ;;
        ret {| Page.continuation := Page.continuation next;
               Page.items := (kept ++ Page.items next)%list |})%engine o2).
Proof.
  intros Hpost Hc Harr Hw Hl Hk Hsp Ht Hf.
  unfold Engine.wrapperOf in Hw.
  cbv beta delta [Main.nextPage mbind lift options_get].
  rewrite Hpost; cbv beta iota. rewrite Hc; cbv beta iota.
  rewrite Harr; cbv beta iota delta [negb]. rewrite Hw; cbv beta iota.
  rewrite Hl; cbv beta iota. rewrite Hk; cbv beta iota.
  rewrite Hsp; cbv beta iota. rewrite Ht; cbv beta iota.
  rewrite Hf; cbv beta iota. destruct stop; reflexivity.
Qed.

Variables apiKey context : value.

(** A fetch whose page budget runs out on the last response of [world]
    with a continuation to give, and the same fetch with one page more. *)
Lemma fetchNextPage_one_more (world : list string) :
  forall (k : Z) (token o oMore : value) (p : Page.t) (o' : value) (tail : list string),
    (1 <= k)%Z -> Z.of_nat (List.length world) = k ->
    More.one_more_page k o oMore ->
    Main.fetchNextPage world apiKey token context o = (Ok p, o') ->
    Page.continuation p <> VNull ->
    exists nextToken oReset,
      Page.continuation p = arr [apiKey; nextToken; context; o']
      /\ Main.resetBudgets o' = (Ok tt, oReset)
      /\ Main.fetchNextPage (world ++ tail) apiKey token context oMore
         = (next <~ Main.fetchNextPage tail apiKey nextToken context ;;
            ret {| Page.continuation := Page.continuation next;
                   Page.items := (Page.items p ++ Page.items next)%list |})%engine oReset.
Proof.
  induction world as [|text rest IH]; intros k token o oMore p o' tail Hk Hlen Hrel Hrun Hcont;
    [cbn in Hlen; lia|].
  cbn [Main.fetchNextPage app] in Hrun |- *.
  apply nextPage_inv in Hrun as (response & o1 & Hpost & Hrun).
  destruct (post_more _ _ _ _ _ _ Hrel Hpost) as (oMore1 & HpostM & Hrel1).
  destruct Hrun as [commands Hc Harr -> ->
                   |commands wrapper limit kept o2 nextToken stop Hc Harr Hw Hl Hkept Hsp Ht Hf Hrest];
    [now contradiction Hcont|].
  destruct (spend_more _ _ _ _ _ Hrel1 Hsp) as (oMore2 & HspM & Hrel2).
  destruct (finished_more (k - 1) nextToken _ _ Hrel2) as [Hf2 HfM].
  rewrite Hf in Hf2. injection Hf2 as Hstop.
  assert (HlM : Js.get oMore1 "limit" = Ok limit)
    by (rewrite (get_more _ _ _ "limit" Hrel1) by discriminate; exact Hl).
  rewrite (nextPage_run _ _ _ _ _ _ _ _ _ _ _ _ _ _ _
             HpostM Hc Harr Hw HlM Hkept HspM Ht HfM).
  destruct stop.
  - destruct Hrest as (emit & He & -> & ->). cbn [Page.continuation Page.items] in *.
    apply resumable_inv in He as (_ & lim & _ & He).
    destruct emit; [|now contradiction Hcont].
    symmetry in He. apply andb_true_iff in He as [Htok _].
    rewrite Htok in Hstop |- *. cbn [negb orb] in Hstop |- *.
    symmetry in Hstop. apply Z.ltb_lt in Hstop.
    assert (Hone : (k - 1 = 0)%Z) by lia.
    destruct rest as [|? ?]; [|cbn [List.length] in Hlen; lia].
    rewrite Hone in Hrel2 |- *. change (0 + 1 <? 1)%Z with false. cbv iota.
    exists nextToken, oMore2. split; [reflexivity|].
    split; [exact (reset_more _ _ Hrel2) | reflexivity].
  - destruct Hrest as (next & Hnext & ->). cbn [Page.continuation Page.items] in *.
    symmetry in Hstop. apply orb_false_iff in Hstop as [Htok Hpages].
    apply negb_false_iff in Htok. apply Z.ltb_ge in Hpages.
    rewrite Htok. cbn [negb orb].
    assert (Hmore : (k - 1 + 1 <? 1)%Z = false) by (apply Z.ltb_ge; lia).
    rewrite Hmore.
    assert (Hlen' : Z.of_nat (List.length rest) = (k - 1)%Z) by (cbn [List.length] in Hlen; lia).
    destruct (IH (k - 1)%Z nextToken o2 oMore2 next o' tail Hpages Hlen' Hrel2 Hnext Hcont)
      as (tok & oReset & Hd & Hreset & Heq).
    exists tok, oReset. split; [exact Hd|]. split; [exact Hreset|].
    unfold mbind at 1. rewrite Heq. unfold mbind, ret.
    destruct (Main.fetchNextPage tail apiKey tok context oReset) as [[q|e] s];
      cbn [Page.continuation Page.items]; [|reflexivity].
    now rewrite app_assoc.
Qed.

(** X17. Taking up the continuation of a fetch gives what the fetch would
    have gone on to give: when a fetch with an unbounded item budget and [k]
    pages, [k >= 1], has taken the [k] responses of [world] and the
    continuation it returns is resumed over the responses [tail] with
    success, the same fetch with one page more over [world ++ tail] succeeds
    too, with the items of both calls in this order and the continuation of
    the resumed one. *)
Theorem continueRequest_resumes (k : Z) (world tail : list string)
    (token o oMore : value) (first resumed : Page.t) (o' args' : value)
    (Hk : (1 <= k)%Z)
    (Hlen : Z.of_nat (List.length world) = k)
    (Hmore : More.one_more_page k o oMore)
    (Hfirst : Main.fetchNextPage world apiKey token context o = (Ok first, o'))
    (Hresumed : Main.continueRequest tail (Page.continuation first) = (Ok resumed, args')) :
  exists oEnd,
    Main.fetchNextPage (world ++ tail) apiKey token context oMore
    = (Ok {| Page.continuation := Page.continuation resumed;
             Page.items := (Page.items first ++ Page.items resumed)%list |}, oEnd)
    /\ Js.at_index args' 3 = Ok oEnd.
Proof.
  assert (Hcont : Page.continuation first <> VNull).
  { intros Hnull. rewrite Hnull in Hresumed. discriminate Hresumed. }
  destruct (fetchNextPage_one_more world k token o oMore first o' tail
              Hk Hlen Hmore Hfirst Hcont) as (tok & oReset & Hd & Hreset & Heq).
  rewrite Hd in Hresumed. unfold Main.continueRequest in Hresumed.
  destruct (Main.checkContinuation (arr [apiKey; tok; context; o']))
    as [[[[a0 a1] a2] a3]|e] eqn:Hcheck; [|discriminate Hresumed].
  apply checkContinuation_inv in Hcheck as (props & Hargs & _).
  injection Hargs as <- <- <- <- _.
  unfold mbind at 1 in Hresumed. rewrite Hreset in Hresumed.
  destruct (Main.fetchNextPage tail apiKey tok context oReset) as [outcome oEnd] eqn:Htail.
  injection Hresumed as -> <-.
  exists oEnd. split; [|reflexivity].
  rewrite Heq. unfold mbind, ret. now rewrite Htail.
Qed.

End Continued.

Lemma continueRequest_resumes_witness :
  exists oEnd,
    @Main.fetchNextPage Sample.builtins (["2"] ++ ["3"]) (VStr "key") (VStr "t1") (VObj [])
      (VObj (Js.update "pages" (VNum (Fin (1 + 1)))
               [("limit", VNum PInf); ("pages", VNum (Fin 1))]))
    = (Ok {| Page.continuation := VNull;
             Page.items := ([VStr "c"; VStr "d"] ++ [VStr "e"])%list |}, oEnd)
    /\ Js.at_index
         (arr [VStr "key"; VStr "t2"; VObj [];
               VObj [("limit", VNum PInf); ("pages", VNum (Fin 0))]]) 3
       = Ok oEnd.
Proof.
  apply (@continueRequest_resumes Sample.builtins (VStr "key") (VObj []) 1 ["2"] ["3"]
           (VStr "t1")
           (VObj [("limit", VNum PInf); ("pages", VNum (Fin 1))])
           (VObj (Js.update "pages" (VNum (Fin (1 + 1)))
                    [("limit", VNum PInf); ("pages", VNum (Fin 1))]))
           {| Page.continuation :=
                arr [VStr "key"; VStr "t2"; VObj [];
                     VObj [("limit", VNum PInf); ("pages", VNum (Fin 0))]];
              Page.items := [VStr "c"; VStr "d"] |}
           {| Page.continuation := VNull; Page.items := [VStr "e"] |}
           (VObj [("limit", VNum PInf); ("pages", VNum (Fin 0))])
           (arr [VStr "key"; VStr "t2"; VObj [];
                 VObj [("limit", VNum PInf); ("pages", VNum (Fin 0))]])).
  - lia.
  - reflexivity.
  - exists [("limit", VNum PInf); ("pages", VNum (Fin 1))]. repeat split.
  - reflexivity.
  - reflexivity.
Defined.


(** ** The query after [checkArgs] *)

Lemma update_keys (k x : string) (v : value) (ps : list (string * value)) :
  In x (List.map fst (Js.update k v ps)) -> x = k \/ In x (List.map fst ps).
Proof.
  induction ps as [|[k0 v0] ps IH]; cbn.
  - intros [<-|[]]. now left.
  - destruct (String.eqb k k0) eqn:E; cbn.
    + apply String.eqb_eq in E. subst k0. intros [<-|H]; auto.
    + intros [<-|H]; [auto|]. destruct (IH H); auto.
Qed.

Lemma update_keys_nodup (k : string) (v : value) (ps : list (string * value)) :
  NoDup (List.map fst ps) -> NoDup (List.map fst (Js.update k v ps)).
Proof.
  induction ps as [|[k0 v0] ps IH]; cbn; intros Hnd.
  - constructor; [intros [] | constructor].
  - inversion Hnd as [|? ? Hnotin Hrest]; subst.
    destruct (String.eqb k k0) eqn:E; cbn.
    + apply String.eqb_eq in E. subst k0. now constructor.
    + constructor; [|now apply IH].
      intros Hin. apply update_keys in Hin as [->|Hin]; [|contradiction].
      now rewrite String.eqb_refl in E.
Qed.

Lemma lookup_absent (k : string) (ps : list (string * value)) :
  ~ In k (List.map fst ps) -> Js.lookup k ps = None.
Proof.
  induction ps as [|[k0 v0] ps IH]; cbn; [reflexivity|]. intros Hnotin.
  destruct (String.eqb k k0) eqn:E.
  - apply String.eqb_eq in E. subst k0. exfalso. apply Hnotin. now left.
  - apply IH. intros Hin. apply Hnotin. now right.
Qed.

(** [Object.assign] from a source without repeated keys: the source wins. *)
Lemma lookup_assign (k : string) (source : list (string * value)) :
  NoDup (List.map fst source) ->
  forall target,
    Js.lookup k (fold_left (fun acc kv => Js.update (fst kv) (snd kv) acc) source target)
    = match Js.lookup k source with
      | Some v => Some v
      | None => Js.lookup k target
      end.
Proof.
  induction source as [|[k0 v0] source IH]; cbn; intros Hnd target; [reflexivity|].
  inversion Hnd as [|? ? Hnotin Hrest]; subst.
  rewrite (IH Hrest). destruct (String.eqb k k0) eqn:E.
  - apply String.eqb_eq in E. subst k0.
    now rewrite (lookup_absent k source Hnotin), lookup_update_same.
  - rewrite lookup_update_other; [reflexivity|].
    intros ->. now rewrite String.eqb_refl in E.
Qed.

Section Query.
Context {B : Builtins}.

Lemma param_get_key (key value : string) (params : list (string * string)) :
  Utils.param_get key params = Some value -> In key (List.map fst params).
Proof.
  induction params as [|[k v] params IH]; cbn; [discriminate|].
  destruct (String.eqb key k) eqn:E.
  - apply String.eqb_eq in E. now left.
  - intros H. right. now apply IH.
Qed.

(** The object that the parameters of a filter link are copied to. *)
Lemma link_query (params sub : list (string * string)) :
  forall acc,
    NoDup (List.map fst acc) ->
    let query :=
      fold_left
        (fun query kv =>
           match Utils.param_get (fst kv) params with
           | Some v => Js.update (fst kv) (VStr v) query
           | None => query
           end) sub acc in
    NoDup (List.map fst query)
    /\ forall key value,
         Utils.param_get key params = Some value ->
         In key (List.map fst sub) \/ Js.lookup key acc = Some (VStr value) ->
         Js.lookup key query = Some (VStr value).
Proof.
  induction sub as [|[k v] sub IH]; cbn; intros acc Hnd.
  - split; [assumption|]. intros key value _ [[]|H]. exact H.
  - destruct (Utils.param_get k params) as [first|] eqn:Hk.
    + destruct (IH (Js.update k (VStr first) acc) (update_keys_nodup _ _ _ Hnd)) as [Hq Hl].
      split; [exact Hq|]. intros key value Hkey Hin. apply (Hl key value Hkey).
      destruct (String.eqb_spec key k) as [->|Hne].
      * right. rewrite lookup_update_same. congruence.
      * destruct Hin as [[Heq|Hin]|Hacc]; [congruence | now left |].
        right. now rewrite lookup_update_other.
    + destruct (IH acc Hnd) as [Hq Hl].
      split; [exact Hq|]. intros key value Hkey Hin. apply (Hl key value Hkey).
      destruct Hin as [[Heq|Hin]|Hacc]; [congruence | now left | now right].
Qed.

(** The query that [checkArgs] starts from names its search term, a string
    that is not empty, and names no key twice. *)
Lemma queryOf_term (search : string) (query : value) :
  search <> "" ->
  Utils.queryOf search = Ok query ->
  exists props term,
    query = VObj props
    /\ NoDup (List.map fst props)
    /\ Js.lookup "search_query" props = Some (VStr term)
    /\ term <> "".
Proof.
  intros Hsearch H. unfold Utils.queryOf in H.
  apply bind_ok in H as (inputURL & _ & H).
  destruct (_ && _) in H.
  - destruct (Utils.param_get "search_query" (searchParams inputURL))
      as [[|c term]|] eqn:Hterm; try discriminate H.
    injection H as <-.
    destruct (link_query (searchParams inputURL) (searchParams inputURL) [] (NoDup_nil _))
      as [Hnd Hl].
    eexists. exists (String c term). split; [reflexivity|]. split; [exact Hnd|].
    split; [|discriminate].
    apply Hl; [exact Hterm|]. left. eapply param_get_key; eassumption.
  - injection H as <-. exists [("search_query", VStr search)], search.
    split; [reflexivity|]. split; [|split; [reflexivity | assumption]].
    constructor; [intros [] | constructor].
Qed.

(** X18. The query that [checkArgs] hands to the engine: the search term,
    a string that is not empty, is recorded both as [search] and as
    [query.search_query], for a plain search string and for a filter link
    alike; and a truthy [gl] or [hl] of the caller is the [gl] or [hl] of
    the query, whatever the defaults and the link say. *)
Theorem checkArgs_query (searchString options opts : value)
    (Hargs : Utils.checkArgs searchString options = Ok opts) :
  exists term query,
    term <> ""
    /\ Js.get opts "search" = Ok (VStr term)
    /\ Js.get opts "query" = Ok query
    /\ Js.get query "search_query" = Ok (VStr term)
    /\ forall key given,
         key = "gl" \/ key = "hl" ->
         Js.get (Utils.or_empty options) key = Ok given ->
         Js.truthy given = true ->
         Js.get query key = Ok given.
Proof.
  unfold Utils.checkArgs in Hargs.
  destruct (negb (Js.truthy searchString)) eqn:Htruthy; [discriminate|].
  destruct searchString as [| | | |search| |]; try discriminate.
  assert (Hsearch : search <> "") by (intros ->; discriminate Htruthy).
  apply bind_ok in Hargs as (obj1 & Hn & H).
  destruct (normalizeBudgets_inv (VObj _) obj1 eq_refl Hn) as (Hs1 & _ & _).
  apply bind_ok in H as (safeSearch & Hsafe & H).
  apply bind_ok in H as (obj2 & H2 & H).
  assert (Hs2 : Engine.settable obj2 = true).
  { destruct safeSearch;
      try (now destruct (get_set_same obj1 obj2 "safeSearch" _ Hs1 ltac:(discriminate) H2)).
    now injection H2 as <-. }
  apply bind_ok in H as (safeSearch' & _ & H).
  apply bind_ok in H as (requestOptions & _ & H).
  apply bind_ok in H as (obj3 & H3 & H).
  apply bind_ok in H as (query0 & Hq & H).
  apply bind_ok in H as (obj3' & H3' & H).
  apply bind_ok in H as (searchTerm & Hterm & H).
  apply bind_ok in H as (obj4 & H4 & H).
  apply bind_ok in H as (gl & Hgl & H).
  apply bind_ok in H as (query1 & H1 & H).
  apply bind_ok in H as (hl & Hhl & H).
  apply bind_ok in H as (query2 & Hq2 & H).
  destruct (queryOf_term search query0 Hsearch Hq) as (props & term & -> & Hnd & Hlook & Hne).
  cbn [Js.get] in Hterm. unfold Js.lookup_or_undef in Hterm. rewrite Hlook in Hterm.
  injection Hterm as <-.
  destruct (set_keeps obj2 obj3 "requestOptions" "search" _ ltac:(discriminate) Hs2 H3)
    as [Hs3 _].
  destruct (set_keeps obj3 obj3' "query" "search" _ ltac:(discriminate) Hs3 H3') as [Hs3' _].
  destruct (get_set_same obj3' obj4 "search" _ Hs3' ltac:(discriminate) H4) as [Hg4 Hs4].
  destruct (get_set_same obj4 opts "query" _ Hs4 ltac:(discriminate) H) as [Hgq _].
  set (merged := VObj (Js.assign (Js.assign [] Utils.DEFAULT_QUERY) (VObj props))) in *.
  assert (Hm : Engine.settable merged = true) by reflexivity.
  assert (Hmterm : Js.get merged "search_query" = Ok (VStr term)).
  { unfold merged. cbn [Js.get]. unfold Js.lookup_or_undef, Js.assign at 1.
    cbn [Js.own_props]. now rewrite (lookup_assign _ props Hnd), Hlook. }
  assert (Hq1 : Engine.settable query1 = true
                /\ Js.get query1 "search_query" = Ok (VStr term)
                /\ (Js.truthy gl = true -> Js.get query1 "gl" = Ok gl)).
  { destruct (Js.truthy gl).
    - destruct (get_set_same merged query1 "gl" _ Hm ltac:(discriminate) H1) as [Hg Hs].
      rewrite (get_set_other merged query1 "gl" "search_query" _ ltac:(discriminate) H1).
      auto.
    - injection H1 as <-. repeat split; [assumption | discriminate]. }
  destruct Hq1 as (Hsq1 & Hterm1 & Hgl1).
  assert (Hq2' : Js.get query2 "search_query" = Ok (VStr term)
                 /\ (Js.truthy gl = true -> Js.get query2 "gl" = Ok gl)
                 /\ (Js.truthy hl = true -> Js.get query2 "hl" = Ok hl)).
  { destruct (Js.truthy hl).
    - destruct (get_set_same query1 query2 "hl" _ Hsq1 ltac:(discriminate) Hq2) as [Hg Hs].
      rewrite (get_set_other query1 query2 "hl" "search_query" _ ltac:(discriminate) Hq2).
      rewrite (get_set_other query1 query2 "hl" "gl" _ ltac:(discriminate) Hq2).
      auto.
    - injection Hq2 as <-. repeat split; [assumption | assumption | discriminate]. }
  destruct Hq2' as (Hterm2 & Hgl2 & Hhl2).
  exists term, query2. split; [exact Hne|]. split.
  - rewrite (get_set_other obj4 opts "query" "search" _ ltac:(discriminate) H). exact Hg4.
  - split; [exact Hgq|]. split; [exact Hterm2|].
    intros key given [-> | ->] Hgiven Hyes.
    + rewrite Hgl in Hgiven. injection Hgiven as <-. now apply Hgl2.
    + rewrite Hhl in Hgiven. injection Hgiven as <-. now apply Hhl2.
Qed.

End Query.

Lemma checkArgs_query_witness :
  exists term query,
    term <> ""
    /\ Js.get (VObj [("limit", VNum (Fin 100)); ("safeSearch", VBool false);
                     ("gl", VStr "DE"); ("requestOptions", VObj []);
                     ("query", VObj [("gl", VStr "DE"); ("hl", VStr "en");
                                     ("search_query", VStr "cats")]);
                     ("search", VStr "cats")]) "search" = Ok (VStr term)
    /\ Js.get (VObj [("limit", VNum (Fin 100)); ("safeSearch", VBool false);
                     ("gl", VStr "DE"); ("requestOptions", VObj []);
                     ("query", VObj [("gl", VStr "DE"); ("hl", VStr "en");
                                     ("search_query", VStr "cats")]);
                     ("search", VStr "cats")]) "query" = Ok query
    /\ Js.get query "search_query" = Ok (VStr term)
    /\ forall key given,
         key = "gl" \/ key = "hl" ->
         Js.get (Utils.or_empty (VObj [("gl", VStr "DE")])) key = Ok given ->
         Js.truthy given = true ->
         Js.get query key = Ok given.
Proof.
  apply (@checkArgs_query Sample.builtins (VStr "cats") (VObj [("gl", VStr "DE")])).
  reflexivity.
Defined.


(** ** The active filters of a search result *)

Section ActiveFilters.
Context {B : Builtins}.

Lemma activeOf_active (catalog : Utils.Catalog) :
  (forall category group, In (category, group) catalog -> More.group_ok group) ->
  Forall (fun f => Utils.active f = true /\ Utils.url f = VNull) (Main.activeOf catalog).
Proof.
  induction catalog as [|[category group] catalog IH]; intros Hok; cbn; [constructor|].
  assert (Hrest : Forall (fun f => Utils.active f = true /\ Utils.url f = VNull)
                    (Main.activeOf catalog))
    by (apply IH; intros c g Hin; apply (Hok c g); now right).
  destruct (Utils.group_active group) as [f|] eqn:Hf; [|exact Hrest].
  constructor; [|exact Hrest].
  destruct (Hok category group (or_introl eq_refl)) as [Hactive _]. now apply Hactive.
Qed.

Lemma parseFilters_active (doc : value) (catalog : Utils.Catalog) :
  Utils.parseFilters doc = Ok catalog ->
  Forall (fun f => Utils.active f = true /\ Utils.url f = VNull) (Main.activeOf catalog).
Proof.
  intros H. apply activeOf_active. rewrite parseFilters_reads in H.
  apply bind_ok in H as (primaryContents & _ & H).
  apply bind_ok in H as (wrapper & _ & H).
  apply bind_ok in H as (menu & _ & H).
  apply bind_ok in H as (groups & _ & H).
  apply bind_ok in H as (filterWrapper & _ & H).
  apply bind_ok in H as (groupList & _ & H).
  eapply for_each_groups_ok; [|exact H]. intros category group [].
Qed.

Lemma activeOf_length (catalog : Utils.Catalog) :
  List.length (Main.activeOf catalog) <= List.length catalog.
Proof.
  induction catalog as [|[category group] catalog IH]; cbn; [lia|].
  destruct (Utils.group_active group); cbn; lia.
Qed.

Lemma firstPage_filters (again : value -> value -> value -> M Page.t)
    (parsedResponse : Utils.ParsedBody) (o : value) (r : Main.SearchResult) (o' : value) :
  Main.firstPage again parsedResponse o = (Ok r, o') ->
  exists filters,
    Utils.parseFilters (Utils.json parsedResponse) = Ok filters
    /\ Main.activeFilters r = Main.activeOf filters.
Proof.
  unfold Main.firstPage. intros H.
  apply mbind_inv in H as ([] & s & Ha & H). apply lift_inv in Ha as [_ ->].
  apply mbind_inv in H as (search & s & Hs & H). apply options_get_inv in Hs as [_ ->].
  apply mbind_inv in H as (estimated & s & He & H). apply lift_inv in He as [_ ->].
  apply mbind_inv in H as (urls & s & Hr & H). apply lift_inv in Hr as [_ ->].
  apply mbind_inv in H as (wrapper & s & Hw & H). apply lift_inv in Hw as [_ ->].
  apply mbind_inv in H as (limit & s & Hl & H). apply options_get_inv in Hl as [_ ->].
  apply mbind_inv in H as (kept & s & Hk & H). apply lift_inv in Hk as [_ ->].
  apply mbind_inv in H as ([] & o2 & Hsp & H).
  apply mbind_inv in H as (filters & s & Hf & H). apply lift_inv in Hf as [Hf ->].
  apply mbind_inv in H as (token & s & Htok & H). apply lift_inv in Htok as [_ ->].
  apply mbind_inv in H as (emit & s & Hem & H).
  apply mbind_inv in H as (opts & s' & Hnow & H).
  apply mbind_inv in H as (stop & s'' & Hfin & H).
  exists filters. split; [exact Hf|].
  destruct stop.
  - now apply ret_inv in H as [-> _].
  - apply mbind_inv in H as (next & s3 & Hn & H). now apply ret_inv in H as [-> _].
Qed.

(** X19. The active filters of every result of [fetchSearchResults] are
    the active entries of the filter catalog of a document that one of the
    responses holds, at most one for each group, in the order of the
    groups: each of them is marked active and has no url. *)
Theorem fetchSearchResults_active_filters (retries : nat) (world : list string)
    (searchString options : value) (r : Main.SearchResult)
    (Hsearch : Main.fetchSearchResults retries world searchString options = Ok r) :
  Forall (fun f => Utils.active f = true /\ Utils.url f = VNull) (Main.activeFilters r)
  /\ exists catalog,
       Main.activeFilters r = Main.activeOf catalog
       /\ List.length (Main.activeFilters r) <= List.length catalog
       /\ exists opts body parsedResponse,
            In body world
            /\ Utils.parseBody body opts = Ok parsedResponse
            /\ Utils.parseFilters (Utils.json parsedResponse) = Ok catalog.
Proof.
  revert world Hsearch. induction retries as [|retries IH]; intros world H; [discriminate|].
  cbn [Main.fetchSearchResults] in H.
  apply bind_ok in H as (opts & Hargs & H).
  destruct world as [|responseBody rest]; [discriminate|].
  apply bind_ok in H as (parsedResponse & Hbody & H).
  destruct (negb (Js.truthy (Utils.json parsedResponse))).
  - destruct (IH rest H) as (Hall & catalog & Hact & Hlen & o & body & p & Hin & Hp & Hf).
    split; [exact Hall|]. exists catalog. split; [exact Hact|]. split; [exact Hlen|].
    exists o, body, p. split; [now right | split; assumption].
  - destruct (Main.firstPage (Main.fetchNextPage rest) parsedResponse opts)
      as [outcome o'] eqn:Hrun.
    cbn [fst] in H. subst outcome.
    apply firstPage_filters in Hrun as (filters & Hf & Hact).
    split.
    + rewrite Hact. exact (parseFilters_active _ _ Hf).
    + exists filters. split; [exact Hact|]. split; [rewrite Hact; apply activeOf_length|].
      exists opts, responseBody, parsedResponse. split; [now left | split; assumption].
Qed.

End ActiveFilters.

(** ** The alert of an upstream error *)

Section Alerts.
Context {B : Builtins}.

Lemma bind_err {A C : Type} (r : result A) (k : A -> result C) (e : error) :
  bind r k = Err e -> r = Err e \/ exists a, r = Ok a /\ k a = Err e.
Proof. destruct r as [a|e']; cbn; [eauto | intros [= ->]; now left]. Qed.

Lemma get_raises (x : value) (k : string) (e : error) :
  Js.get x k = Err e -> e = TypeError.
Proof.
  destruct x; cbn; try discriminate; try (now intros [= <-]);
    destruct (String.eqb k "length"); discriminate.
Qed.

Lemma isErrorAlert_raises (alert : value) (e : error) :
  Main.isErrorAlert alert = Err e -> e = TypeError.
Proof.
  unfold Main.isErrorAlert. intros H.
  apply bind_err in H as [H|(renderer & _ & H)]; [now apply get_raises in H|].
  destruct (Js.truthy renderer); [|discriminate].
  apply bind_err in H as [H|(type & _ & H)]; [now apply get_raises in H | discriminate].
Qed.

Lemma find_raises (p : value -> result bool) (l : list value) (e : error) :
  (forall x e', p x = Err e' -> e' = TypeError) ->
  Js.find p l = Err e -> e = TypeError.
Proof.
  intros Hp. induction l as [|x l IH]; cbn; [discriminate|]. intros H.
  apply bind_err in H as [H|(b & _ & H)]; [now apply Hp in H|].
  destruct b; [discriminate | now apply IH].
Qed.

Lemma find_found (p : value -> result bool) (l : list value) (x : value) :
  Js.find p l = Ok x -> Js.truthy x = true -> In x l /\ p x = Ok true.
Proof.
  induction l as [|y l IH]; cbn; [now intros [= <-]|]. intros H Hx.
  apply bind_ok in H as (b & Hb & H). destruct b.
  - injection H as <-. split; [now left | exact Hb].
  - destruct (IH H Hx) as [Hin Hp]. split; [now right | exact Hp].
Qed.

Lemma map_get_raises (key : string) (l : list value) (e : error) :
  Js.map (fun a => Js.get a key) l = Err e -> e = TypeError.
Proof.
  induction l as [|x l IH]; cbn; [discriminate|]. intros H.
  apply bind_err in H as [H|(y & _ & H)]; [now apply get_raises in H|].
  apply bind_err in H as [H|(tl & _ & H)]; [now apply IH | discriminate].
Qed.

Lemma parseText_raises (txt def : value) (e : error) :
  Utils.parseText txt def = Err e -> e = TypeError.
Proof.
  unfold Utils.parseText. destruct (negb (Js.is_object_type txt)); [discriminate|].
  intros H. apply bind_err in H as [H|(simpleText & _ & H)]; [now apply get_raises in H|].
  destruct (Js.truthy simpleText); [discriminate|].
  apply bind_err in H as [H|(runs & _ & H)]; [now apply get_raises in H|].
  destruct runs; try discriminate.
  apply bind_err in H as [H|(texts & _ & H)]; [now apply map_get_raises in H | discriminate].
Qed.

(** X20. The alert check of a search raises an upstream error only for a
    document that has alerts and no contents, and the message is that of
    the first alert of type [ERROR]: its text as [parseText] reads it, after
    [API-Error: ]. *)
Theorem checkAlerts_upstream (json : value) (message : string)
    (Herr : Main.checkAlerts json = Err (UpstreamError message)) :
  exists alerts props contents error renderer text parsed,
    Js.get json "alerts" = Ok (VArr alerts props)
    /\ Js.get json "contents" = Ok contents
    /\ Js.truthy contents = false
    /\ Js.find Main.isErrorAlert alerts = Ok error
    /\ In error alerts
    /\ Main.isErrorAlert error = Ok true
    /\ Js.get error "alertRenderer" = Ok renderer
    /\ Js.get renderer "text" = Ok text
    /\ Utils.parseText text (VStr "* no message *") = Ok parsed
    /\ message = ("API-Error: " ++ Main.interpolate parsed)%string.
Proof.
  unfold Main.checkAlerts in Herr.
  apply bind_err in Herr as [H|(alerts & Ha & H)]; [now apply get_raises in H|].
  apply bind_err in H as [H|(contents & Hc & H)]; [now apply get_raises in H|].
  destruct (Js.truthy alerts && negb (Js.truthy contents)) eqn:Hcond; [|discriminate].
  apply andb_true_iff in Hcond as [_ Hcontents]. apply negb_true_iff in Hcontents.
  apply bind_err in H as [H|(alertList & Hl & H)];
    [destruct alerts; discriminate|].
  destruct alerts as [| | | | |l props|]; try discriminate. injection Hl as <-.
  apply bind_err in H as [H|(error & Hfind & H)].
  { apply find_raises in H; [discriminate | exact isErrorAlert_raises]. }
  destruct (Js.truthy error) eqn:Herror; [|discriminate].
  destruct (find_found _ _ _ Hfind Herror) as [Hin Htype].
  apply bind_err in H as [H|(renderer & Hr & H)]; [now apply get_raises in H|].
  apply bind_err in H as [H|(text & Ht & H)]; [now apply get_raises in H|].
  apply bind_err in H as [H|(parsed & Hp & H)]; [now apply parseText_raises in H|].
  injection H as <-.
  exists l, props, contents, error, renderer, text, parsed. repeat split; assumption.
Qed.

End Alerts.

Lemma checkAlerts_upstream_witness :
  exists alerts props contents error renderer text parsed,
    Js.get (VObj [("alerts",
                   arr [VObj [("alertRenderer", VObj [("type", VStr "INFO")])];
                        VObj [("alertRenderer",
                               VObj [("type", VStr "ERROR");
                                     ("text", VObj [("simpleText", VStr "down")])])]])])
           "alerts" = Ok (VArr alerts props)
    /\ Js.get (VObj [("alerts",
                      arr [VObj [("alertRenderer", VObj [("type", VStr "INFO")])];
                           VObj [("alertRenderer",
                                  VObj [("type", VStr "ERROR");
                                        ("text", VObj [("simpleText", VStr "down")])])]])])
              "contents" = Ok contents
    /\ Js.truthy contents = false
    /\ Js.find Main.isErrorAlert alerts = Ok error
    /\ In error alerts
    /\ Main.isErrorAlert error = Ok true
    /\ Js.get error "alertRenderer" = Ok renderer
    /\ Js.get renderer "text" = Ok text
    /\ @Utils.parseText Sample.builtins text (VStr "* no message *") = Ok parsed
    /\ "API-Error: down" = ("API-Error: " ++ @Main.interpolate Sample.builtins parsed)%string.
Proof.
  apply (@checkAlerts_upstream Sample.builtins
           (VObj [("alerts",
                   arr [VObj [("alertRenderer", VObj [("type", VStr "INFO")])];
                        VObj [("alertRenderer",
                               VObj [("type", VStr "ERROR");
                                     ("text", VObj [("simpleText", VStr "down")])])]])])
           "API-Error: down").
  reflexivity.
Defined.

Lemma fetchSearchResults_active_filters_witness :
  exists r,
    @Main.fetchSearchResults (example_builtins (fun _ => Ok More.filtered_page)) 3
      [Sample.body] (VStr "cats") VUndef = Ok r
    /\ List.map Utils.name (Main.activeFilters r) = [VStr "Video"]
    /\ Forall (fun f => Utils.active f = true /\ Utils.url f = VNull) (Main.activeFilters r).
Proof.
  destruct (@Main.fetchSearchResults (example_builtins (fun _ => Ok More.filtered_page)) 3
              [Sample.body] (VStr "cats") VUndef) as [r|e] eqn:Hrun;
    [|vm_compute in Hrun; discriminate Hrun].
  exists r. split; [reflexivity|].
  split; [vm_compute in Hrun; injection Hrun as <-; reflexivity|].
  exact (proj1 (@fetchSearchResults_active_filters
                  (example_builtins (fun _ => Ok More.filtered_page)) 3
                  [Sample.body] (VStr "cats") VUndef r Hrun)).
Defined.
